(** * terminal-mcp-server: the terminal session subsystem

    A shallow embedding of the three server variants of the repository

    - [terminal_mcp_new.js]  (multi-terminal server, classes [TerminalSession]
      and [TerminalManager]),
    - the single-shell server with [executeCommandInShell],
      [updateWorkingDirectory] and the [use_persistent_shell] switch,
    - [terminal_mcp.js]      (the first, polling server),

    and the properties of command completion, directory tracking, the session
    registry and the request dispatch proved about them.

    JavaScript strings are sequences of code units; the embedding covers the
    code units below 256, as [string].  Time stamps ([Date.now()]) are
    integers ([Z]).  The Node.js built-ins the code calls
    ([String.prototype], [RegExp], [path], [os]) are written out from their
    definition, [path] as on POSIX and [RegExp] for the patterns of
    [RegExp.inFragment]; what the engine does with the other patterns is a
    parameter of the host. *)

From Stdlib Require Import String Ascii List ZArith NArith Bool Lia.
From Stdlib Require Import DecimalString.
From Stdlib Require DecimalZ DecimalN.
Import ListNotations.
Open Scope string_scope.
Open Scope Z_scope.

Set Implicit Arguments.

(* ------------------------------------------------------------------ *)
(** ** JavaScript strings *)

Module JS.

(** Characters that have no literal inside a Rocq string. *)
Definition dquote : string := String (ascii_of_nat 34) EmptyString.
Definition squote : string := "'".
Definition nl : string := String (ascii_of_nat 10) EmptyString.
Definition cr : string := String (ascii_of_nat 13) EmptyString.

(** [WhiteSpace] and [LineTerminator] of ECMAScript below 256: what [\s]
    matches and what [trim] removes. *)
Definition isWhiteSpace (c : ascii) : bool :=
  let n := nat_of_ascii c in
  existsb (Nat.eqb n) [9; 10; 11; 12; 13; 32; 160]%nat.

(** What [.] does not match. *)
Definition isLineTerminator (c : ascii) : bool :=
  let n := nat_of_ascii c in
  existsb (Nat.eqb n) [10; 13]%nat.

Fixpoint trimStart (s : string) : string :=
  match s with
  | EmptyString => EmptyString
  | String c s' => if isWhiteSpace c then trimStart s' else s
  end.

Fixpoint trimEnd (s : string) : string :=
  match s with
  | EmptyString => EmptyString
  | String c s' =>
      match trimEnd s' with
      | EmptyString => if isWhiteSpace c then EmptyString else String c EmptyString
      | t => String c t
      end
  end.

(** [s.trim()] *)
Definition trim (s : string) : string := trimEnd (trimStart s).

(** [s.startsWith(p)] *)
Definition startsWith (s p : string) : bool := String.prefix p s.

Fixpoint drop (n : nat) (s : string) : string :=
  match n, s with
  | O, _ => s
  | S _, EmptyString => EmptyString
  | S k, String _ s' => drop k s'
  end.

(** [s.endsWith(p)] *)
Definition endsWith (s p : string) : bool :=
  (String.length p <=? String.length s)%nat
  && String.eqb (drop (String.length s - String.length p) s) p.

(** [s.includes(p)] *)
Fixpoint includes (s p : string) : bool :=
  String.prefix p s
  || match s with
     | EmptyString => false
     | String _ s' => includes s' p
     end.

(** [s.slice(1, -1)] *)
Definition slice_1_m1 (s : string) : string :=
  String.substring 1 (String.length s - 2) s.

(** [s.slice(2)] *)
Definition slice_2 (s : string) : string := drop 2 s.

(** [s.replace(p, '')] with a string pattern: the first occurrence only. *)
Fixpoint replaceFirst (s p : string) : string :=
  if String.prefix p s then drop (String.length p) s
  else match s with
       | EmptyString => EmptyString
       | String c s' => String c (replaceFirst s' p)
       end.

(** Characters with a meaning of their own in a regular expression. *)
Definition regexpSpecial (c : ascii) : bool :=
  existsb (Ascii.eqb c)
    ["\"; "^"; "$"; "."; "|"; "?"; "*"; "+"; "("; ")"; "["; "]"; "{"; "}"]%char.

(** A pattern without such characters. *)
Fixpoint regexpLiteral (p : string) : bool :=
  match p with
  | EmptyString => true
  | String c p' => negb (regexpSpecial c) && regexpLiteral p'
  end.

(** Every occurrence of [p] taken out of [s]: the occurrences are looked
    for from left to right and do not overlap.  [skip] counts the characters
    of an occurrence still to drop. *)
Fixpoint removeAllFrom (skip : nat) (s p : string) : string :=
  match s with
  | EmptyString => EmptyString
  | String c s' =>
      match skip with
      | S k => removeAllFrom k s' p
      | O =>
          if String.prefix p s then
            match String.length p with
            | O => String c (removeAllFrom O s' p)
            | S k => removeAllFrom k s' p
            end
          else String c (removeAllFrom O s' p)
      end
  end.

Definition removeAll (s p : string) : string := removeAllFrom O s p.

(** [a || b] on strings that may be [undefined]: the empty string is falsy. *)
Definition orElse (a : option string) (b : string) : string :=
  match a with
  | Some (String c s) => String c s
  | _ => b
  end.

(** Template literal output of an integer. *)
Definition showN (n : N) : string := NilEmpty.string_of_uint (N.to_uint n).
Definition showZ (z : Z) : string := NilEmpty.string_of_int (Z.to_int z).
Definition showBool (b : bool) : string := if b then "true" else "false".

End JS.

(* ------------------------------------------------------------------ *)
(** ** Regular expressions: [new RegExp(p, 'g')] and [s.replace(re, '')] *)

Module RegExp.

(** What the servers do with a regular expression: they build it from a
    pattern, with the flag [g], and replace its matches by the empty string.
    An engine gives, for a pattern, that replacement function, or nothing
    when the pattern is a syntax error. *)
Definition Engine : Type := string -> option (string -> string).

(** The patterns written out here: characters, the dot, the two anchors,
    groups, alternatives and the quantifiers [*], [+] and [?], greedy or
    lazy.  A pattern with a backslash, a character class, a brace
    quantifier or a group that starts with a question mark is outside. *)
Fixpoint inFragment (p : string) : bool :=
  match p with
  | EmptyString => true
  | String c p' =>
      negb (existsb (Ascii.eqb c) ["\"; "["; "{"]%char)
      && negb (Ascii.eqb c "(" && match p' with String "?" _ => true | _ => false end)
      && inFragment p'
  end.

Inductive regex :=
| Empty
| Char (c : ascii)
| Any
| Bol
| Eol
| Seq (r1 r2 : regex)
| Alt (r1 r2 : regex)
| Star (greedy : bool) (r : regex)
| Plus (greedy : bool) (r : regex)
| Opt (greedy : bool) (r : regex).

Inductive Token :=
| TOpen | TClose | TBar | TStar | TPlus | TQuest | TCaret | TDollar | TDot
| TChar (c : ascii).

Definition classify (c : ascii) : Token :=
  if Ascii.eqb c "(" then TOpen
  else if Ascii.eqb c ")" then TClose
  else if Ascii.eqb c "|" then TBar
  else if Ascii.eqb c "*" then TStar
  else if Ascii.eqb c "+" then TPlus
  else if Ascii.eqb c "?" then TQuest
  else if Ascii.eqb c "^" then TCaret
  else if Ascii.eqb c "$" then TDollar
  else if Ascii.eqb c "." then TDot
  else TChar c.

(** What a quantifier character would find before it: nothing it can
    repeat, an atom, or a quantified atom (which a question mark makes
    lazy). *)
Inductive Last := NoAtom | Atom | Quantified.

(** A disjunction being read: its finished alternatives and the terms of
    the current one, the last read first. *)
Record Frame := mkFrame {
  alts : list regex;
  terms : list regex;
  last : Last
}.

Definition alternative (ts : list regex) : regex :=
  fold_left (fun acc t => Seq t acc) ts Empty.

Definition disjunction (f : Frame) : regex :=
  fold_left (fun acc a => Alt a acc) (alts f) (alternative (terms f)).

Definition push (f : Frame) (t : regex) (l : Last) : Frame :=
  mkFrame (alts f) (t :: terms f) l.

Definition quantify (f : Frame) (q : bool -> regex -> regex) : option Frame :=
  match last f, terms f with
  | Atom, t :: ts => Some (mkFrame (alts f) (q true t :: ts) Quantified)
  | _, _ => None
  end.

Definition lazy (t : regex) : regex :=
  match t with
  | Star _ r => Star false r
  | Plus _ r => Plus false r
  | Opt _ r => Opt false r
  | _ => t
  end.

(** One character of the pattern; [stack] holds the enclosing groups. *)
Definition step (f : Frame) (stack : list Frame) (c : ascii)
  : option (Frame * list Frame) :=
  match classify c with
  | TOpen => Some (mkFrame [] [] NoAtom, f :: stack)
  | TClose =>
      match stack with
      | [] => None                                   (* unmatched parenthesis *)
      | g :: stack' => Some (push g (disjunction f) Atom, stack')
      end
  | TBar => Some (mkFrame (alternative (terms f) :: alts f) [] NoAtom, stack)
  | TStar => option_map (fun f' => (f', stack)) (quantify f Star)
  | TPlus => option_map (fun f' => (f', stack)) (quantify f Plus)
  | TQuest =>
      match last f, terms f with
      | Quantified, t :: ts => Some (mkFrame (alts f) (lazy t :: ts) NoAtom, stack)
      | _, _ => option_map (fun f' => (f', stack)) (quantify f Opt)
      end
  | TCaret => Some (push f Bol NoAtom, stack)
  | TDollar => Some (push f Eol NoAtom, stack)
  | TDot => Some (push f Any Atom, stack)
  | TChar c' => Some (push f (Char c') Atom, stack)
  end.

Fixpoint parseFrom (f : Frame) (stack : list Frame) (p : string) : option regex :=
  match p with
  | EmptyString =>
      match stack with
      | [] => Some (disjunction f)
      | _ :: _ => None                               (* unterminated group *)
      end
  | String c p' =>
      match step f stack c with
      | Some (f', stack') => parseFrom f' stack' p'
      | None => None
      end
  end.

Definition parse (p : string) : option regex := parseFrom (mkFrame [] [] NoAtom) [] p.

(** The matcher: a position in the input (the index of the next character
    and the input from there on) and a continuation, as in the language
    definition. *)
Definition State : Type := nat * string.
Definition Cont : Type := State -> option State.

(** A quantifier without upper bound over the matcher [mr].  An iteration
    that has taken no character is refused, so an iteration moves on in the
    input and the characters left bound the iterations: [fuel], which the
    matcher sets to their number, does not run out. *)
Fixpoint repeat (mr : State -> Cont -> option State) (greedy : bool) (fuel : nat)
    (x : State) (k : Cont) : option State :=
  let d := fun y : State =>
             if (fst y =? fst x)%nat then None
             else match fuel with
                  | S fuel' => repeat mr greedy fuel' y k
                  | O => None
                  end in
  if greedy then
    match mr x d with
    | Some z => Some z
    | None => k x
    end
  else
    match k x with
    | Some z => Some z
    | None => mr x d
    end.

Fixpoint matcher (r : regex) (x : State) (k : Cont) {struct r} : option State :=
  match r with
  | Empty => k x
  | Char c =>
      match snd x with
      | String c' rest => if Ascii.eqb c' c then k (S (fst x), rest) else None
      | EmptyString => None
      end
  | Any =>
      match snd x with
      | String c' rest => if JS.isLineTerminator c' then None else k (S (fst x), rest)
      | EmptyString => None
      end
  | Bol => if (fst x =? 0)%nat then k x else None
  | Eol =>
      match snd x with
      | EmptyString => k x
      | String _ _ => None
      end
  | Seq r1 r2 => matcher r1 x (fun y => matcher r2 y k)
  | Alt r1 r2 =>
      match matcher r1 x k with
      | Some z => Some z
      | None => matcher r2 x k
      end
  | Star greedy r1 => repeat (matcher r1) greedy (String.length (snd x)) x k
  | Plus greedy r1 =>
      matcher r1 x (fun y => repeat (matcher r1) greedy (String.length (snd y)) y k)
  | Opt greedy r1 =>
      let d := fun y : State => if (fst y =? fst x)%nat then None else k y in
      if greedy then
        match matcher r1 x d with
        | Some z => Some z
        | None => k x
        end
      else
        match k x with
        | Some z => Some z
        | None => matcher r1 x d
        end
  end.

(** The end of the match that starts at [x], if there is one. *)
Definition matchAt (r : regex) (x : State) : option nat :=
  option_map fst (matcher r x (fun y => Some y)).

(** [s.replace(re, '')] with the flag [g]: from left to right, a match is
    looked for at each index; a match that is not empty is dropped and the
    search goes on where it ended, and otherwise the character stays.
    [skip] counts the characters of a match still to drop. *)
Fixpoint strip (r : regex) (skip pos : nat) (s : string) : string :=
  match s with
  | EmptyString => EmptyString
  | String c s' =>
      match skip with
      | S k => strip r k (S pos) s'
      | O =>
          match matchAt r (pos, s) with
          | Some e =>
              match (e - pos)%nat with
              | O => String c (strip r O (S pos) s')
              | S k => strip r k (S pos) s'
              end
          | None => String c (strip r O (S pos) s')
          end
      end
  end.

(** [new RegExp(p, 'g')], as the function its [replace] computes. *)
Definition create (beyond : Engine) (p : string) : option (string -> string) :=
  if inFragment p then
    match parse p with
    | Some r => Some (strip r 0 0)
    | None => None
    end
  else beyond p.

End RegExp.

(* ------------------------------------------------------------------ *)
(** ** Node's [path] module on POSIX *)

Module Path.

(** [path.isAbsolute(p)] *)
Definition isAbsolute (p : string) : bool :=
  match p with
  | String "/" _ => true
  | _ => false
  end.

(** The segments of [p] between slashes. *)
Fixpoint segments (p : string) : list string :=
  match p with
  | EmptyString => [EmptyString]
  | String c p' =>
      if Ascii.eqb c "/" then EmptyString :: segments p'
      else match segments p' with
           | [] => [String c EmptyString]
           | s :: l => String c s :: l
           end
  end.

(** One segment of [normalizeString]; [acc] holds the kept segments, the
    last one first. *)
Definition normalizeSegment (allowAboveRoot : bool) (acc : list string) (seg : string)
  : list string :=
  if String.eqb seg "" || String.eqb seg "." then acc
  else if String.eqb seg ".." then
    match acc with
    | [] => if allowAboveRoot then [".."] else []
    | top :: rest =>
        if String.eqb top ".." then (if allowAboveRoot then ".." :: acc else acc)
        else rest
    end
  else seg :: acc.

Definition joinSegments (l : list string) : string := String.concat "/" l.

(** [normalizeString(path, allowAboveRoot, '/', isPosixPathSeparator)] *)
Definition normalizeString (p : string) (allowAboveRoot : bool) : string :=
  joinSegments (rev (fold_left (normalizeSegment allowAboveRoot) (segments p) [])).

(** [path.resolve(a, b)] with [cwd] the value of [process.cwd()]: from the
    right, prefix the non-empty arguments until one is absolute. *)
Definition resolveStep (acc : string * bool) (p : string) : string * bool :=
  let '(resolvedPath, resolvedAbsolute) := acc in
  if resolvedAbsolute then acc
  else if String.eqb p "" then acc
  else (p ++ "/" ++ resolvedPath, isAbsolute p).

Definition resolve (cwd a b : string) : string :=
  let '(resolvedPath, resolvedAbsolute) := fold_left resolveStep [b; a; cwd] ("", false) in
  let n := normalizeString resolvedPath (negb resolvedAbsolute) in
  if resolvedAbsolute then "/" ++ n
  else if String.eqb n "" then "." else n.

Fixpoint dropWhile (f : ascii -> bool) (l : list ascii) : list ascii :=
  match l with
  | [] => []
  | c :: l' => if f c then dropWhile f l' else l
  end.

Definition isSlash (c : ascii) : bool := Ascii.eqb c "/".

(** [path.dirname(p)]: scanning back from the end down to index 1, the
    slash before the last segment is where the result ends. *)
Definition dirname (p : string) : string :=
  match p with
  | EmptyString => "."
  | String c0 rest =>
      let hasRoot := isSlash c0 in
      let back := rev (list_ascii_of_string rest) in
      let before := dropWhile (fun c => negb (isSlash c)) (dropWhile isSlash back) in
      match before with
      | [] => if hasRoot then "/" else "."
      | _ :: _ =>
          let e := List.length before in
          if hasRoot && (e =? 1)%nat then "//"
          else String.substring 0 e p
      end
  end.

(** [path.normalize(p)] *)
Definition normalize (p : string) : string :=
  match p with
  | EmptyString => "."
  | _ =>
      let isAbs := isAbsolute p in
      let trailingSeparator := JS.endsWith p "/" in
      let n := normalizeString p (negb isAbs) in
      match n with
      | EmptyString =>
          if isAbs then "/" else if trailingSeparator then "./" else "."
      | _ =>
          let n := if trailingSeparator then n ++ "/" else n in
          if isAbs then "/" ++ n else n
      end
  end.

(** [path.join(a, b)] *)
Definition join (a b : string) : string :=
  match filter (fun s => negb (String.eqb s "")) [a; b] with
  | [] => "."
  | l => normalize (joinSegments l)
  end.

End Path.

(* ------------------------------------------------------------------ *)
(** ** The host: what [os], [process], [Date] and the engine answer *)

Record Host := mkHost {
  win32 : bool;                          (* os.platform() === 'win32' *)
  homedir : string;                      (* os.homedir() *)
  process_cwd : string;                  (* process.cwd() *)
  process_env : list (string * string);  (* process.env *)
  toISOString : Z -> string;             (* new Date(t).toISOString() *)
  regexp : RegExp.Engine                 (* new RegExp(p, 'g') outside [RegExp.inFragment] *)
}.

(* ------------------------------------------------------------------ *)
(** ** Directory tracker: [updateWorkingDirectory] *)

Module Tracker.

Fixpoint dropSpaces (s : string) : string :=
  match s with
  | EmptyString => EmptyString
  | String c s' => if JS.isWhiteSpace c then dropSpaces s' else s
  end.

Fixpoint anyChar (f : ascii -> bool) (s : string) : bool :=
  match s with
  | EmptyString => false
  | String c s' => f c || anyChar f s'
  end.

(** [command.match(re)] for the source's pattern [re]: start of input, any
    white space, the letters cd, white space at least once, then a group of
    any characters up to the end of the input.  The result is the captured
    group, if the command matches.  Both runs of white space are greedy and
    what follows them cannot start with white space, so they take the whole
    run; the any-character class stops at a line terminator, and the end
    anchor is the end of the input (no multi-line flag). *)
Definition cdMatch (command : string) : option string :=
  match dropSpaces command with
  | String "c" (String "d" rest) =>
      let arg := dropSpaces rest in
      if (String.length arg <? String.length rest)%nat
         && negb (anyChar JS.isLineTerminator arg)
      then Some arg else None
  | _ => None
  end.

Definition isQuoted (targetDir : string) : bool :=
  (JS.startsWith targetDir JS.dquote && JS.endsWith targetDir JS.dquote)
  || (JS.startsWith targetDir JS.squote && JS.endsWith targetDir JS.squote).

(** The new value of the tracked directory. *)
Definition updateWorkingDirectory (h : Host) (workingDirectory command : string) : string :=
  match cdMatch command with
  | Some g =>
      let targetDir := JS.trim g in
      let targetDir := if isQuoted targetDir then JS.slice_1_m1 targetDir else targetDir in
      if negb (Path.isAbsolute targetDir) then
        if String.eqb targetDir ".." then Path.dirname workingDirectory
        else if String.eqb targetDir "~" then homedir h
        else if JS.startsWith targetDir "~/" then Path.join (homedir h) (JS.slice_2 targetDir)
        else Path.resolve (process_cwd h) workingDirectory targetDir
      else targetDir
  | None => workingDirectory
  end.

End Tracker.

(* ------------------------------------------------------------------ *)
(** ** Command outcomes and process events *)

(** The [exitCode] of an outcome: a number, or, as [child_process.exec]
    reports it, [null] (the child was ended by a signal) or the name of a
    system error. *)
Inductive ExitCode :=
| Code (n : Z)
| CodeNull
| CodeName (name : string).
Coercion Code : Z >-> ExitCode.

(** [`${exitCode}`] *)
Definition showCode (c : ExitCode) : string :=
  match c with
  | Code n => JS.showZ n
  | CodeNull => "null"
  | CodeName name => name
  end.

(** The object a command's promise is resolved with. *)
Record Outcome := mkOutcome {
  success : bool;
  stdout : string;
  stderr : string;
  exitCode : ExitCode;
  error : option string
}.

(** What the event loop delivers to a command in flight: a chunk on the
    shell's standard output, a chunk on its standard error, the expiry of
    the [setTimeout] deadline.  A chunk is given as the string its
    [toString()] yields. *)
Inductive Event :=
| StdoutData (data : string)
| StderrData (data : string)
| TimerFired.

(** What reaches a terminal session while a command is awaited: an event of
    the call in flight, or the ['error'] or the ['exit'] event of the child
    process. *)
Inductive SessionEvent :=
| ToCall (e : Event)
| ProcessError
| ProcessExit.

(** An exception thrown inside a stream listener.  Neither a [try] nor a
    promise is around a listener: the exception is uncaught, and the server
    process ends with it. *)
Inductive ListenerError :=
| RegExpSyntaxError (pattern : string).

(* ------------------------------------------------------------------ *)
(** ** Completion protocol of [TerminalSession.executeCommand] and
       [executeCommandInShell]

    Both functions run the same promise executor; only the shell handle
    ([this.process] or [shellProcess]) and the text of the markers differ. *)

Module Completion.

(** The variables the executor's closures share, the pending timer, the
    listeners attached to the shell's streams, the calls of [resolve] made
    so far (oldest first), and the exception that has left [onData], if one
    has. *)
Record Call := mkCall {
  marker : string;
  errorMarker : string;
  c_stdout : string;
  c_stderr : string;
  completed : bool;
  timeoutId : bool;        (* the timer is pending *)
  onDataOn : bool;         (* [onData] listens on stdout *)
  onErrorDataOn : bool;    (* [onErrorData] listens on stderr *)
  resolved : list Outcome;
  thrown : option ListenerError
}.

(** The state the executor leaves when it returns. *)
Definition start (marker errorMarker : string) : Call :=
  mkCall marker errorMarker "" "" false true true true [] None.

Definition timedOut : string := "Command timed out".

(** The [setTimeout] callback. *)
Definition onTimeout (c : Call) : Call :=
  if negb (completed c) then
    mkCall (marker c) (errorMarker c) (c_stdout c) (c_stderr c)
      true (timeoutId c) (onDataOn c) (onErrorDataOn c)
      (resolved c ++
         [mkOutcome false (c_stdout c) (c_stderr c ++ JS.nl ++ timedOut) (-1)
            (Some timedOut)])
      (thrown c)
  else c.

(** [onData]: the chunk is appended, and the marker is looked for in the
    chunk [output].  When it is there and the call is open, the guard is
    set, the timer cleared and the listeners detached; then the two regular
    expressions are built from the markers, one after the other, each
    buffer is cleaned and assigned, and [resolve] is called.  A pattern
    that is a syntax error makes [new RegExp] throw at that point: what
    comes after it is not run. *)
Definition onData (h : Host) (c : Call) (data : string) : Call :=
  let output := data in
  let stdout1 := c_stdout c ++ output in
  let c1 := mkCall (marker c) (errorMarker c) stdout1 (c_stderr c)
              (completed c) (timeoutId c) (onDataOn c) (onErrorDataOn c) (resolved c)
              (thrown c) in
  if JS.includes output (marker c) then
    if negb (completed c) then
      match RegExp.create (regexp h) (marker c) with
      | None =>
          mkCall (marker c) (errorMarker c) stdout1 (c_stderr c)
            true false false false (resolved c)
            (Some (RegExpSyntaxError (marker c)))
      | Some re =>
          let stdout2 := JS.trim (re stdout1) in
          match RegExp.create (regexp h) (errorMarker c) with
          | None =>
              mkCall (marker c) (errorMarker c) stdout2 (c_stderr c)
                true false false false (resolved c)
                (Some (RegExpSyntaxError (errorMarker c)))
          | Some reErr =>
              let stderr2 := JS.trim (reErr (c_stderr c)) in
              mkCall (marker c) (errorMarker c) stdout2 stderr2
                true false false false
                (resolved c ++ [mkOutcome true stdout2 stderr2 0 None])
                (thrown c)
          end
      end
    else c1
  else c1.

(** [onErrorData] *)
Definition onErrorData (c : Call) (data : string) : Call :=
  mkCall (marker c) (errorMarker c) (c_stdout c) (c_stderr c ++ data)
    (completed c) (timeoutId c) (onDataOn c) (onErrorDataOn c) (resolved c)
    (thrown c).

(** The event loop: an event reaches a callback only while the callback is
    registered; the timer fires once. *)
Definition deliver (h : Host) (c : Call) (e : Event) : Call :=
  match e with
  | StdoutData d => if onDataOn c then onData h c d else c
  | StderrData d => if onErrorDataOn c then onErrorData c d else c
  | TimerFired =>
      if timeoutId c then
        onTimeout (mkCall (marker c) (errorMarker c) (c_stdout c) (c_stderr c)
                     (completed c) false (onDataOn c) (onErrorDataOn c)
                     (resolved c) (thrown c))
      else c
  end.

Definition run (h : Host) (c : Call) (tr : list Event) : Call :=
  fold_left (deliver h) tr c.

(** The text that arrived on each stream during a trace. *)
Fixpoint stdoutOf (tr : list Event) : string :=
  match tr with
  | [] => ""
  | StdoutData d :: tr' => d ++ stdoutOf tr'
  | _ :: tr' => stdoutOf tr'
  end.

Fixpoint stderrOf (tr : list Event) : string :=
  match tr with
  | [] => ""
  | StderrData d :: tr' => d ++ stderrOf tr'
  | _ :: tr' => stderrOf tr'
  end.

(** No chunk of the trace holds the marker. *)
Fixpoint noChunkHas (m : string) (tr : list Event) : bool :=
  match tr with
  | [] => true
  | StdoutData d :: tr' => negb (JS.includes d m) && noChunkHas m tr'
  | _ :: tr' => noChunkHas m tr'
  end.

Fixpoint noTimer (tr : list Event) : bool :=
  match tr with
  | [] => true
  | TimerFired :: _ => false
  | _ :: tr' => noTimer tr'
  end.

(** Both markers of the call are regular expressions. *)
Definition compiles (h : Host) (c : Call) : bool :=
  match RegExp.create (regexp h) (marker c), RegExp.create (regexp h) (errorMarker c) with
  | Some _, Some _ => true
  | _, _ => false
  end.

(** The invariant of a call: [resolve] has been called once when the guard
    [completed] is set and nothing was thrown, and not at all otherwise; the
    timer stays pending as long as the call is open, and an open call has
    thrown nothing. *)
Definition settled (c : Call) : Prop :=
  List.length (resolved c) =
    (if completed c then match thrown c with None => 1 | Some _ => 0 end else 0)%nat
  /\ (completed c = false -> timeoutId c = true /\ thrown c = None).

(** An open call still listens on standard output. *)
Definition attentive (c : Call) : Prop :=
  completed c = false -> onDataOn c = true.

(** What [onData] resolves with when the chunk [d] holds the marker, [re]
    and [reErr] being the two replacements, and what the timer resolves
    with. *)
Definition successOutcome (re reErr : string -> string) (c : Call) (d : string)
  : Outcome :=
  mkOutcome true (JS.trim (re (c_stdout c ++ d))) (JS.trim (reErr (c_stderr c))) 0 None.

Definition timeoutOutcome (c : Call) : Outcome :=
  mkOutcome false (c_stdout c) (c_stderr c ++ JS.nl ++ timedOut) (-1) (Some timedOut).

End Completion.

(* ------------------------------------------------------------------ *)
(** ** Completion protocol of [terminal_mcp.js]: [executeCommand]

    The first server keeps the chunks in arrays and polls them every 10 ms. *)

Module Legacy.

Inductive Event :=
| StdoutData (data : string)
| StderrData (data : string)
| TimeoutFired          (* the deadline [timeoutId] *)
| IntervalTick          (* one run of [checkOutput] *)
| StopCheckFired.       (* the timer that clears [checkOutput] *)

Record Call := mkCall {
  marker : string;
  chunks : list string;
  errorChunks : list string;
  completed : bool;
  timeoutId : bool;        (* the deadline is pending *)
  checkOutput : bool;      (* the interval is running *)
  stopCheck : bool;        (* the second timer is pending *)
  listening : bool;        (* [onData] and [onErrorData] are attached *)
  resolved : list Outcome
}.

Definition start (marker : string) : Call :=
  mkCall marker [] [] false true true true true [].

(** [Buffer.concat(chunks).toString()] *)
Definition concat (chunks : list string) : string := String.concat "" chunks.

(** [cleanup()] and the assignment [completed = true] before it. *)
Definition complete (c : Call) (o : Outcome) : Call :=
  mkCall (marker c) (chunks c) (errorChunks c) true false (checkOutput c)
    (stopCheck c) false (resolved c ++ [o]).

Definition onTimeout (c : Call) : Call :=
  if negb (completed c) then
    complete c
      (mkOutcome false (concat (chunks c))
         (concat (errorChunks c) ++ JS.nl ++ "Command timed out") (-1) None)
  else c.

(** One run of the [checkOutput] interval callback. *)
Definition onTick (c : Call) : Call :=
  let output := concat (chunks c) in
  if JS.includes output (marker c) then
    let c1 := mkCall (marker c) (chunks c) (errorChunks c) (completed c)
                (timeoutId c) false (stopCheck c) (listening c) (resolved c) in
    if negb (completed c1) then
      complete c1
        (mkOutcome true (JS.trim (JS.replaceFirst output (marker c)))
           (concat (errorChunks c)) 0 None)
    else c1
  else c.

Definition deliver (c : Call) (e : Event) : Call :=
  match e with
  | StdoutData d =>
      if listening c then
        mkCall (marker c) (chunks c ++ [d]) (errorChunks c) (completed c)
          (timeoutId c) (checkOutput c) (stopCheck c) (listening c) (resolved c)
      else c
  | StderrData d =>
      if listening c then
        mkCall (marker c) (chunks c) (errorChunks c ++ [d]) (completed c)
          (timeoutId c) (checkOutput c) (stopCheck c) (listening c) (resolved c)
      else c
  | TimeoutFired =>
      if timeoutId c then
        onTimeout (mkCall (marker c) (chunks c) (errorChunks c) (completed c)
                     false (checkOutput c) (stopCheck c) (listening c) (resolved c))
      else c
  | IntervalTick => if checkOutput c then onTick c else c
  | StopCheckFired =>
      if stopCheck c then
        mkCall (marker c) (chunks c) (errorChunks c) (completed c)
          (timeoutId c) false false (listening c) (resolved c)
      else c
  end.

Definition run (c : Call) (tr : list Event) : Call := fold_left deliver tr c.

(** [`__COMMAND_COMPLETE_${Date.now()}__`] *)
Definition markerAt (now : Z) : string :=
  "__COMMAND_COMPLETE_" ++ JS.showZ now ++ "__".

(** The invariant of a call, as in the newer servers. *)
Definition settled (c : Call) : Prop :=
  List.length (resolved c) = (if completed c then 1 else 0)%nat
  /\ (completed c = false -> timeoutId c = true).

(** What a poll that finds the marker resolves with, and what the deadline
    resolves with. *)
Definition successOutcome (c : Call) : Outcome :=
  mkOutcome true (JS.trim (JS.replaceFirst (concat (chunks c)) (marker c)))
    (concat (errorChunks c)) 0 None.

Definition timeoutOutcome (c : Call) : Outcome :=
  mkOutcome false (concat (chunks c))
    (concat (errorChunks c) ++ JS.nl ++ "Command timed out") (-1) None.

End Legacy.

(* ------------------------------------------------------------------ *)
(** ** Shell processes, errors, results *)

(** A child process as the servers use it: its pid, the [killed] flag that
    [kill()] sets, and the lines written to its standard input. *)
Record Proc := mkProc {
  pid : N;
  killed : bool;
  stdinLog : list string
}.

(** [spawn(shell, shellArgs, ...)], where the system starts the child and
    gives it the pid [newPid]. *)
Definition spawn (newPid : N) : Proc := mkProc newPid false [].

Definition stdinWrite (p : Proc) (line : string) : Proc :=
  mkProc (pid p) (killed p) (stdinLog p ++ [line]).

(** Thrown values: [new Error(msg)] and the engine's [TypeError]. *)
Inductive JsError :=
| Error (msg : string)
| TypeError (msg : string).

Definition message (e : JsError) : string :=
  match e with
  | Error m => m
  | TypeError m => m
  end.

(** What evaluating an [async] body gives: a value, a thrown error, a
    promise that is still pending when the events run out, or no value at
    all because an exception left a listener while the body was waiting. *)
Inductive Result (A : Type) :=
| Normal (a : A)
| Throw (e : JsError)
| Pending
| Uncaught (e : ListenerError).
Arguments Normal {A} a.
Arguments Throw {A} e.
Arguments Pending {A}.
Arguments Uncaught {A} e.

(** [await] of a call's promise over the events that reach the call. *)
Definition awaitCall (h : Host) (c : Completion.Call) (tr : list Event) : Result Outcome :=
  let c' := Completion.run h c tr in
  match Completion.thrown c' with
  | Some e => Uncaught e
  | None =>
      match Completion.resolved c' with
      | o :: _ => Normal o
      | [] => Pending
      end
  end.

(** The response object of a tool call (its one text item). *)
Record Response := mkResponse {
  text : string;
  isError : bool
}.

(** The [catch] clause at the end of the handlers. *)
Definition errorResponse (e : JsError) : Response :=
  mkResponse ("Error: " ++ message e) true.

(** [`${x}`] for a string that may be [undefined]. *)
Definition showOpt (x : option string) : string :=
  match x with
  | Some s => s
  | None => "undefined"
  end.

Definition readUndefined (prop : string) : JsError :=
  TypeError ("Cannot read properties of undefined (reading '" ++ prop ++ "')").

(** The parts of a response that follow the header lines. *)
Definition outcomeBlocks (result : Outcome) : string :=
  (if String.eqb (stdout result) "" then "" else "STDOUT:" ++ JS.nl ++ stdout result ++ JS.nl)
  ++ (if String.eqb (stderr result) "" then "" else "STDERR:" ++ JS.nl ++ stderr result ++ JS.nl)
  ++ (match error result with
      | Some (String c e) => "ERROR: " ++ String c e ++ JS.nl
      | _ => ""
      end).

(** Maps with string keys in insertion order ([Map], object spread). *)
Module AList.
Section Ops.
Variable V : Type.

Fixpoint get (k : string) (l : list (string * V)) : option V :=
  match l with
  | [] => None
  | (k', v) :: l' => if String.eqb k k' then Some v else get k l'
  end.

Definition has (k : string) (l : list (string * V)) : bool :=
  match get k l with
  | Some _ => true
  | None => false
  end.

(** [set]: an existing key keeps its place. *)
Fixpoint set (k : string) (v : V) (l : list (string * V)) : list (string * V) :=
  match l with
  | [] => [(k, v)]
  | (k', v') :: l' =>
      if String.eqb k k' then (k, v) :: l' else (k', v') :: set k v l'
  end.

Fixpoint delete (k : string) (l : list (string * V)) : list (string * V) :=
  match l with
  | [] => []
  | (k', v') :: l' =>
      if String.eqb k k' then l' else (k', v') :: delete k l'
  end.

Definition keys (l : list (string * V)) : list string := map fst l.
End Ops.
End AList.

(* ------------------------------------------------------------------ *)
(** ** [terminal_mcp_new.js]: class [TerminalSession] *)

(** The [options] of [createSession] and of the constructor. *)
Record Options := mkOptions {
  o_id : option string;
  o_cwd : option string;
  o_shell : option string;
  o_shellArgs : option (list string);
  o_env : list (string * string)
}.

Definition noOptions : Options := mkOptions None None None None [].

Record TerminalSession := mkSession {
  id : string;
  process : option Proc;
  workingDirectory : string;
  environment : list (string * string);
  isActive : bool;
  lastActivity : Z;
  shell : string;
  shellArgs : list string
}.

Module Session.

(** [{ ...base, ...extra }] *)
Definition spread (base extra : list (string * string)) : list (string * string) :=
  fold_left (fun acc kv => AList.set (fst kv) (snd kv) acc) extra base.

(** [new TerminalSession(id, options)] at time [now]. *)
Definition create (h : Host) (now : Z) (id : string) (o : Options) : TerminalSession :=
  mkSession id None
    (JS.orElse (o_cwd o) (process_cwd h))
    (spread (process_env h) (o_env o))
    false now
    (JS.orElse (o_shell o) (if win32 h then "cmd.exe" else "/bin/bash"))
    (match o_shellArgs o with
     | Some a => a
     | None => if win32 h then ["/Q"] else ["-i"]
     end).

(** [kill()] *)
Definition kill (s : TerminalSession) : TerminalSession :=
  mkSession (id s) None (workingDirectory s) (environment s) false
    (lastActivity s) (shell s) (shellArgs s).

Definition withProcess (s : TerminalSession) (p : Proc) : TerminalSession :=
  mkSession (id s) (Some p) (workingDirectory s) (environment s) (isActive s)
    (lastActivity s) (shell s) (shellArgs s).

(** [initialize()]: the new child has pid [newPid]. *)
Definition initialize (h : Host) (now : Z) (newPid : N) (s : TerminalSession)
  : TerminalSession :=
  let s := match process s with Some _ => kill s | None => s end in
  let p := spawn newPid in
  let p := if win32 h then p
           else stdinWrite
                  (stdinWrite p ("export PS1=" ++ JS.dquote ++ JS.dquote ++ JS.nl))
                  ("set +H" ++ JS.nl) in
  mkSession (id s) (Some p) (workingDirectory s) (environment s) true now
    (shell s) (shellArgs s).

(** The ['exit'] and ['error'] listeners of the child. *)
Definition processExited (s : TerminalSession) : TerminalSession :=
  mkSession (id s) (process s) (workingDirectory s) (environment s) false
    (lastActivity s) (shell s) (shellArgs s).

(** [`__COMMAND_COMPLETE_${this.id}_${Date.now()}__`] and its error twin. *)
Definition markerAt (id : string) (now : Z) : string :=
  "__COMMAND_COMPLETE_" ++ id ++ "_" ++ JS.showZ now ++ "__".
Definition errorMarkerAt (id : string) (now : Z) : string :=
  "__COMMAND_ERROR_" ++ id ++ "_" ++ JS.showZ now ++ "__".

(** The line written to the shell. *)
Definition commandLine (h : Host) (command marker errorMarker : string) : string :=
  if win32 h then command ++ " && echo " ++ marker ++ " || echo " ++ errorMarker ++ JS.nl
  else command ++ "; echo " ++ JS.dquote ++ marker ++ JS.dquote ++ JS.nl.

Definition needsInit (s : TerminalSession) : bool :=
  negb (isActive s)
  || match process s with
     | None => true
     | Some p => killed p
     end.

(** [updateWorkingDirectory(command)] on the session. *)
Definition updateWorkingDirectory (h : Host) (s : TerminalSession) (command : string)
  : TerminalSession :=
  mkSession (id s) (process s)
    (Tracker.updateWorkingDirectory h (workingDirectory s) command)
    (environment s) (isActive s) (lastActivity s) (shell s) (shellArgs s).

(** [executeCommand(command, timeout)] up to the return of the promise:
    the session after the synchronous part, and the in-flight call.  All
    readings of [Date.now()] in one call are [now].  A [command] that is
    [undefined] is written as such and then makes [command.match] throw,
    which rejects the promise. *)
Definition executeCommand (h : Host) (now : Z) (newPid : N)
    (s : TerminalSession) (command : option string)
  : TerminalSession * Result Completion.Call :=
  let s := if needsInit s then initialize h now newPid s else s in
  let s := mkSession (id s) (process s) (workingDirectory s) (environment s)
             (isActive s) now (shell s) (shellArgs s) in
  let marker := markerAt (id s) now in
  let errorMarker := errorMarkerAt (id s) now in
  let line := commandLine h (showOpt command) marker errorMarker in
  let s := match process s with
           | Some p => withProcess s (stdinWrite p line)
           | None => s
           end in
  match command with
  | Some c => (updateWorkingDirectory h s c, Normal (Completion.start marker errorMarker))
  | None => (s, Throw (readUndefined "match"))
  end.

(** The session and the call in flight.  The callbacks of the call assign
    the closure's variables only; [onData] reads [this.process] to detach the
    listeners, and the handle is taken to stay in place while the call is in
    flight. *)
Definition Running : Type := TerminalSession * Completion.Call.

Definition deliver (h : Host) (r : Running) (e : Event) : Running :=
  (fst r, Completion.deliver h (snd r) e).

Definition run (h : Host) (r : Running) (tr : list Event) : Running :=
  fold_left (deliver h) tr r.

(** One event while a command is awaited: the call's callbacks, or the
    child's ['error'] and ['exit'] listeners. *)
Definition receive (h : Host) (r : Running) (e : SessionEvent) : Running :=
  match e with
  | ToCall e' => deliver h r e'
  | ProcessError => (processExited (fst r), snd r)
  | ProcessExit => (processExited (fst r), snd r)
  end.

(** [await] of the promise: the events are delivered one by one until the
    call is resolved, and the code after [await] runs before the next
    event.  It never runs when an exception has left a listener. *)
Fixpoint await (h : Host) (r : Running) (tr : list SessionEvent)
  : Running * Result Outcome :=
  match Completion.thrown (snd r), Completion.resolved (snd r) with
  | Some e, _ => (r, Uncaught e)
  | None, o :: _ => (r, Normal o)
  | None, [] =>
      match tr with
      | [] => (r, Pending)
      | e :: tr' => await h (receive h r e) tr'
      end
  end.

(** [getStatus()] *)
Record Status := mkStatus {
  st_id : string;
  st_isActive : bool;
  st_workingDirectory : string;
  st_shell : string;
  st_lastActivity : Z;
  st_pid : option N
}.

Definition getStatus (s : TerminalSession) : Status :=
  mkStatus (id s) (isActive s) (workingDirectory s) (shell s) (lastActivity s)
    (option_map pid (process s)).

End Session.

(* ------------------------------------------------------------------ *)
(** ** State and exceptions: the monad of the request handlers *)

Definition M (S A : Type) : Type := S -> S * Result A.

Definition ret {S A : Type} (a : A) : M S A := fun s => (s, Normal a).

Definition throw {S A : Type} (e : JsError) : M S A := fun s => (s, Throw e).

Definition bind {S A B : Type} (m : M S A) (k : A -> M S B) : M S B :=
  fun s =>
    match m s with
    | (s', Normal a) => k a s'
    | (s', Throw e) => (s', Throw e)
    | (s', Pending) => (s', Pending)
    | (s', Uncaught e) => (s', Uncaught e)
    end.

(** [await p]: the promise's value when it is settled. *)
Definition awaiting {S A : Type} (r : Result A) : M S A := fun s => (s, r).

Definition gets {S A : Type} (f : S -> A) : M S A := fun s => (s, Normal (f s)).

Definition modify {S : Type} (f : S -> S) : M S unit := fun s => (f s, Normal tt).

(** [try { body } catch (error) { return handler(error) }] *)
Definition tryCatch {S A : Type} (body : M S A) (handler : JsError -> A) : M S A :=
  fun s =>
    match body s with
    | (s', Throw e) => (s', Normal (handler e))
    | r => r
    end.

Declare Scope js_scope.
Delimit Scope js_scope with js.
Notation "x <- m ;; k" := (bind m (fun x => k))
  (at level 61, m at next level, right associativity) : js_scope.
Notation "m ;;; k" := (bind m (fun _ => k))
  (at level 61, right associativity) : js_scope.

(** Reading a property of [args], which may be [undefined]. *)
Definition property {S Args A : Type} (args : option Args) (name : string)
    (get : Args -> A) : M S A :=
  match args with
  | Some a => ret (get a)
  | None => throw (readUndefined name)
  end.

(* ------------------------------------------------------------------ *)
(** ** [terminal_mcp_new.js]: class [TerminalManager] *)

Record TerminalManager := mkManager {
  sessions : list (string * TerminalSession);
  nextId : N
}.

Module Manager.

(** [new TerminalManager()] *)
Definition empty : TerminalManager := mkManager [] 1.

Definition alreadyExists (id : string) : JsError :=
  Error ("Terminal session '" ++ id ++ "' already exists").

Definition notFound (id : option string) : JsError :=
  Error ("Terminal session '" ++ showOpt id ++ "' not found").

(** [createSession(options)] at time [now]. *)
Definition createSession (h : Host) (now : Z) (o : Options)
  : M TerminalManager TerminalSession :=
  fun m =>
    let '(id, next) :=
      match o_id o with
      | Some (String c s) => (String c s, nextId m)
      | _ => ("terminal_" ++ JS.showN (nextId m), (nextId m + 1)%N)
      end in
    if AList.has id (sessions m) then
      (mkManager (sessions m) next, Throw (alreadyExists id))
    else
      let session := Session.create h now id o in
      (mkManager (sessions m ++ [(id, session)]) next, Normal session).

(** [getSession(id)] *)
Definition getSession (id : option string) : M TerminalManager TerminalSession :=
  fun m =>
    match id with
    | Some i =>
        match AList.get i (sessions m) with
        | Some s => (m, Normal s)
        | None => (m, Throw (notFound id))
        end
    | None => (m, Throw (notFound id))
    end.

(** [listSessions()] *)
Definition listSessions (m : TerminalManager) : list Session.Status :=
  map (fun kv => Session.getStatus (snd kv)) (sessions m).

(** [closeSession(id)] *)
Definition closeSession (id : option string) : M TerminalManager bool :=
  fun m =>
    match id with
    | Some i =>
        if AList.has i (sessions m) then
          (mkManager (AList.delete i (sessions m)) (nextId m), Normal true)
        else (m, Normal false)
    | None => (m, Normal false)
    end.

(** [closeAllSessions()] *)
Definition closeAllSessions (m : TerminalManager) : TerminalManager :=
  mkManager [] (nextId m).

(** The test of the clean-up loop. *)
Definition expired (now maxAge : Z) (s : TerminalSession) : bool :=
  negb (isActive s) || (maxAge <? now - lastActivity s).

(** [cleanupInactiveSessions(maxAge)] at time [now]: the first loop
    collects the ids (and kills the sessions that leave), the second
    deletes them. *)
Definition toRemove (now maxAge : Z) (m : TerminalManager) : list string :=
  map fst (filter (fun kv => expired now maxAge (snd kv)) (sessions m)).

Definition cleanupInactiveSessions (now maxAge : Z) (m : TerminalManager)
  : TerminalManager :=
  mkManager
    (fold_left (fun l id => AList.delete id l) (toRemove now maxAge m) (sessions m))
    (nextId m).

(** A method of a session object held in the map has changed the object. *)
Definition store (s : TerminalSession) (m : TerminalManager) : TerminalManager :=
  mkManager (AList.set (id s) s (sessions m)) (nextId m).

(** The managers the server can be in: from the empty one by the methods
    above and by changes to the session objects, which keep their id. *)
Inductive reachable : TerminalManager -> Prop :=
| reach_empty : reachable empty
| reach_create h now o m :
    reachable m -> reachable (fst (createSession h now o m))
| reach_close id m :
    reachable m -> reachable (fst (closeSession id m))
| reach_closeAll m :
    reachable m -> reachable (closeAllSessions m)
| reach_cleanup now maxAge m :
    reachable m -> reachable (cleanupInactiveSessions now maxAge m)
| reach_store s m :
    reachable m -> AList.has (id s) (sessions m) = true -> reachable (store s m).

(** The invariant of the map: its keys are distinct, and none is the empty
    string. *)
Definition wf (m : TerminalManager) : Prop :=
  NoDup (AList.keys (sessions m)) /\ ~ In "" (AList.keys (sessions m)).

End Manager.

(* ------------------------------------------------------------------ *)
(** ** [terminal_mcp_new.js]: the [CallToolRequestSchema] handler *)

Module MultiServer.

(** The [arguments] of a request; a property that is absent is [None]. *)
Record Args := mkArgs {
  terminal_id : option string;
  command : option string;
  timeout : option Z;
  options : Options          (* id, cwd, shell, shellArgs, env *)
}.

Record Request := mkRequest {
  name : string;
  arguments : option Args
}.

(** What the outside world contributes to one request: the clock at the
    first and at the second command, the pid of a child spawned up to the
    first command and of one spawned by the second, and the events that
    reach the session while each command is awaited. *)
Record World := mkWorld {
  now1 : Z;
  now2 : Z;
  newPid : N;
  newPid2 : N;
  events1 : list SessionEvent;
  events2 : list SessionEvent
}.

(** [await session.executeCommand(command)]: the session object, which the
    map holds, changes, at the call and while the handler waits; the value
    is the outcome. *)
Definition runCommand (h : Host) (now : Z) (newPid : N) (s : TerminalSession)
    (command : option string) (tr : list SessionEvent)
  : M TerminalManager (TerminalSession * Outcome) :=
  fun m =>
    let '(s', rc) := Session.executeCommand h now newPid s command in
    match rc with
    | Normal c =>
        let '(r, result) := Session.await h (s', c) tr in
        let m' := Manager.store (fst r) m in
        match result with
        | Normal o => (m', Normal (fst r, o))
        | Throw e => (m', Throw e)
        | Pending => (m', Pending)
        | Uncaught e => (m', Uncaught e)
        end
    | Throw e => (Manager.store s' m, Throw e)
    | Pending => (Manager.store s' m, Pending)
    | Uncaught e => (Manager.store s' m, Uncaught e)
    end.

Definition showPid (p : option N) : string :=
  match p with
  | Some 0%N => "N/A"
  | Some n => JS.showN n
  | None => "N/A"
  end.

Definition create_terminal (h : Host) (w : World) (args : option Args)
  : M TerminalManager Response :=
  (session <- Manager.createSession h (now1 w)
                (match args with Some a => options a | None => noOptions end) ;;
   let s1 := Session.initialize h (now1 w) (newPid w) session in
   modify (Manager.store s1) ;;;
   r <- runCommand h (now1 w) (newPid w) s1 (Some "pwd") (events1 w) ;;
   let '(s2, pwdResult) := r in
   let finalPwd := JS.trim (stdout pwdResult) in
   ret (mkResponse
          ("Terminal session '" ++ id s2 ++ "' created successfully" ++ JS.nl
           ++ "Working Directory: " ++ workingDirectory s2 ++ JS.nl
           ++ "Shell: " ++ shell s2 ++ JS.nl
           ++ "PID: " ++ match process s2 with
                         | Some p => JS.showN (pid p)
                         | None => "N/A"
                         end ++ JS.nl
           ++ "PWD: " ++ finalPwd)
          false))%js.

Definition execute_command (h : Host) (w : World) (args : option Args)
  : M TerminalManager Response :=
  (tid <- property args "terminal_id" terminal_id ;;
   session <- Manager.getSession tid ;;
   cmd <- property args "command" command ;;
   r1 <- runCommand h (now1 w) (newPid w) session cmd (events1 w) ;;
   let '(s1, result) := r1 in
   r2 <- runCommand h (now2 w) (newPid2 w) s1 (Some "pwd") (events2 w) ;;
   let '(s2, pwdResult) := r2 in
   let finalPwd := JS.trim (stdout pwdResult) in
   ret (mkResponse
          ("Terminal: " ++ showOpt tid ++ JS.nl
           ++ "Command: " ++ showOpt cmd ++ JS.nl
           ++ "Working Directory: " ++ workingDirectory s2 ++ JS.nl
           ++ "Exit Code: " ++ showCode (exitCode result) ++ JS.nl ++ JS.nl
           ++ "PWD: " ++ finalPwd ++ JS.nl
           ++ outcomeBlocks result)
          (negb (success result))))%js.

Definition statusLines (h : Host) (st : Session.Status) : string :=
  "Working Directory: " ++ Session.st_workingDirectory st ++ JS.nl
  ++ "Shell: " ++ Session.st_shell st ++ JS.nl
  ++ "PID: " ++ showPid (Session.st_pid st) ++ JS.nl
  ++ "Last Activity: " ++ toISOString h (Session.st_lastActivity st) ++ JS.nl.

Definition list_terminals (h : Host) : M TerminalManager Response :=
  (l <- gets Manager.listSessions ;;
   match l with
   | [] => ret (mkResponse "No active terminal sessions" false)
   | _ =>
       ret (mkResponse
              (fold_left
                 (fun output st =>
                    output ++ "ID: " ++ Session.st_id st ++ JS.nl
                    ++ "Status: "
                    ++ (if Session.st_isActive st then "Active" else "Inactive") ++ JS.nl
                    ++ statusLines h st
                    ++ "---" ++ JS.nl)
                 l ("Active Terminal Sessions:" ++ JS.nl ++ JS.nl))
              false)
   end)%js.

Definition close_terminal (args : option Args) : M TerminalManager Response :=
  (tid <- property args "terminal_id" terminal_id ;;
   closed <- Manager.closeSession tid ;;
   ret (mkResponse
          ("Terminal session '" ++ showOpt tid
           ++ (if closed : bool then "' closed successfully" else "' not found"))
          (negb closed)))%js.

Definition close_all_terminals : M TerminalManager Response :=
  (sessionCount <- gets (fun m => List.length (sessions m)) ;;
   modify Manager.closeAllSessions ;;;
   ret (mkResponse
          ("Closed " ++ JS.showN (N.of_nat sessionCount) ++ " terminal session(s)")
          false))%js.

Definition get_terminal_status (h : Host) (args : option Args)
  : M TerminalManager Response :=
  (tid <- property args "terminal_id" terminal_id ;;
   session <- Manager.getSession tid ;;
   let status := Session.getStatus session in
   ret (mkResponse
          ("Terminal Status: " ++ Session.st_id status ++ JS.nl
           ++ "Active: " ++ JS.showBool (Session.st_isActive status) ++ JS.nl
           ++ statusLines h status)
          false))%js.

Definition unknownTool (name : string) : JsError := Error ("Unknown tool: " ++ name).

(** The [case] labels of the [switch]. *)
Definition known (name : string) : bool :=
  existsb (String.eqb name)
    ["create_terminal"; "execute_command"; "list_terminals"; "close_terminal";
     "close_all_terminals"; "get_terminal_status"].

(** The [switch (name)] inside [try]. *)
Definition dispatch (h : Host) (w : World) (req : Request) : M TerminalManager Response :=
  let args := arguments req in
  if String.eqb (name req) "create_terminal" then create_terminal h w args
  else if String.eqb (name req) "execute_command" then execute_command h w args
  else if String.eqb (name req) "list_terminals" then list_terminals h
  else if String.eqb (name req) "close_terminal" then close_terminal args
  else if String.eqb (name req) "close_all_terminals" then close_all_terminals
  else if String.eqb (name req) "get_terminal_status" then get_terminal_status h args
  else throw (unknownTool (name req)).

(** The handler: [try { switch ... } catch (error) { ... isError: true }]. *)
Definition handler (h : Host) (w : World) (req : Request) : M TerminalManager Response :=
  tryCatch (dispatch h w req) errorResponse.

End MultiServer.

(* ------------------------------------------------------------------ *)
(** ** The single-shell server: one persistent shell, [use_persistent_shell] *)

Module SingleServer.

(** One call of [child_process.exec]: the command and the [cwd] option. *)
Record ExecCall := mkExecCall {
  x_command : string;
  x_cwd : string
}.

(** What [exec] hands to its callback: [error] (its code and message) or
    none, and the two outputs. *)
Record ExecResult := mkExecResult {
  x_error : option (ExitCode * string);
  x_stdout : string;
  x_stderr : string
}.

(** The module's variables, and the calls of [exec] made so far. *)
Record Shell := mkShell {
  shellProcess : option Proc;
  currentWorkingDirectory : string;
  shellEnvironment : list (string * string);
  execCalls : list ExecCall
}.

Definition boot (h : Host) : Shell := mkShell None (process_cwd h) (process_env h) [].

(** [initializeShell()] *)
Definition initializeShell (h : Host) (newPid : N) (st : Shell) : Shell :=
  let p := spawn newPid in
  let p := if win32 h then p
           else stdinWrite
                  (stdinWrite p ("export PS1=" ++ JS.dquote ++ JS.dquote ++ JS.nl))
                  ("set +H" ++ JS.nl) in
  mkShell (Some p) (currentWorkingDirectory st) (shellEnvironment st) (execCalls st).

Definition markerAt (now : Z) : string := "__COMMAND_COMPLETE_" ++ JS.showZ now ++ "__".
Definition errorMarkerAt (now : Z) : string := "__COMMAND_ERROR_" ++ JS.showZ now ++ "__".

Definition needsInit (st : Shell) : bool :=
  match shellProcess st with
  | None => true
  | Some p => killed p
  end.

(** [executeCommandInShell(command, timeout)] up to the return of the
    promise. *)
Definition executeCommandInShell (h : Host) (now : Z) (newPid : N) (st : Shell)
    (command : option string) : Shell * Completion.Call :=
  let st := if needsInit st then initializeShell h newPid st else st in
  let marker := markerAt now in
  let errorMarker := errorMarkerAt now in
  let line := Session.commandLine h (showOpt command) marker errorMarker in
  let st := match shellProcess st with
            | Some p =>
                mkShell (Some (stdinWrite p line)) (currentWorkingDirectory st)
                  (shellEnvironment st) (execCalls st)
            | None => st
            end in
  (st, Completion.start marker errorMarker).

(** The shell variables and the call in flight; the callbacks of the call
    assign the closure's variables only ([onData] reads [shellProcess] to
    detach the listeners).  The events are those of the call: the shell is
    taken to stay up while a command is in flight. *)
Definition Running : Type := Shell * Completion.Call.

Definition deliver (h : Host) (r : Running) (e : Event) : Running :=
  (fst r, Completion.deliver h (snd r) e).

Definition run (h : Host) (r : Running) (tr : list Event) : Running :=
  fold_left (deliver h) tr r.

(** [updateWorkingDirectory(command)] on the module variable. *)
Definition updateWorkingDirectory (h : Host) (command : string) (st : Shell) : Shell :=
  mkShell (shellProcess st)
    (Tracker.updateWorkingDirectory h (currentWorkingDirectory st) command)
    (shellEnvironment st) (execCalls st).

Record Args := mkArgs {
  command : option string;
  timeout : option Z;
  use_persistent_shell : option bool
}.

Record Request := mkRequest {
  name : string;
  arguments : option Args
}.

Record World := mkWorld {
  now : Z;
  newPid : N;
  events : list Event;
  execResult : ExecResult
}.

(** [args.use_persistent_shell !== true] *)
Definition notTrue (flag : option bool) : bool :=
  match flag with
  | Some true => false
  | _ => true
  end.

(** The branch commented "Use persistent shell". *)
Definition persistentBranch (h : Host) (w : World) (cmd : option string)
  : M Shell Outcome :=
  fun st =>
    let '(st', c) := executeCommandInShell h (now w) (newPid w) st cmd in
    (st', awaitCall h c (events w)).

(** The branch commented "Fall back to individual exec calls with manual
    directory tracking". *)
Definition execBranch (h : Host) (w : World) (cmd : option string)
  : M Shell Outcome :=
  match cmd with
  | None => throw (readUndefined "match")
  | Some c =>
      (modify (updateWorkingDirectory h c) ;;;
       modify (fun st =>
                 mkShell (shellProcess st) (currentWorkingDirectory st)
                   (shellEnvironment st)
                   (execCalls st ++ [mkExecCall c (currentWorkingDirectory st)])) ;;;
       let r := execResult w in
       match x_error r with
       | Some (code, msg) =>
           ret (mkOutcome false (x_stdout r) (x_stderr r) code (Some msg))
       | None => ret (mkOutcome true (x_stdout r) (x_stderr r) 0 None)
       end)%js
  end.

Definition execute_command (h : Host) (w : World) (args : option Args)
  : M Shell Response :=
  (flag <- property args "use_persistent_shell" use_persistent_shell ;;
   cmd <- property args "command" command ;;
   result <- (if notTrue flag then persistentBranch h w cmd else execBranch h w cmd) ;;
   cwd <- gets currentWorkingDirectory ;;
   ret (mkResponse
          ("Command: " ++ showOpt cmd ++ JS.nl
           ++ "Working Directory: " ++ cwd ++ JS.nl
           ++ "Exit Code: " ++ showCode (exitCode result) ++ JS.nl ++ JS.nl
           ++ outcomeBlocks result)
          (negb (success result))))%js.

Definition reset_shell (h : Host) : M Shell Response :=
  (modify (fun st => mkShell None (process_cwd h) (process_env h) (execCalls st)) ;;;
   ret (mkResponse "Shell session reset successfully" false))%js.

Definition unknownTool (name : string) : JsError := Error ("Unknown tool: " ++ name).

(** The [case] labels of the [switch]. *)
Definition known (name : string) : bool :=
  existsb (String.eqb name) ["execute_command"; "reset_shell"].

Definition dispatch (h : Host) (w : World) (req : Request) : M Shell Response :=
  if String.eqb (name req) "execute_command" then execute_command h w (arguments req)
  else if String.eqb (name req) "reset_shell" then reset_shell h
  else throw (unknownTool (name req)).

Definition handler (h : Host) (w : World) (req : Request) : M Shell Response :=
  tryCatch (dispatch h w req) errorResponse.

End SingleServer.

(* ------------------------------------------------------------------ *)
(** ** [terminal_mcp.js]: the request handler of the first server *)

Module LegacyServer.

Record Args := mkArgs {
  command : option string;
  timeout : option Z
}.

Record Request := mkRequest {
  name : string;
  arguments : option Args
}.

Record World := mkWorld {
  now : Z;
  newPid : N;
  events : list Legacy.Event
}.

(** The module variable [shellProcess]. *)
Definition Shell : Type := option Proc.

Definition needsInit (st : Shell) : bool :=
  match st with
  | None => true
  | Some p => killed p
  end.

(** [executeCommand(command, timeout)] up to the return of the promise. *)
Definition executeCommand (w : World) (st : Shell) (command : option string)
  : Shell * Legacy.Call :=
  let p := match st with
           | Some p => if killed p then spawn (newPid w) else p
           | None => spawn (newPid w)
           end in
  let marker := Legacy.markerAt (now w) in
  (Some (stdinWrite p (showOpt command ++ " && echo " ++ marker ++ JS.cr ++ JS.nl)),
   Legacy.start marker).

Definition await (c : Legacy.Call) (tr : list Legacy.Event) : Result Outcome :=
  match Legacy.resolved (Legacy.run c tr) with
  | o :: _ => Normal o
  | [] => Pending
  end.

(** The handler: no [try] around its body. *)
Definition handler (w : World) (req : Request) : M Shell Response :=
  if negb (String.eqb (name req) "execute_command") then throw (Error "Unknown tool")
  else
    (cmd <- property (arguments req) "command" command ;;
     result <- (fun st =>
                  let '(st', c) := executeCommand w st cmd in
                  (st', await c (events w))) ;;
     ret (mkResponse (stdout result) (negb (success result))))%js.

End LegacyServer.

(* ------------------------------------------------------------------ *)
(** ** Properties stated below, and the data of their examples *)

(** A call resolves exactly once: never twice; once the [deadline] event has
    been delivered, once; and the first outcome stays the outcome whatever
    arrives later. *)
Definition ExactlyOnce {Call Ev : Type} (run : Call -> list Ev -> Call)
    (resolved : Call -> list Outcome) (deadline : Ev) (c0 : Call) : Prop :=
  (forall tr, (List.length (resolved (run c0 tr)) <= 1)%nat)
  /\ (forall tr1 tr2, List.length (resolved (run c0 (tr1 ++ deadline :: tr2)%list)) = 1%nat)
  /\ (forall tr1 tr2 o,
         resolved (run c0 tr1) = [o] -> resolved (run c0 (tr1 ++ tr2)%list) = [o]).

(** Of marker and deadline the first wins.  While the call [c] reached after
    the events [tr] is open: if a chunk holding the marker comes next, the
    call has the success outcome, and if the deadline comes next, it has the
    time-out outcome, and in both cases whatever comes after ([tr2], the
    loser's event included) changes nothing. *)
Definition FirstWins (h : Host) (c0 : Completion.Call) : Prop :=
  forall tr,
    let c := Completion.run h c0 tr in
    Completion.completed c = false ->
    (forall re reErr d tr2,
        RegExp.create (regexp h) (Completion.marker c) = Some re ->
        RegExp.create (regexp h) (Completion.errorMarker c) = Some reErr ->
        JS.includes d (Completion.marker c) = true ->
        Completion.resolved (Completion.run h c0 (tr ++ StdoutData d :: tr2)) =
          [Completion.successOutcome re reErr c d])
    /\ (forall tr2,
           Completion.resolved (Completion.run h c0 (tr ++ TimerFired :: tr2)) =
             [Completion.timeoutOutcome c]).

(** The same of the polling server; the poll runs while its interval does. *)
Definition PollFirstWins (c0 : Legacy.Call) : Prop :=
  forall tr,
    let c := Legacy.run c0 tr in
    Legacy.completed c = false ->
    (forall tr2,
        Legacy.checkOutput c = true ->
        JS.includes (Legacy.concat (Legacy.chunks c)) (Legacy.marker c) = true ->
        Legacy.resolved (Legacy.run c0 (tr ++ Legacy.IntervalTick :: tr2)) =
          [Legacy.successOutcome c])
    /\ (forall tr2,
           Legacy.resolved (Legacy.run c0 (tr ++ Legacy.TimeoutFired :: tr2)) =
             [Legacy.timeoutOutcome c]).

Module Examples.

Definition host : Host := mkHost false "/home/u" "/srv" [] (fun _ => "T") (fun _ => None).

Definition t0 : Z := 1700000000000.

(** The marker of session [s1] at [t0], and a stream that splits it. *)
Definition marker : string := Session.markerAt "s1" t0.
Definition errorMarker : string := Session.errorMarkerAt "s1" t0.
Definition chunk1 : string := "hello" ++ JS.nl ++ "__COMMAND_COMP".
Definition chunk2 : string := "LETE_s1_1700000000000__" ++ JS.nl.

Definition call0 : Completion.Call := Completion.start marker errorMarker.

(** Two session ids that mean something as regular expressions: the
    markers of [s(1] open a group that is never closed, and those of [a+b]
    ask for the letter [a] once or more and then [b]. *)
Definition groupMarker : string := Session.markerAt "s(1" t0.
Definition groupErrorMarker : string := Session.errorMarkerAt "s(1" t0.
Definition plusMarker : string := Session.markerAt "a+b" t0.
Definition plusErrorMarker : string := Session.errorMarkerAt "a+b" t0.

(** A manager holding session [s1], created at [t0], whose shell exited. *)
Definition created : TerminalManager :=
  fst (Manager.createSession host t0 (mkOptions (Some "s1") (Some "/tmp") None None [])
         Manager.empty).

Definition s1 : TerminalSession :=
  Session.processExited
    (Session.initialize host t0 4242
       (Session.create host t0 "s1" (mkOptions (Some "s1") (Some "/tmp") None None []))).

Definition exited : TerminalManager := Manager.store s1 created.

End Examples.

(* ------------------------------------------------------------------ *)
(** ** Further notions used in the statements *)

(** A string of white space only. *)
Fixpoint allSpaces (s : string) : bool :=
  match s with
  | EmptyString => true
  | String c s' => JS.isWhiteSpace c && allSpaces s'
  end.

(** White space in front. *)
Definition startsBlank (s : string) : bool :=
  match s with
  | EmptyString => false
  | String c _ => JS.isWhiteSpace c
  end.

(** White space at the end. *)
Fixpoint endsBlank (s : string) : bool :=
  match s with
  | EmptyString => false
  | String c EmptyString => JS.isWhiteSpace c
  | String _ s' => endsBlank s'
  end.

(** The regular expression that a text without special characters is. *)
Fixpoint literalRegex (p : string) : RegExp.regex :=
  match p with
  | EmptyString => RegExp.Empty
  | String c p' => RegExp.Seq (RegExp.Char c) (literalRegex p')
  end.

(** [y] is a position of the same input as [x], not before [x]. *)
Definition ahead (x y : RegExp.State) : Prop :=
  (fst y + String.length (snd y) = fst x + String.length (snd x))%nat
  /\ (String.length (snd y) <= String.length (snd x))%nat.

(** A matcher calls its continuation at positions ahead only. *)
Definition aheadOnly (mr : RegExp.State -> RegExp.Cont -> option RegExp.State) : Prop :=
  forall x k k', (forall y, ahead x y -> k y = k' y) -> mr x k = mr x k'.

(** Neither ['error'] nor ['exit'] of the child is among the events. *)
Fixpoint childStays (tr : list SessionEvent) : bool :=
  match tr with
  | [] => true
  | ToCall _ :: tr' => childStays tr'
  | _ :: _ => false
  end.

(** Every entry of the map sits under the id of its session. *)
Definition keyed (m : TerminalManager) : Prop :=
  forall k s, In (k, s) (sessions m) -> id s = k.

(** Every id in the map was generated from a value of the counter below the
    present one. *)
Definition generatedBelow (m : TerminalManager) : Prop :=
  forall key,
    In key (AList.keys (sessions m)) ->
    exists k, (k < nextId m)%N /\ key = "terminal_" ++ JS.showN k.

(** A path segment in normal form: not empty, not a dot segment, without a
    slash. *)
Definition cleanSegment (seg : string) : bool :=
  negb (String.eqb seg "") && negb (String.eqb seg ".") && negb (String.eqb seg "..")
  && negb (Tracker.anyChar Path.isSlash seg).

(** The lines [initialize()] and [initializeShell()] write to a new shell. *)
Definition setupLines (h : Host) : list string :=
  if win32 h then []
  else ["export PS1=" ++ JS.dquote ++ JS.dquote ++ JS.nl; "set +H" ++ JS.nl].

(** The value an object spread gives a key: the last binding of [extra], and
    the one of [base] when [extra] has none. *)
Fixpoint lastBinding (k : string) (extra : list (string * string)) (d : option string)
  : option string :=
  match extra with
  | [] => d
  | (k', v) :: extra' => lastBinding k extra' (if String.eqb k k' then Some v else d)
  end.

(* ================================================================== *)
(** * Directory tracker *)

Section TrackerFacts.

Variable h : Host.

Lemma update_no_match (wd command : string) :
  Tracker.cdMatch command = None ->
  Tracker.updateWorkingDirectory h wd command = wd.
Proof.
  intros Hm. unfold Tracker.updateWorkingDirectory. now rewrite Hm.
Qed.

End TrackerFacts.

(** C5. The directory tracker is a function of the tracked path and the
    command text (and of what the host answers for the home directory and
    the process directory).  On a POSIX host it yields, on the five commands
    of the specification, the five paths given there, and a command that does
    not match the [cd] pattern leaves the tracked path as it is.  Both
    [TerminalSession.updateWorkingDirectory] and the single-shell server's
    [updateWorkingDirectory] assign this function's value to the tracked
    directory. *)
Theorem tracker_correct (h : Host) :
  win32 h = false ->
  Tracker.updateWorkingDirectory h "/tmp" "cd sub" = "/tmp/sub"
  /\ Tracker.updateWorkingDirectory h "/tmp/sub" "cd .." = "/tmp"
  /\ Tracker.updateWorkingDirectory h "/tmp" "cd ~" = homedir h
  /\ Tracker.updateWorkingDirectory h "/tmp"
       ("cd " ++ JS.dquote ++ "my dir" ++ JS.dquote) = "/tmp/my dir"
  /\ Tracker.updateWorkingDirectory h "/tmp" "cd /abs/path" = "/abs/path"
  /\ (forall wd command,
         Tracker.cdMatch command = None ->
         Tracker.updateWorkingDirectory h wd command = wd)
  /\ (forall s command,
         workingDirectory (Session.updateWorkingDirectory h s command) =
           Tracker.updateWorkingDirectory h (workingDirectory s) command)
  /\ (forall st command,
         SingleServer.currentWorkingDirectory
           (SingleServer.updateWorkingDirectory h command st) =
           Tracker.updateWorkingDirectory h
             (SingleServer.currentWorkingDirectory st) command).
Proof.
  intros _. repeat split; try reflexivity.
  intros wd command. apply update_no_match.
Qed.

Lemma tracker_correct_witness :
  Tracker.updateWorkingDirectory Examples.host "/tmp" "cd sub" = "/tmp/sub"
  /\ Tracker.updateWorkingDirectory Examples.host "/tmp" "echo hello" = "/tmp".
Proof.
  pose proof (tracker_correct Examples.host eq_refl) as H.
  split; [exact (proj1 H)|].
  apply (proj1 (proj2 (proj2 (proj2 (proj2 (proj2 H)))))).
  reflexivity.
Defined.

(* ================================================================== *)
(** * Strings *)

Lemma append_nil_r (s : string) : s ++ "" = s.
Proof. induction s as [|c s IH]; simpl; [reflexivity | now rewrite IH]. Qed.

Lemma append_assoc (a b c : string) : (a ++ b) ++ c = a ++ (b ++ c).
Proof. induction a as [|x a IH]; simpl; [reflexivity | now rewrite IH]. Qed.

Lemma regexpLiteral_app (a b : string) :
  JS.regexpLiteral (a ++ b) = JS.regexpLiteral a && JS.regexpLiteral b.
Proof.
  induction a as [|x a IH]; simpl; [reflexivity|].
  rewrite IH. now rewrite andb_assoc.
Qed.

Lemma regexpLiteral_uint (d : Decimal.uint) :
  JS.regexpLiteral (NilEmpty.string_of_uint d) = true.
Proof. induction d; simpl; auto. Qed.

Lemma regexpLiteral_showZ (z : Z) : JS.regexpLiteral (JS.showZ z) = true.
Proof.
  unfold JS.showZ. destruct (Z.to_int z) as [d|d]; simpl.
  - apply regexpLiteral_uint.
  - apply regexpLiteral_uint.
Qed.

(** What [trim] and the removal of all occurrences do. *)
Module StringFacts.

Lemma trimStart_split (s : string) :
  exists ws, allSpaces ws = true /\ s = ws ++ JS.trimStart s.
Proof.
  induction s as [|c s [ws [Hws Hs]]]; simpl.
  - now exists "".
  - destruct (JS.isWhiteSpace c) eqn:Hc.
    + exists (String c ws). simpl. rewrite Hc, Hws. split; [reflexivity | now rewrite <- Hs].
    + now exists "".
Qed.

Lemma trimEnd_split (s : string) :
  exists ws, allSpaces ws = true /\ s = JS.trimEnd s ++ ws.
Proof.
  induction s as [|c s [ws [Hws Hs]]]; simpl.
  - now exists "".
  - destruct (JS.trimEnd s) as [|a t] eqn:Ht.
    + simpl in Hs. subst s. destruct (JS.isWhiteSpace c) eqn:Hc.
      * exists (String c ws). simpl. now rewrite Hc, Hws.
      * exists ws. now split.
    + exists ws. split; [assumption|]. simpl. now rewrite Hs at 1.
Qed.

Lemma trimStart_not_blank (s : string) : startsBlank (JS.trimStart s) = false.
Proof.
  induction s as [|c s IH]; simpl; [reflexivity|].
  destruct (JS.isWhiteSpace c) eqn:Hc; [assumption | simpl; assumption].
Qed.

Lemma trimEnd_keeps_start (s : string) :
  startsBlank s = false -> startsBlank (JS.trimEnd s) = false.
Proof.
  destruct s as [|c s]; simpl; [reflexivity|]. intros Hc.
  destruct (JS.trimEnd s); simpl; [now rewrite Hc | assumption].
Qed.

Lemma trimEnd_not_blank (s : string) : endsBlank (JS.trimEnd s) = false.
Proof.
  induction s as [|c s IH]; simpl; [reflexivity|].
  destruct (JS.trimEnd s) as [|a t] eqn:Ht.
  - destruct (JS.isWhiteSpace c) eqn:Hc; simpl; [reflexivity | assumption].
  - simpl. simpl in IH. exact IH.
Qed.

(** [trim] drops white space at both ends, and all of it. *)
Lemma trim_spec (s : string) :
  startsBlank (JS.trim s) = false /\ endsBlank (JS.trim s) = false
  /\ exists a b, allSpaces a = true /\ allSpaces b = true /\ s = a ++ JS.trim s ++ b.
Proof.
  unfold JS.trim. repeat split.
  - apply trimEnd_keeps_start, trimStart_not_blank.
  - apply trimEnd_not_blank.
  - destruct (trimStart_split s) as [a [Ha Hs]].
    destruct (trimEnd_split (JS.trimStart s)) as [b [Hb Ht]].
    exists a, b. repeat split; try assumption. now rewrite <- Ht.
Qed.

Lemma removeAllFrom_skip (k : nat) (s p : string) :
  JS.removeAllFrom k s p = JS.removeAllFrom 0 (JS.drop k s) p.
Proof.
  revert k. induction s as [|c s IH]; intros k; simpl.
  - now destruct k.
  - destruct k as [|k]; [reflexivity|]. apply IH.
Qed.

(** [removeAll], position by position: where the text starts with the
    pattern, the pattern goes and the search continues behind it; elsewhere
    the character stays. *)
Lemma removeAll_spec (p : string) :
  p <> "" ->
  JS.removeAll "" p = ""
  /\ (forall c s,
         JS.removeAll (String c s) p =
           if String.prefix p (String c s)
           then JS.removeAll (JS.drop (String.length p) (String c s)) p
           else String c (JS.removeAll s p))
  /\ (forall s, JS.includes s p = false -> JS.removeAll s p = s).
Proof.
  intros Hp. unfold JS.removeAll. repeat split.
  - intros c s. cbn [JS.removeAllFrom].
    destruct (String.prefix p (String c s)); [|reflexivity].
    destruct p as [|a p]; [contradiction|]. cbn [String.length JS.drop].
    apply removeAllFrom_skip.
  - intros s. induction s as [|c s IH]; [reflexivity|].
    cbn [JS.includes JS.removeAllFrom]. intros H. apply orb_false_iff in H.
    destruct H as [-> H]. now rewrite IH.
Qed.

End StringFacts.

(** The regular expressions of patterns without special characters. *)
Module RegExpFacts.
Import RegExp.

Lemma classify_plain (c : ascii) :
  JS.regexpSpecial c = false -> classify c = TChar c.
Proof.
  destruct c as [[] [] [] [] [] [] [] []]; try reflexivity; discriminate.
Qed.

Lemma literal_inFragment (p : string) :
  JS.regexpLiteral p = true -> inFragment p = true.
Proof.
  induction p as [|c p IH]; simpl; [reflexivity|].
  intros H. apply andb_true_iff in H. destruct H as [Hc Hp].
  rewrite (IH Hp), andb_true_r. apply negb_true_iff in Hc.
  revert Hc. destruct c as [[] [] [] [] [] [] [] []]; try discriminate; reflexivity.
Qed.

Lemma parseFrom_literal (p : string) (ts : list regex) (l : Last) :
  JS.regexpLiteral p = true ->
  parseFrom (mkFrame [] ts l) [] p =
    Some (fold_left (fun acc t => Seq t acc) ts (literalRegex p)).
Proof.
  revert ts l. induction p as [|c p IH]; intros ts l H; simpl.
  - reflexivity.
  - simpl in H. apply andb_true_iff in H. destruct H as [Hc Hp].
    apply negb_true_iff in Hc. unfold step. rewrite (classify_plain c Hc).
    unfold push. simpl. rewrite (IH _ _ Hp). reflexivity.
Qed.

Lemma parse_literal (p : string) :
  JS.regexpLiteral p = true -> parse p = Some (literalRegex p).
Proof. intros H. unfold parse. now rewrite parseFrom_literal. Qed.

Lemma matcher_literal (p : string) (pos : nat) (s : string) (k : Cont) :
  matcher (literalRegex p) (pos, s) k =
    if String.prefix p s then k ((pos + String.length p)%nat, JS.drop (String.length p) s)
    else None.
Proof.
  revert pos s. induction p as [|c p IH]; intros pos s; simpl.
  - rewrite Nat.add_0_r. now destruct s.
  - destruct s as [|c' s]; simpl; [reflexivity|].
    destruct (ascii_dec c c') as [->|Hne].
    + rewrite Ascii.eqb_refl, IH. now rewrite Nat.add_succ_r.
    + destruct (Ascii.eqb_spec c' c) as [->|_]; [contradiction | reflexivity].
Qed.

Lemma strip_literal (p : string) (s : string) (skip pos : nat) :
  strip (literalRegex p) skip pos s = JS.removeAllFrom skip s p.
Proof.
  revert skip pos. induction s as [|c s IH]; intros skip pos; [reflexivity|].
  cbn [strip JS.removeAllFrom]. destruct skip as [|k]; [|apply IH].
  unfold matchAt. rewrite matcher_literal.
  destruct (String.prefix p (String c s)); cbn [option_map fst]; [|now rewrite IH].
  replace (pos + String.length p - pos)%nat with (String.length p) by lia.
  destruct (String.length p); now rewrite IH.
Qed.

(** A pattern without special characters denotes itself: the global
    replace by the empty string takes out its occurrences. *)
Lemma create_literal (beyond : Engine) (p : string) :
  JS.regexpLiteral p = true ->
  exists re, create beyond p = Some re /\ forall s, re s = JS.removeAll s p.
Proof.
  intros H. unfold create. rewrite (literal_inFragment p H), (parse_literal p H).
  eexists. split; [reflexivity|]. intros s. apply strip_literal.
Qed.

(** The fuel of the quantifiers. *)

Lemma ahead_refl x : ahead x x.
Proof. split; lia. Qed.

Lemma ahead_trans x y z : ahead x y -> ahead y z -> ahead x z.
Proof. intros [H1 H2] [H3 H4]. split; lia. Qed.

Lemma ahead_next n c rest : ahead (n, String c rest) (S n, rest).
Proof. split; simpl; lia. Qed.

Lemma repeat_aheadOnly mr greedy fuel : aheadOnly mr -> aheadOnly (repeat mr greedy fuel).
Proof.
  intros Hm. induction fuel as [|fuel IH]; intros x k k' Hk; simpl.
  - rewrite (Hk x (ahead_refl x)). reflexivity.
  - assert (Hd : forall y, ahead x y ->
               (if (fst y =? fst x)%nat then None else repeat mr greedy fuel y k)
               = (if (fst y =? fst x)%nat then None else repeat mr greedy fuel y k')).
    { intros y Hy. destruct (fst y =? fst x)%nat; [reflexivity|].
      apply IH. intros z Hz. apply Hk. now apply ahead_trans with y. }
    rewrite (Hm x _ _ Hd), (Hk x (ahead_refl x)). reflexivity.
Qed.

Lemma matcher_aheadOnly (r : regex) : aheadOnly (matcher r).
Proof.
  induction r as [|c| | | |r1 IH1 r2 IH2|r1 IH1 r2 IH2|g r IH|g r IH|g r IH];
    intros [n s] k k' Hk; simpl.
  - apply Hk, ahead_refl.
  - destruct s as [|c' rest]; [reflexivity|].
    destruct (Ascii.eqb c' c); [|reflexivity]. apply Hk, ahead_next.
  - destruct s as [|c' rest]; [reflexivity|].
    destruct (JS.isLineTerminator c'); [reflexivity|]. apply Hk, ahead_next.
  - destruct (n =? 0)%nat; [|reflexivity]. apply Hk, ahead_refl.
  - destruct s; [|reflexivity]. apply Hk, ahead_refl.
  - apply IH1. intros y Hy. apply IH2. intros z Hz. apply Hk.
    now apply ahead_trans with y.
  - rewrite (IH1 _ k k' Hk), (IH2 _ k k' Hk). reflexivity.
  - now apply repeat_aheadOnly.
  - apply IH. intros y Hy. apply repeat_aheadOnly; [assumption|].
    intros z Hz. apply Hk. now apply ahead_trans with y.
  - assert (Hd : forall y, ahead (n, s) y ->
               (if (fst y =? n)%nat then None else k y)
               = (if (fst y =? n)%nat then None else k' y)).
    { intros y Hy. destruct (fst y =? n)%nat; [reflexivity|]. now apply Hk. }
    rewrite (IH _ _ _ Hd), (Hk _ (ahead_refl _)). reflexivity.
Qed.

(** The iterations of a quantifier are bounded by the characters left: more
    fuel than that changes nothing. *)
Lemma repeat_S mr greedy (fuel : nat) x k :
  repeat mr greedy (S fuel) x k =
    let d := fun y : State =>
               if (fst y =? fst x)%nat then None else repeat mr greedy fuel y k in
    if greedy then match mr x d with Some z => Some z | None => k x end
    else match k x with Some z => Some z | None => mr x d end.
Proof. reflexivity. Qed.

Lemma repeat_O mr greedy x k :
  repeat mr greedy 0 x k =
    let d := fun y : State => if (fst y =? fst x)%nat then None else None in
    if greedy then match mr x d with Some z => Some z | None => k x end
    else match k x with Some z => Some z | None => mr x d end.
Proof. reflexivity. Qed.

Lemma repeat_fuel mr greedy (fuel : nat) :
  aheadOnly mr ->
  forall x k, (String.length (snd x) <= fuel)%nat ->
              repeat mr greedy (S fuel) x k = repeat mr greedy fuel x k.
Proof.
  intros Hm. induction fuel as [|fuel IH]; intros x k Hx.
  - rewrite repeat_S, repeat_O. cbv zeta.
    assert (Hd : forall y, ahead x y ->
               (if (fst y =? fst x)%nat then None else repeat mr greedy 0 y k)
               = (if (fst y =? fst x)%nat then None else None)).
    { intros y [H1 H2]. destruct (Nat.eqb_spec (fst y) (fst x)); [reflexivity|]. lia. }
    now rewrite (Hm x _ _ Hd).
  - rewrite (repeat_S mr greedy (S fuel)), (repeat_S mr greedy fuel). cbv zeta.
    assert (Hd : forall y, ahead x y ->
               (if (fst y =? fst x)%nat then None else repeat mr greedy (S fuel) y k)
               = (if (fst y =? fst x)%nat then None else repeat mr greedy fuel y k)).
    { intros y [H1 H2]. destruct (Nat.eqb_spec (fst y) (fst x)); [reflexivity|].
      apply IH. lia. }
    now rewrite (Hm x _ _ Hd).
Qed.

Lemma repeat_enough mr greedy (n : nat) :
  aheadOnly mr ->
  forall x k, repeat mr greedy (String.length (snd x) + n) x k
              = repeat mr greedy (String.length (snd x)) x k.
Proof.
  intros Hm x k. induction n as [|n IH]; [now rewrite Nat.add_0_r|].
  rewrite Nat.add_succ_r, repeat_fuel by (assumption || lia). exact IH.
Qed.

(** So with the fuel the matcher gives it, the star runs as with any more
    fuel. *)
Lemma star_fuel (greedy : bool) (r : regex) (n : nat) (x : State) (k : Cont) :
  matcher (Star greedy r) x k
  = repeat (matcher r) greedy (String.length (snd x) + n) x k.
Proof. simpl. symmetry. apply repeat_enough, matcher_aheadOnly. Qed.

End RegExpFacts.

(** So the markers that hold no special character are regular expressions,
    and the replacement they give takes out their occurrences. *)
Lemma literal_markers_compile (h : Host) (m em : string) :
  JS.regexpLiteral m = true -> JS.regexpLiteral em = true ->
  exists re reErr,
    RegExp.create (regexp h) m = Some re
    /\ RegExp.create (regexp h) em = Some reErr
    /\ (forall s, re s = JS.removeAll s m)
    /\ (forall s, reErr s = JS.removeAll s em).
Proof.
  intros Hm Hem.
  destruct (RegExpFacts.create_literal (regexp h) m Hm) as [re [Hre Hs]].
  destruct (RegExpFacts.create_literal (regexp h) em Hem) as [reErr [Hrr Hse]].
  now exists re, reErr.
Qed.

(** The markers of the single-shell server hold a time stamp only. *)
Lemma single_markers_literal (now : Z) :
  JS.regexpLiteral (SingleServer.markerAt now) = true
  /\ JS.regexpLiteral (SingleServer.errorMarkerAt now) = true.
Proof.
  unfold SingleServer.markerAt, SingleServer.errorMarkerAt.
  rewrite !regexpLiteral_app, !regexpLiteral_showZ. split; reflexivity.
Qed.

(** Those of a terminal session hold its id. *)
Lemma session_markers_literal (id : string) (now : Z) :
  JS.regexpLiteral id = true ->
  JS.regexpLiteral (Session.markerAt id now) = true
  /\ JS.regexpLiteral (Session.errorMarkerAt id now) = true.
Proof.
  intros Hid. unfold Session.markerAt, Session.errorMarkerAt.
  rewrite !regexpLiteral_app, !regexpLiteral_showZ, Hid. split; reflexivity.
Qed.

(* ================================================================== *)
(** * Completion protocol of the two newer servers *)

Module CompletionFacts.
Import Completion.

Lemma run_app h (c : Call) (tr1 tr2 : list Event) :
  run h c (tr1 ++ tr2) = run h (run h c tr1) tr2.
Proof. apply fold_left_app. Qed.

Lemma settled_start (m em : string) : settled (start m em).
Proof. split; [reflexivity | intros _; split; reflexivity]. Qed.

Lemma deliver_settled h (c : Call) (e : Event) : settled c -> settled (deliver h c e).
Proof.
  intros [Hlen Htimer]. destruct c as [m em so se done timer l1 l2 res thr].
  unfold deliver. simpl in *.
  destruct e as [d|d|]; simpl.
  - destruct l1; simpl; [|now split].
    unfold onData; simpl.
    destruct (JS.includes d m); simpl; [|now split].
    destruct done; simpl; [now split|].
    destruct (Htimer eq_refl) as [_ ->].
    destruct (RegExp.create (regexp h) m) as [re|]; simpl.
    + destruct (RegExp.create (regexp h) em) as [reErr|]; simpl.
      * split; simpl; [|discriminate]. rewrite length_app, Hlen. reflexivity.
      * split; simpl; [assumption | discriminate].
    + split; simpl; [assumption | discriminate].
  - destruct l2; simpl; now split.
  - destruct timer; simpl.
    + unfold onTimeout; simpl. destruct done; simpl.
      * split; simpl; [assumption | discriminate].
      * destruct (Htimer eq_refl) as [_ ->].
        split; simpl; [|discriminate]. rewrite length_app, Hlen. reflexivity.
    + split; [assumption|]. intros Hd. destruct (Htimer Hd). discriminate.
Qed.

Lemma run_settled h (tr : list Event) (c : Call) : settled c -> settled (run h c tr).
Proof.
  revert c. induction tr as [|e tr IH]; intros c Hc; simpl; [assumption|].
  apply IH, deliver_settled, Hc.
Qed.

(** Once [completed] is set, no callback calls [resolve] again. *)
Lemma deliver_completed h (c : Call) (e : Event) :
  completed c = true ->
  completed (deliver h c e) = true /\ resolved (deliver h c e) = resolved c.
Proof.
  intros Hd. destruct c as [m em so se done timer l1 l2 res thr].
  unfold deliver. simpl in *. subst done.
  destruct e as [d|d|]; simpl.
  - destruct l1; simpl; [|now split].
    unfold onData; simpl. destruct (JS.includes d m); simpl; now split.
  - destruct l2; simpl; now split.
  - destruct timer; simpl; now split.
Qed.

Lemma run_completed h (tr : list Event) (c : Call) :
  completed c = true ->
  completed (run h c tr) = true /\ resolved (run h c tr) = resolved c.
Proof.
  revert c. induction tr as [|e tr IH]; intros c Hd; simpl; [now split|].
  destruct (deliver_completed h c e Hd) as [Hd' Hr'].
  destruct (IH _ Hd') as [Hd'' Hr'']. split; [assumption | congruence].
Qed.

Lemma timer_completes h (c : Call) :
  settled c -> completed (deliver h c TimerFired) = true.
Proof.
  intros [_ Htimer]. destruct c as [m em so se done timer l1 l2 res thr].
  unfold deliver. simpl in *. destruct done.
  - destruct timer; reflexivity.
  - destruct (Htimer eq_refl) as [-> ->]. reflexivity.
Qed.

(** The markers of a call do not change. *)
Lemma deliver_markers h (c : Call) (e : Event) :
  marker (deliver h c e) = marker c /\ errorMarker (deliver h c e) = errorMarker c.
Proof.
  destruct c as [m em so se done timer l1 l2 res thr].
  unfold deliver. simpl.
  destruct e as [d|d|]; simpl.
  - destruct l1; simpl; [|now split]. unfold onData; simpl.
    destruct (JS.includes d m); simpl; [|now split].
    destruct done; simpl; [now split|].
    destruct (RegExp.create (regexp h) m); simpl; [|now split].
    destruct (RegExp.create (regexp h) em); simpl; now split.
  - destruct l2; simpl; now split.
  - destruct timer; simpl; [|now split].
    unfold onTimeout; simpl. destruct done; simpl; now split.
Qed.

Lemma run_markers h (tr : list Event) (c : Call) :
  marker (run h c tr) = marker c /\ errorMarker (run h c tr) = errorMarker c.
Proof.
  revert c. induction tr as [|e tr IH]; intros c; simpl; [now split|].
  destruct (IH (deliver h c e)) as [H1 H2].
  destruct (deliver_markers h c e) as [H3 H4]. split; congruence.
Qed.

Lemma deliver_compiles h (c : Call) (e : Event) :
  compiles h (deliver h c e) = compiles h c.
Proof.
  unfold compiles. destruct (deliver_markers h c e) as [-> ->]. reflexivity.
Qed.

(** Where both markers are regular expressions nothing is thrown. *)
Lemma deliver_unthrown h (c : Call) (e : Event) :
  compiles h c = true -> thrown c = None -> thrown (deliver h c e) = None.
Proof.
  unfold compiles. destruct c as [m em so se done timer l1 l2 res thr].
  unfold deliver. simpl. intros Hc ->.
  destruct e as [d|d|]; simpl.
  - destruct l1; simpl; [|reflexivity]. unfold onData; simpl.
    destruct (JS.includes d m); simpl; [|reflexivity].
    destruct done; simpl; [reflexivity|].
    destruct (RegExp.create (regexp h) m); simpl; [|discriminate].
    destruct (RegExp.create (regexp h) em); simpl; [reflexivity | discriminate].
  - destruct l2; reflexivity.
  - destruct timer; simpl; [|reflexivity].
    unfold onTimeout; simpl. destruct done; reflexivity.
Qed.

Lemma run_unthrown h (tr : list Event) (c : Call) :
  compiles h c = true -> thrown c = None -> thrown (run h c tr) = None.
Proof.
  revert c. induction tr as [|e tr IH]; intros c Hc Ht; simpl; [assumption|].
  apply IH; [now rewrite deliver_compiles | now apply deliver_unthrown].
Qed.

(** Where both markers are regular expressions, the call resolves exactly
    once. *)
Lemma exactly_once h (c0 : Call) :
  settled c0 -> compiles h c0 = true -> thrown c0 = None ->
  ExactlyOnce (run h) resolved TimerFired c0.
Proof.
  intros H0 Hc0 Ht0. repeat split.
  - intros tr. destruct (run_settled h tr H0) as [Hlen _].
    rewrite Hlen. destruct (completed (run h c0 tr)); [|lia].
    destruct (thrown (run h c0 tr)); lia.
  - intros tr1 tr2. rewrite run_app.
    change (run h (run h c0 tr1) (TimerFired :: tr2))
      with (run h (deliver h (run h c0 tr1) TimerFired) tr2).
    pose proof (run_settled h tr1 H0) as H1.
    pose proof (timer_completes h H1) as Hd.
    destruct (run_completed h tr2 _ Hd) as [Hd2 Hr2].
    destruct (deliver_settled h TimerFired H1) as [Hlen _].
    assert (Ht : thrown (deliver h (run h c0 tr1) TimerFired) = None).
    { change (deliver h (run h c0 tr1) TimerFired)
        with (run h (run h c0 tr1) [TimerFired]).
      rewrite <- run_app. now apply run_unthrown. }
    rewrite Hr2, Hlen, Hd, Ht. reflexivity.
  - intros tr1 tr2 o Ho. rewrite run_app.
    destruct (run_settled h tr1 H0) as [Hlen _].
    rewrite Ho in Hlen. simpl in Hlen.
    destruct (completed (run h c0 tr1)) eqn:Hd; [|discriminate].
    destruct (run_completed h tr2 _ Hd) as [_ Hr]. congruence.
Qed.

(** Whatever the markers are, [resolve] is not called twice, and the first
    outcome stays. *)
Lemma at_most_once h (c0 : Call) :
  settled c0 ->
  (forall tr, (List.length (resolved (run h c0 tr)) <= 1)%nat)
  /\ (forall tr1 tr2 o,
         resolved (run h c0 tr1) = [o] -> resolved (run h c0 (tr1 ++ tr2)) = [o]).
Proof.
  intros H0. split.
  - intros tr. destruct (run_settled h tr H0) as [Hlen _].
    rewrite Hlen. destruct (completed (run h c0 tr)); [|lia].
    destruct (thrown (run h c0 tr)); lia.
  - intros tr1 tr2 o Ho. rewrite run_app.
    destruct (run_settled h tr1 H0) as [Hlen _].
    rewrite Ho in Hlen. simpl in Hlen.
    destruct (completed (run h c0 tr1)) eqn:Hd; [|discriminate].
    destruct (run_completed h tr2 _ Hd) as [_ Hr]. congruence.
Qed.

Lemma attentive_start (m em : string) : attentive (start m em).
Proof. intros _. reflexivity. Qed.

Lemma deliver_attentive h (c : Call) (e : Event) :
  attentive c -> attentive (deliver h c e).
Proof.
  unfold attentive. destruct c as [m em so se done timer l1 l2 res thr].
  unfold deliver. simpl.
  intros Ha. destruct e as [d|d|]; simpl.
  - destruct l1; simpl; [|assumption].
    unfold onData; simpl. destruct (JS.includes d m); simpl; [|assumption].
    destruct done; simpl; [assumption|].
    destruct (RegExp.create (regexp h) m); simpl; [|discriminate].
    destruct (RegExp.create (regexp h) em); simpl; discriminate.
  - destruct l2; simpl; assumption.
  - destruct timer; simpl; [|assumption].
    unfold onTimeout; simpl. destruct done; simpl; [assumption | discriminate].
Qed.

Lemma run_attentive h (tr : list Event) (c : Call) :
  attentive c -> attentive (run h c tr).
Proof.
  revert c. induction tr as [|e tr IH]; intros c Hc; simpl; [assumption|].
  apply IH, deliver_attentive, Hc.
Qed.

(** A chunk that holds the marker resolves an open call that listens, when
    both markers are regular expressions. *)
Lemma chunk_with_marker_resolves h (c : Call) (d : string) (re reErr : string -> string) :
  onDataOn c = true -> completed c = false ->
  RegExp.create (regexp h) (marker c) = Some re ->
  RegExp.create (regexp h) (errorMarker c) = Some reErr ->
  JS.includes d (marker c) = true ->
  completed (deliver h c (StdoutData d)) = true
  /\ resolved (deliver h c (StdoutData d)) =
       (resolved c ++ [successOutcome re reErr c d])%list.
Proof.
  intros Hl Hd Hre Hrr Hi. destruct c as [m em so se done timer l1 l2 res thr].
  unfold deliver. simpl in *. subst. unfold onData; simpl.
  rewrite Hi, Hre, Hrr. now split.
Qed.

(** A chunk that holds the marker, when the marker is no regular
    expression: the guard is set, the timer cleared, the listeners are
    detached, and [resolve] is not called. *)
Lemma chunk_with_marker_throws h (c : Call) (d : string) :
  onDataOn c = true -> completed c = false ->
  RegExp.create (regexp h) (marker c) = None ->
  JS.includes d (marker c) = true ->
  deliver h c (StdoutData d) =
    mkCall (marker c) (errorMarker c) (c_stdout c ++ d) (c_stderr c)
      true false false false (resolved c) (Some (RegExpSyntaxError (marker c))).
Proof.
  intros Hl Hd Hre Hi. destruct c as [m em so se done timer l1 l2 res thr].
  unfold deliver. simpl in *. subst. unfold onData; simpl.
  now rewrite Hi, Hre.
Qed.

(** A call without timer and listeners receives nothing. *)
Lemma run_inert h (tr : list Event) (c : Call) :
  timeoutId c = false -> onDataOn c = false -> onErrorDataOn c = false ->
  run h c tr = c.
Proof.
  intros Ht H1 H2. induction tr as [|e tr IH]; [reflexivity|].
  change (run h c (e :: tr)) with (run h (deliver h c e) tr).
  assert (He : deliver h c e = c)
    by (unfold deliver; destruct e; now rewrite ?Ht, ?H1, ?H2).
  rewrite He. exact IH.
Qed.

(** The deadline resolves an open call. *)
Lemma deadline_resolves h (c : Call) :
  timeoutId c = true -> completed c = false ->
  completed (deliver h c TimerFired) = true
  /\ resolved (deliver h c TimerFired) = (resolved c ++ [timeoutOutcome c])%list.
Proof.
  intros Ht Hd. destruct c as [m em so se done timer l1 l2 res thr].
  unfold deliver. simpl in *. subst. now split.
Qed.

Lemma open_unresolved (c : Call) : settled c -> completed c = false -> resolved c = [].
Proof.
  intros [Hlen _] Hd. rewrite Hd in Hlen. now apply length_zero_iff_nil.
Qed.

Lemma first_wins h (c0 : Call) : settled c0 -> attentive c0 -> FirstWins h c0.
Proof.
  intros H0 Ha tr c Hd. subst c.
  pose proof (run_settled h tr H0) as Hs.
  pose proof (open_unresolved Hs Hd) as Hnil.
  destruct (proj2 Hs Hd) as [Htimer Hx].
  split.
  - intros re reErr d tr2 Hre Hrr Hi. rewrite run_app.
    change (run h (run h c0 tr) (StdoutData d :: tr2))
      with (run h (deliver h (run h c0 tr) (StdoutData d)) tr2).
    destruct (chunk_with_marker_resolves h (run h c0 tr) d
                (run_attentive h tr Ha Hd) Hd Hre Hrr Hi) as [Hd' Hr'].
    destruct (run_completed h tr2 _ Hd') as [_ Hr2].
    rewrite Hr2, Hr', Hnil. reflexivity.
  - intros tr2. rewrite run_app.
    change (run h (run h c0 tr) (TimerFired :: tr2))
      with (run h (deliver h (run h c0 tr) TimerFired) tr2).
    destruct (deadline_resolves h (run h c0 tr) Htimer Hd) as [Hd' Hr'].
    destruct (run_completed h tr2 _ Hd') as [_ Hr2].
    rewrite Hr2, Hr', Hnil. reflexivity.
Qed.

(** While no chunk holds the marker and the deadline has not passed, the
    two buffers grow by what arrives and nothing else changes. *)
Lemma run_quiet h (tr : list Event) (c : Call) :
  completed c = false -> onDataOn c = true -> onErrorDataOn c = true ->
  noChunkHas (marker c) tr = true -> noTimer tr = true ->
  run h c tr =
    mkCall (marker c) (errorMarker c) (c_stdout c ++ stdoutOf tr)
      (c_stderr c ++ stderrOf tr) false (timeoutId c) true true (resolved c)
      (thrown c).
Proof.
  revert c. induction tr as [|e tr IH]; intros c Hd H1 H2 Hm Ht.
  - destruct c; simpl in *; subst. now rewrite !append_nil_r.
  - destruct c as [m em so se done timer l1 l2 res thr]. simpl in *. subst.
    change (run h ?c0 (e :: tr)) with (run h (deliver h c0 e) tr).
    destruct e as [d|d|]; unfold deliver; simpl in *.
    + apply andb_true_iff in Hm. destruct Hm as [Hd Hm].
      apply negb_true_iff in Hd. unfold onData; simpl. rewrite Hd.
      rewrite IH; simpl; auto.
      now rewrite append_assoc.
    + unfold onErrorData; simpl. rewrite IH; simpl; auto.
      now rewrite append_assoc.
    + discriminate.
Qed.

(** A call that is open after a trace has seen no chunk with the marker
    and no deadline. *)
Lemma open_quiet h (tr : list Event) (c : Call) :
  timeoutId c = true -> onDataOn c = true ->
  completed (run h c tr) = false ->
  noChunkHas (marker c) tr = true /\ noTimer tr = true.
Proof.
  revert c. induction tr as [|e tr IH]; intros c Ht Hl Hopen; [now split|].
  change (run h c (e :: tr)) with (run h (deliver h c e) tr) in Hopen.
  assert (Hd : completed (deliver h c e) = false).
  { destruct (completed (deliver h c e)) eqn:Hd; [|reflexivity].
    destruct (run_completed h tr _ Hd) as [Hd' _]. congruence. }
  destruct c as [m em so se done timer l1 l2 res thr]. simpl in *. subst.
  unfold deliver in Hd, Hopen. simpl in Hd, Hopen.
  destruct e as [d|d|]; simpl in *.
  - unfold onData in Hd, Hopen. simpl in Hd, Hopen.
    destruct (JS.includes d m); simpl in *.
    + destruct done; simpl in *.
      * destruct (run_completed h tr (mkCall m em (so ++ d) se true true true l2 res thr)
                    eq_refl) as [Hd' _]. congruence.
      * destruct (RegExp.create (regexp h) m); simpl in *; [|discriminate].
        destruct (RegExp.create (regexp h) em); simpl in *; discriminate.
    + eapply IH in Hopen; [|reflexivity..]. exact Hopen.
  - destruct l2; simpl in *; (eapply IH in Hopen; [|reflexivity..]); exact Hopen.
  - unfold onTimeout in Hd. simpl in Hd. destruct done; discriminate.
Qed.

(** The state of a call that is open after a trace: its buffers hold all
    that arrived. *)
Lemma open_call h (m em : string) (tr : list Event) :
  completed (run h (start m em) tr) = false ->
  run h (start m em) tr =
    mkCall m em (stdoutOf tr) (stderrOf tr) false true true true [] None.
Proof.
  intros Hopen.
  destruct (open_quiet h tr (start m em) eq_refl eq_refl Hopen) as [H1 H2].
  now rewrite (@run_quiet h tr (start m em)).
Qed.

End CompletionFacts.

(* ================================================================== *)
(** * Completion protocol of the first server *)

Module LegacyFacts.
Import Legacy.

Lemma poll_run_app (c : Call) (tr1 tr2 : list Event) :
  run c (tr1 ++ tr2) = run (run c tr1) tr2.
Proof. apply fold_left_app. Qed.

Lemma poll_settled_start (m : string) : settled (start m).
Proof. split; [reflexivity | intros _; reflexivity]. Qed.

Lemma poll_deliver_settled (c : Call) (e : Event) : settled c -> settled (deliver c e).
Proof.
  intros [Hlen Htimer]. destruct c as [m ch ech done timer chk stop lis res].
  simpl in *. destruct e as [d|d| | |]; simpl.
  - destruct lis; simpl; now split.
  - destruct lis; simpl; now split.
  - destruct timer; simpl.
    + unfold onTimeout; simpl. destruct done; simpl.
      * split; simpl; [assumption | discriminate].
      * split; simpl; [|discriminate]. rewrite length_app, Hlen. reflexivity.
    + split; [assumption|]. intros Hd. specialize (Htimer Hd). discriminate.
  - destruct chk; simpl; [|now split].
    unfold onTick; simpl. destruct (JS.includes (concat ch) m); simpl; [|now split].
    destruct done; simpl.
    + split; simpl; [assumption | discriminate].
    + split; simpl; [|discriminate]. rewrite length_app, Hlen. reflexivity.
  - destruct stop; simpl; now split.
Qed.

Lemma poll_run_settled (tr : list Event) (c : Call) : settled c -> settled (run c tr).
Proof.
  revert c. induction tr as [|e tr IH]; intros c Hc; simpl; [assumption|].
  apply IH, poll_deliver_settled, Hc.
Qed.

Lemma poll_deliver_completed (c : Call) (e : Event) :
  completed c = true ->
  completed (deliver c e) = true /\ resolved (deliver c e) = resolved c.
Proof.
  intros Hd. destruct c as [m ch ech done timer chk stop lis res].
  simpl in *. subst done. destruct e as [d|d| | |]; simpl.
  - destruct lis; simpl; now split.
  - destruct lis; simpl; now split.
  - destruct timer; simpl; now split.
  - destruct chk; simpl; [|now split].
    unfold onTick; simpl. destruct (JS.includes (concat ch) m); simpl; now split.
  - destruct stop; simpl; now split.
Qed.

Lemma poll_run_completed (tr : list Event) (c : Call) :
  completed c = true ->
  completed (run c tr) = true /\ resolved (run c tr) = resolved c.
Proof.
  revert c. induction tr as [|e tr IH]; intros c Hd; simpl; [now split|].
  destruct (poll_deliver_completed c e Hd) as [Hd' Hr'].
  destruct (IH _ Hd') as [Hd'' Hr'']. split; [assumption | congruence].
Qed.

Lemma poll_timer_completes (c : Call) :
  settled c -> completed (deliver c TimeoutFired) = true.
Proof.
  intros [_ Htimer]. destruct c as [m ch ech done timer chk stop lis res].
  simpl in *. destruct done.
  - destruct timer; reflexivity.
  - rewrite (Htimer eq_refl). reflexivity.
Qed.

Lemma poll_exactly_once (c0 : Call) :
  settled c0 -> ExactlyOnce run resolved TimeoutFired c0.
Proof.
  intros H0. repeat split.
  - intros tr. destruct (poll_run_settled tr H0) as [Hlen _].
    rewrite Hlen. destruct (completed (run c0 tr)); lia.
  - intros tr1 tr2. rewrite poll_run_app.
    change (run (run c0 tr1) (TimeoutFired :: tr2))
      with (run (deliver (run c0 tr1) TimeoutFired) tr2).
    pose proof (poll_run_settled tr1 H0) as H1.
    pose proof (poll_timer_completes H1) as Hd.
    destruct (poll_run_completed tr2 _ Hd) as [Hd2 Hr2].
    destruct (poll_deliver_settled TimeoutFired H1) as [Hlen _].
    rewrite Hr2, Hlen, Hd. reflexivity.
  - intros tr1 tr2 o Ho. rewrite poll_run_app.
    destruct (poll_run_settled tr1 H0) as [Hlen _].
    rewrite Ho in Hlen. simpl in Hlen.
    destruct (completed (run c0 tr1)) eqn:Hd; [|discriminate].
    destruct (poll_run_completed tr2 _ Hd) as [_ Hr]. congruence.
Qed.

(** The poll reads the whole of what has arrived: however the stream is
    cut into chunks, a tick on an open call whose output holds the marker
    resolves it. *)
Lemma tick_detects (c : Call) :
  checkOutput c = true -> completed c = false ->
  JS.includes (concat (chunks c)) (marker c) = true ->
  completed (deliver c IntervalTick) = true
  /\ resolved (deliver c IntervalTick) = (resolved c ++ [successOutcome c])%list.
Proof.
  intros Hc Hd Hi. destruct c as [m ch ech done timer chk stop lis res].
  simpl in *. subst. unfold onTick; simpl. rewrite Hi. now split.
Qed.

Lemma poll_deadline_resolves (c : Call) :
  timeoutId c = true -> completed c = false ->
  completed (deliver c TimeoutFired) = true
  /\ resolved (deliver c TimeoutFired) = (resolved c ++ [timeoutOutcome c])%list.
Proof.
  intros Ht Hd. destruct c as [m ch ech done timer chk stop lis res].
  simpl in *. subst. now split.
Qed.

Lemma poll_open_unresolved (c : Call) :
  settled c -> completed c = false -> resolved c = [].
Proof.
  intros [Hlen _] Hd. rewrite Hd in Hlen. now apply length_zero_iff_nil.
Qed.

Lemma poll_first_wins (c0 : Call) : settled c0 -> PollFirstWins c0.
Proof.
  intros H0 tr c Hd. subst c.
  pose proof (poll_run_settled tr H0) as Hs.
  pose proof (poll_open_unresolved Hs Hd) as Hnil.
  split.
  - intros tr2 Hc Hi. rewrite poll_run_app.
    change (run (run c0 tr) (IntervalTick :: tr2))
      with (run (deliver (run c0 tr) IntervalTick) tr2).
    destruct (tick_detects (run c0 tr) Hc Hd Hi) as [Hd' Hr'].
    destruct (poll_run_completed tr2 _ Hd') as [_ Hr2].
    rewrite Hr2, Hr', Hnil. reflexivity.
  - intros tr2. rewrite poll_run_app.
    change (run (run c0 tr) (TimeoutFired :: tr2))
      with (run (deliver (run c0 tr) TimeoutFired) tr2).
    destruct (poll_deadline_resolves (run c0 tr) (proj2 Hs Hd) Hd) as [Hd' Hr'].
    destruct (poll_run_completed tr2 _ Hd') as [_ Hr2].
    rewrite Hr2, Hr', Hnil. reflexivity.
Qed.

End LegacyFacts.

(* ================================================================== *)
(** * The claims about command completion *)

(** C1. In [TerminalSession.executeCommand] the marker is looked for in the
    chunk that has just arrived: when the marker of session [s1] comes cut
    in two, the accumulated buffer holds it, no chunk does, the call stays
    open, and the deadline resolves it as a failure with exit code -1.  The
    first server, which polls the accumulated chunks, resolves the same
    stream successfully. *)
Theorem split_marker_not_detected :
  let c2 := Completion.run Examples.host Examples.call0
              [StdoutData Examples.chunk1; StdoutData Examples.chunk2] in
  JS.includes (Completion.c_stdout c2) Examples.marker = true
  /\ Completion.completed c2 = false
  /\ Completion.resolved c2 = []
  /\ Completion.resolved (Completion.deliver Examples.host c2 TimerFired) =
       [mkOutcome false (Examples.chunk1 ++ Examples.chunk2)
          (JS.nl ++ "Command timed out") (-1) (Some "Command timed out")]
  /\ Legacy.resolved
       (Legacy.run (Legacy.start Examples.marker)
          [Legacy.StdoutData Examples.chunk1; Legacy.StdoutData Examples.chunk2;
           Legacy.IntervalTick]) =
       [mkOutcome true "hello" "" 0 None].
Proof. vm_compute. repeat split. Qed.

(** Where the markers are regular expressions a command's promise is
    resolved exactly once, for every sequence of chunk arrivals and timer
    expiries: [resolve] is never called twice, it has been called once the
    deadline has been delivered, and the first outcome is the outcome,
    whatever arrives after it; of marker detection and deadline, the one
    that reaches the open call first fixes the outcome.  So it is in
    [TerminalSession.executeCommand] for a session id without special
    characters, in [executeCommandInShell], whose markers hold a time stamp
    only, and in the polling [executeCommand] of the first server, which
    builds no regular expression. *)
Lemma resolves_once_with_plain_markers (h : Host) :
  (forall id now,
      JS.regexpLiteral id = true ->
      let c0 := Completion.start (Session.markerAt id now) (Session.errorMarkerAt id now) in
      ExactlyOnce (Completion.run h) Completion.resolved TimerFired c0 /\ FirstWins h c0)
  /\ (forall now,
         let c0 := Completion.start (SingleServer.markerAt now)
                     (SingleServer.errorMarkerAt now) in
         ExactlyOnce (Completion.run h) Completion.resolved TimerFired c0
         /\ FirstWins h c0)
  /\ (forall now,
         let c0 := Legacy.start (Legacy.markerAt now) in
         ExactlyOnce Legacy.run Legacy.resolved Legacy.TimeoutFired c0
         /\ PollFirstWins c0).
Proof.
  assert (Hplain : forall m em,
             JS.regexpLiteral m = true -> JS.regexpLiteral em = true ->
             Completion.compiles h (Completion.start m em) = true).
  { intros m em Hm Hem. unfold Completion.compiles. simpl.
    destruct (literal_markers_compile h m em Hm Hem) as [re [reErr [-> [-> _]]]].
    reflexivity. }
  repeat apply conj.
  - intros id now Hid c0. destruct (session_markers_literal id now Hid) as [Hm Hem].
    split.
    + apply CompletionFacts.exactly_once;
        [apply CompletionFacts.settled_start | now apply Hplain | reflexivity].
    + apply CompletionFacts.first_wins;
        [apply CompletionFacts.settled_start | apply CompletionFacts.attentive_start].
  - intros now c0. destruct (single_markers_literal now) as [Hm Hem]. split.
    + apply CompletionFacts.exactly_once;
        [apply CompletionFacts.settled_start | now apply Hplain | reflexivity].
    + apply CompletionFacts.first_wins;
        [apply CompletionFacts.settled_start | apply CompletionFacts.attentive_start].
  - intros now c0. split.
    + apply LegacyFacts.poll_exactly_once, LegacyFacts.poll_settled_start.
    + apply LegacyFacts.poll_first_wins, LegacyFacts.poll_settled_start.
Qed.

(** C2.  In [TerminalSession.executeCommand] the marker, which holds the
    session id, is handed to [new RegExp] as it is.  For the session id
    [s(1] it is no regular expression.  When the chunk with the marker
    reaches the open call, [onData] sets the guard, clears the timer and
    detaches the listeners, and then [new RegExp] throws: [resolve] has not
    been called, and whatever arrives afterwards, the deadline included, it
    is not called.  The promise is resolved not once but never, and the
    [create_terminal] request that awaits it gets no answer.  The same
    stream with the marker of session [s1] resolves the call. *)
Theorem unescaped_id_never_resolves (h : Host) (tr : list Event) :
  let chunk := "/tmp" ++ JS.nl ++ Examples.groupMarker ++ JS.nl in
  let c0 := Completion.start Examples.groupMarker Examples.groupErrorMarker in
  let c1 := Completion.deliver h c0 (StdoutData chunk) in
  RegExp.inFragment Examples.groupMarker = true
  /\ RegExp.parse Examples.groupMarker = None
  /\ c1 = Completion.mkCall Examples.groupMarker Examples.groupErrorMarker chunk ""
            true false false false []
            (Some (RegExpSyntaxError Examples.groupMarker))
  /\ Completion.resolved (Completion.run h c1 tr) = []
  /\ Completion.resolved (Completion.run h c1 (tr ++ [TimerFired])) = []
  /\ snd (MultiServer.handler Examples.host
            (MultiServer.mkWorld Examples.t0 Examples.t0 7 8 [ToCall (StdoutData chunk)] [])
            (MultiServer.mkRequest "create_terminal"
               (Some (MultiServer.mkArgs None None None
                        (mkOptions (Some "s(1") None None None []))))
            Manager.empty)
     = Uncaught (RegExpSyntaxError Examples.groupMarker)
  /\ Completion.resolved
       (Completion.deliver h Examples.call0
          (StdoutData ("/tmp" ++ JS.nl ++ Examples.marker ++ JS.nl)))
     = [mkOutcome true "/tmp" "" 0 None].
Proof.
  intros chunk c0 c1.
  assert (H1 : c1 = Completion.mkCall Examples.groupMarker Examples.groupErrorMarker
                      chunk "" true false false false []
                      (Some (RegExpSyntaxError Examples.groupMarker)))
    by (vm_compute; reflexivity).
  repeat apply conj.
  - vm_compute; reflexivity.
  - vm_compute; reflexivity.
  - exact H1.
  - rewrite H1. now rewrite CompletionFacts.run_inert.
  - rewrite H1. now rewrite CompletionFacts.run_inert.
  - vm_compute; reflexivity.
  - vm_compute; reflexivity.
Qed.

(** C3. When the deadline passes before any chunk has held the marker, the
    call resolves as a failure: exit code -1, the standard output received
    so far, the standard error received so far followed by a new line and
    "Command timed out".  The callbacks leave the session (respectively the
    shell variables of the single-shell server) as they were: the shell
    process is neither killed nor replaced. *)
Theorem timeout_resolves_failure (h : Host) (m em : string) (tr : list Event) :
  Completion.noChunkHas m tr = true ->
  Completion.noTimer tr = true ->
  Completion.resolved
    (Completion.run h (Completion.start m em) (tr ++ [TimerFired])) =
    [mkOutcome false (Completion.stdoutOf tr)
       (Completion.stderrOf tr ++ JS.nl ++ "Command timed out") (-1)
       (Some "Command timed out")]
  /\ (forall s : TerminalSession,
         fst (Session.run h (s, Completion.start m em) (tr ++ [TimerFired])) = s)
  /\ (forall st : SingleServer.Shell,
         fst (SingleServer.run h (st, Completion.start m em) (tr ++ [TimerFired])) = st).
Proof.
  intros Hm Ht. repeat apply conj.
  - rewrite CompletionFacts.run_app.
    rewrite (@CompletionFacts.run_quiet h tr (Completion.start m em)); auto.
  - intros s. generalize (Completion.start m em) as c.
    induction (tr ++ [TimerFired])%list as [|e l IH]; intros c; [reflexivity|].
    apply (IH (Completion.deliver h c e)).
  - intros st. generalize (Completion.start m em) as c.
    induction (tr ++ [TimerFired])%list as [|e l IH]; intros c; [reflexivity|].
    apply (IH (Completion.deliver h c e)).
Qed.

Lemma timeout_resolves_failure_witness :
  Completion.resolved
    (Completion.run Examples.host Examples.call0
       ([StdoutData "partial"; StderrData "warn"; StdoutData Examples.chunk1]
        ++ [TimerFired])) =
    [mkOutcome false ("partial" ++ Examples.chunk1)
       ("warn" ++ JS.nl ++ "Command timed out") (-1) (Some "Command timed out")].
Proof.
  exact (proj1 (timeout_resolves_failure Examples.host Examples.marker Examples.errorMarker
                  [StdoutData "partial"; StderrData "warn"; StdoutData Examples.chunk1]
                  eq_refl eq_refl)).
Defined.

(** C4, as the code has it.  In [TerminalSession.executeCommand] and
    [executeCommandInShell], when the markers hold no special character of
    regular expressions, a chunk of standard output that holds the marker
    and reaches a call that is still open resolves it successfully with exit
    code 0, and whatever arrives later changes nothing; the standard output
    is all that has arrived, this chunk included, with every occurrence of
    the marker removed and then trimmed, and the standard error is all that
    has arrived with every occurrence of the error marker removed and then
    trimmed.  The markers of [executeCommandInShell] are always such, and
    those of a terminal session are when its id is.  Removing takes the
    occurrences out from left to right, and trimming takes away the white
    space at both ends and nothing else.  In
    the first server, a poll that finds the marker in the accumulated output
    of an open call resolves it successfully with exit code 0; the standard
    output is the accumulated output with the first occurrence of the marker
    removed and then trimmed, and the standard error is the accumulated text
    as it arrived. *)
Theorem marker_resolves_success (h : Host) :
  (forall (m em : string) (tr tr2 : list Event) (d : string),
      JS.regexpLiteral m = true ->
      JS.regexpLiteral em = true ->
      Completion.completed (Completion.run h (Completion.start m em) tr) = false ->
      JS.includes d m = true ->
      Completion.resolved
        (Completion.run h (Completion.start m em) (tr ++ StdoutData d :: tr2)) =
        [mkOutcome true
           (JS.trim (JS.removeAll (Completion.stdoutOf tr ++ d) m))
           (JS.trim (JS.removeAll (Completion.stderrOf tr) em))
           0 None])
  /\ (forall now,
         JS.regexpLiteral (SingleServer.markerAt now) = true
         /\ JS.regexpLiteral (SingleServer.errorMarkerAt now) = true)
  /\ (forall id now,
         JS.regexpLiteral id = true ->
         JS.regexpLiteral (Session.markerAt id now) = true
         /\ JS.regexpLiteral (Session.errorMarkerAt id now) = true)
  /\ (forall p : string,
         p <> "" ->
         JS.removeAll "" p = ""
         /\ (forall c s,
                JS.removeAll (String c s) p =
                  if String.prefix p (String c s)
                  then JS.removeAll (JS.drop (String.length p) (String c s)) p
                  else String c (JS.removeAll s p))
         /\ (forall s, JS.includes s p = false -> JS.removeAll s p = s))
  /\ (forall s : string,
         startsBlank (JS.trim s) = false /\ endsBlank (JS.trim s) = false
         /\ exists a b, allSpaces a = true /\ allSpaces b = true /\ s = a ++ JS.trim s ++ b)
  /\ (forall c : Legacy.Call,
         Legacy.checkOutput c = true ->
         Legacy.completed c = false ->
         JS.includes (Legacy.concat (Legacy.chunks c)) (Legacy.marker c) = true ->
         Legacy.resolved (Legacy.deliver c Legacy.IntervalTick) =
           (Legacy.resolved c ++
              [mkOutcome true
                 (JS.trim (JS.replaceFirst (Legacy.concat (Legacy.chunks c))
                             (Legacy.marker c)))
                 (Legacy.concat (Legacy.errorChunks c)) 0 None])%list).
Proof.
  repeat apply conj.
  - intros m em tr tr2 d Hm Hem Hopen Hi.
    destruct (literal_markers_compile h m em Hm Hem) as [re [reErr [Hre [Hrr [Hs Hse]]]]].
    pose proof (CompletionFacts.open_call h m em tr Hopen) as Hc.
    pose proof (@CompletionFacts.first_wins h (Completion.start m em)
                  (CompletionFacts.settled_start m em)
                  (@CompletionFacts.attentive_start m em) tr Hopen) as [Hmark _].
    rewrite Hc in Hmark. simpl in Hmark.
    rewrite (Hmark re reErr d tr2 Hre Hrr Hi).
    unfold Completion.successOutcome. simpl. now rewrite Hs, Hse.
  - apply single_markers_literal.
  - apply session_markers_literal.
  - apply StringFacts.removeAll_spec.
  - apply StringFacts.trim_spec.
  - intros c Hc Hd Hi. apply (LegacyFacts.tick_detects c Hc Hd Hi).
Qed.

Lemma marker_resolves_success_witness :
  Completion.resolved
    (Completion.run Examples.host Examples.call0
       ([StderrData (" warn " ++ Examples.errorMarker ++ JS.nl);
         StdoutData Examples.chunk1; StdoutData Examples.chunk2]
        ++ StdoutData ("world" ++ JS.nl ++ Examples.marker ++ JS.nl)
           :: [StdoutData "late"; TimerFired])) =
    [mkOutcome true ("hello" ++ JS.nl ++ JS.nl ++ "world") "warn" 0 None].
Proof.
  exact (proj1 (marker_resolves_success Examples.host)
           Examples.marker Examples.errorMarker
           [StderrData (" warn " ++ Examples.errorMarker ++ JS.nl);
            StdoutData Examples.chunk1; StdoutData Examples.chunk2]
           [StdoutData "late"; TimerFired]
           ("world" ++ JS.nl ++ Examples.marker ++ JS.nl)
           eq_refl eq_refl eq_refl eq_refl).
Defined.

(** C4 does not hold as it is written.  In the first server the outcome
    carries the standard error as it arrived, surrounding white space
    included, and a second occurrence of the marker stays in the standard
    output.  In [TerminalSession.executeCommand], with the session id
    [a+b], the regular expression built from the marker does not match the
    marker, and the marker stays in the standard output of the outcome. *)
Lemma marker_cleanup_counterexample :
  Legacy.resolved
    (Legacy.run (Legacy.start Examples.marker)
       [Legacy.StderrData ("warn" ++ JS.nl);
        Legacy.StdoutData ("one" ++ JS.nl ++ Examples.marker ++ JS.nl);
        Legacy.StdoutData ("two" ++ JS.nl ++ Examples.marker ++ JS.nl);
        Legacy.IntervalTick]) =
    [mkOutcome true
       ("one" ++ JS.nl ++ JS.nl ++ "two" ++ JS.nl ++ Examples.marker)
       ("warn" ++ JS.nl) 0 None]
  /\ JS.trim ("warn" ++ JS.nl) = "warn"
  /\ Completion.resolved
       (Completion.deliver Examples.host
          (Completion.start Examples.plusMarker Examples.plusErrorMarker)
          (StdoutData ("/tmp" ++ JS.nl ++ Examples.plusMarker ++ JS.nl))) =
       [mkOutcome true ("/tmp" ++ JS.nl ++ Examples.plusMarker) "" 0 None].
Proof. vm_compute. repeat split. Qed.

(* ================================================================== *)
(** * Insertion-ordered maps *)

Module AListFacts.
Import AList.

Section Facts.
Variable V : Type.
Implicit Types (l : list (string * V)) (k : string) (v : V).

Lemma get_none_notin k l : ~ In k (keys l) -> get k l = None.
Proof.
  induction l as [|[k' v'] l IH]; simpl; intros Hn; [reflexivity|].
  destruct (String.eqb_spec k k') as [->|Hne].
  - exfalso. apply Hn. now left.
  - apply IH. intros Hin. apply Hn. now right.
Qed.

Lemma get_some_in k v l : get k l = Some v -> In (k, v) l.
Proof.
  induction l as [|[k' v'] l IH]; simpl; [discriminate|].
  destruct (String.eqb_spec k k') as [->|Hne].
  - intros [= ->]. now left.
  - intros Hg. right. now apply IH.
Qed.

Lemma has_in_keys k l : has k l = true <-> In k (keys l).
Proof.
  unfold has. split.
  - destruct (get k l) as [v|] eqn:Hg; [|discriminate].
    intros _. apply get_some_in in Hg.
    apply (in_map fst) in Hg. exact Hg.
  - intros Hin. destruct (get k l) eqn:Hg; [reflexivity|].
    exfalso. revert Hg. clear -Hin.
    induction l as [|[k' v'] l IH]; simpl in *; [contradiction|].
    destruct (String.eqb_spec k k') as [->|Hne]; [discriminate|].
    destruct Hin as [Heq|Hin]; [congruence | now apply IH].
Qed.

Lemma filter_notin_keys (f : string * V -> bool) k l :
  ~ In k (keys l) -> ~ In k (keys (filter f l)).
Proof.
  intros Hn Hin. apply Hn. unfold keys in *.
  apply in_map_iff in Hin. destruct Hin as [kv [Hk Hin]].
  apply filter_In in Hin. apply in_map_iff. exists kv. tauto.
Qed.

Lemma filter_nodup (f : string * V -> bool) l :
  NoDup (keys l) -> NoDup (keys (filter f l)).
Proof.
  induction l as [|[k' v'] l IH]; simpl; intros Hnd; [constructor|].
  inversion Hnd as [|? ? Hn Hnd']; subst.
  destruct (f (k', v')); simpl; [constructor|]; auto.
  now apply filter_notin_keys.
Qed.

(** With distinct keys, [delete] is a filter. *)
Lemma delete_filter k l :
  NoDup (keys l) ->
  delete k l = filter (fun kv => negb (String.eqb (fst kv) k)) l.
Proof.
  induction l as [|[k' v'] l IH]; simpl; intros Hnd; [reflexivity|].
  inversion Hnd as [|? ? Hn Hnd']; subst.
  rewrite (String.eqb_sym k' k).
  destruct (String.eqb_spec k k') as [->|Hne]; simpl.
  - clear IH Hnd Hnd'. induction l as [|[k2 v2] l IH]; simpl; [reflexivity|].
    simpl in Hn. destruct (String.eqb_spec k2 k') as [->|Hne]; simpl.
    + exfalso. apply Hn. now left.
    + f_equal. apply IH. intros Hin. apply Hn. now right.
  - f_equal. now apply IH.
Qed.

Lemma fold_delete_filter (ks : list string) l :
  NoDup (keys l) ->
  fold_left (fun acc id => delete id acc) ks l =
    filter (fun kv => negb (existsb (String.eqb (fst kv)) ks)) l.
Proof.
  revert l. induction ks as [|k ks IH]; intros l Hnd; simpl.
  - induction l as [|kv l IHl]; simpl; [reflexivity|].
    inversion Hnd; subst. f_equal. now apply IHl.
  - rewrite delete_filter by assumption.
    rewrite IH by now apply filter_nodup.
    clear. induction l as [|kv l IHl]; simpl; [reflexivity|].
    destruct (String.eqb (fst kv) k); simpl; [assumption|].
    destruct (existsb (String.eqb (fst kv)) ks); simpl; [assumption|].
    now f_equal.
Qed.

Lemma in_nodup_same k v v' l :
  NoDup (keys l) -> In (k, v) l -> In (k, v') l -> v = v'.
Proof.
  induction l as [|[k2 v2] l IH]; simpl; intros Hnd H1 H2; [contradiction|].
  inversion Hnd as [|? ? Hn Hnd']; subst.
  destruct H1 as [[= -> ->]|H1], H2 as [[= <-]|H2]; auto.
  - exfalso. apply Hn. apply (in_map fst) in H2. exact H2.
  - exfalso. apply Hn. subst. apply (in_map fst) in H1. exact H1.
Qed.

(** Deleting the keys of the entries that satisfy [f] leaves the entries
    that do not, in their order. *)
Lemma delete_selected (f : V -> bool) l :
  NoDup (keys l) ->
  fold_left (fun acc id => delete id acc)
    (map fst (filter (fun kv => f (snd kv)) l)) l =
    filter (fun kv => negb (f (snd kv))) l.
Proof.
  intros Hnd. rewrite fold_delete_filter by assumption.
  apply filter_ext_in. intros [k v] Hin. simpl. f_equal.
  destruct (f v) eqn:Hf.
  - apply existsb_exists. exists k. split; [|apply String.eqb_refl].
    apply in_map_iff. exists (k, v). split; [reflexivity|].
    apply filter_In. now split.
  - apply not_true_is_false. intros Hex.
    apply existsb_exists in Hex. destruct Hex as [k2 [Hin2 Heq]].
    apply String.eqb_eq in Heq. subst k2.
    apply in_map_iff in Hin2. destruct Hin2 as [[k3 v3] [Hk Hin3]].
    simpl in Hk. subst k3. apply filter_In in Hin3. destruct Hin3 as [Hin3 Hf3].
    simpl in Hf3. rewrite (@in_nodup_same k v v3 l Hnd Hin Hin3) in Hf. congruence.
Qed.

Lemma get_filter (f : string * V -> bool) k l :
  NoDup (keys l) ->
  get k (filter f l) =
    match get k l with
    | Some v => if f (k, v) then Some v else None
    | None => None
    end.
Proof.
  induction l as [|[k' v'] l IH]; simpl; intros Hnd; [reflexivity|].
  inversion Hnd as [|? ? Hn Hnd']; subst.
  destruct (String.eqb_spec k k') as [->|Hne].
  - destruct (f (k', v')); simpl.
    + now rewrite String.eqb_refl.
    + apply get_none_notin. now apply filter_notin_keys.
  - destruct (f (k', v')); simpl.
    + destruct (String.eqb_spec k k'); [contradiction|]. now apply IH.
    + now apply IH.
Qed.

Lemma keys_delete_in k k' l : In k' (keys (delete k l)) -> In k' (keys l).
Proof.
  induction l as [|[k2 v2] l IH]; simpl; [tauto|].
  destruct (String.eqb k k2); simpl; [tauto|].
  intros [Heq|Hin]; [now left | right; now apply IH].
Qed.

Lemma delete_nodup k l : NoDup (keys l) -> NoDup (keys (delete k l)).
Proof.
  intros Hnd. rewrite delete_filter by assumption. now apply filter_nodup.
Qed.

Lemma keys_set_present k v l : has k l = true -> keys (set k v l) = keys l.
Proof.
  unfold has. induction l as [|[k2 v2] l IH]; simpl; [discriminate|].
  destruct (String.eqb_spec k k2) as [->|Hne]; simpl; [reflexivity|].
  intros Hg. f_equal. now apply IH.
Qed.

Lemma keys_app l1 l2 : keys (l1 ++ l2) = (keys l1 ++ keys l2)%list.
Proof. apply map_app. Qed.

End Facts.
End AListFacts.

(* ================================================================== *)
(** * The session registry *)

Module ManagerFacts.
Import Manager.

Lemma nodup_snoc (A : Type) (l : list A) (x : A) :
  NoDup l -> ~ In x l -> NoDup (l ++ [x]).
Proof.
  induction l as [|y l IH]; simpl; intros Hnd Hn.
  - constructor; [tauto | constructor].
  - inversion Hnd as [|? ? Hy Hnd']; subst. constructor.
    + intros Hin. apply in_app_or in Hin. destruct Hin as [Hin|[->|[]]]; tauto.
    + apply IH; tauto.
Qed.

Lemma createSession_wf h now o m : wf m -> wf (fst (createSession h now o m)).
Proof.
  intros [Hnd He]. unfold createSession.
  set (p := match o_id o with
            | Some (String c s) => (String c s, nextId m)
            | _ => ("terminal_" ++ JS.showN (nextId m), (nextId m + 1)%N)
            end).
  assert (Hid : fst p <> "").
  { subst p. destruct (o_id o) as [[|c s]|]; simpl; discriminate. }
  destruct p as [i next]. simpl in Hid.
  destruct (AList.has i (sessions m)) eqn:Hhas; simpl; [now split|].
  split; cbn [sessions]; rewrite AListFacts.keys_app; simpl.
  - apply nodup_snoc; [assumption|].
    intros Hin. apply AListFacts.has_in_keys in Hin. congruence.
  - intros Hin. apply in_app_or in Hin. destruct Hin as [Hin|[Heq|[]]]; auto.
Qed.

Lemma closeSession_wf i m : wf m -> wf (fst (closeSession i m)).
Proof.
  intros [Hnd He]. unfold closeSession. destruct i as [i|]; [|now split].
  destruct (AList.has i (sessions m)); simpl; [|now split].
  split.
  - now apply AListFacts.delete_nodup.
  - intros Hin. apply He. eapply AListFacts.keys_delete_in, Hin.
Qed.

Lemma cleanup_sessions now maxAge m :
  wf m ->
  sessions (cleanupInactiveSessions now maxAge m) =
    filter (fun kv => negb (expired now maxAge (snd kv))) (sessions m).
Proof.
  intros [Hnd _]. unfold cleanupInactiveSessions, toRemove. simpl.
  now apply (AListFacts.delete_selected (expired now maxAge)).
Qed.

Lemma cleanup_wf now maxAge m : wf m -> wf (cleanupInactiveSessions now maxAge m).
Proof.
  intros Hwf. pose proof Hwf as [Hnd He]. unfold wf.
  rewrite cleanup_sessions by assumption. split.
  - now apply AListFacts.filter_nodup.
  - now apply AListFacts.filter_notin_keys.
Qed.

Lemma store_wf s m : wf m -> AList.has (id s) (sessions m) = true -> wf (store s m).
Proof.
  intros [Hnd He] Hhas. unfold wf, store. simpl.
  rewrite AListFacts.keys_set_present by assumption. now split.
Qed.

Lemma reachable_wf m : reachable m -> wf m.
Proof.
  induction 1.
  - split; simpl; [constructor | tauto].
  - now apply createSession_wf.
  - now apply closeSession_wf.
  - split; simpl; [constructor | tauto].
  - now apply cleanup_wf.
  - now apply store_wf.
Qed.

Lemma reachable_created : reachable Examples.created.
Proof. apply reach_create, reach_empty. Qed.

Lemma reachable_exited : reachable Examples.exited.
Proof. apply reach_store; [apply reachable_created | reflexivity]. Qed.

End ManagerFacts.

(** C6, as the code has it.  [cleanupInactiveSessions(maxAge)] removes from
    the map exactly the sessions that are inactive or whose last activity is
    more than [maxAge] before now, and leaves every other session in place
    and as it was; in particular no active session whose last activity is
    within [maxAge] is removed. *)
Theorem cleanup_removes_exactly_expired (now maxAge : Z) (m : TerminalManager) :
  Manager.reachable m ->
  let m' := Manager.cleanupInactiveSessions now maxAge m in
  sessions m' = filter (fun kv => negb (Manager.expired now maxAge (snd kv))) (sessions m)
  /\ nextId m' = nextId m
  /\ (forall i,
         AList.get i (sessions m') =
           match AList.get i (sessions m) with
           | Some s => if Manager.expired now maxAge s then None else Some s
           | None => None
           end)
  /\ (forall i s,
         AList.get i (sessions m) = Some s ->
         isActive s = true -> now - lastActivity s <= maxAge ->
         AList.get i (sessions m') = Some s).
Proof.
  intros Hr m'. pose proof (ManagerFacts.reachable_wf Hr) as Hwf.
  assert (Hs := ManagerFacts.cleanup_sessions now maxAge Hwf). fold m' in Hs.
  assert (Hget : forall i,
             AList.get i (sessions m') =
               match AList.get i (sessions m) with
               | Some s => if Manager.expired now maxAge s then None else Some s
               | None => None
               end).
  { intros i. rewrite Hs. rewrite AListFacts.get_filter by apply Hwf.
    destruct (AList.get i (sessions m)) as [s|]; [|reflexivity]. simpl.
    now destruct (Manager.expired now maxAge s). }
  repeat apply conj; auto.
  intros i s Hg Ha Hage. rewrite Hget, Hg. unfold Manager.expired.
  rewrite Ha. simpl. destruct (Z.ltb_spec maxAge (now - lastActivity s)); [lia | reflexivity].
Qed.

Lemma cleanup_removes_exactly_expired_witness :
  sessions (Manager.cleanupInactiveSessions (Examples.t0 + 5) 3600000 Examples.exited) = []
  /\ sessions (Manager.cleanupInactiveSessions
                 (Examples.t0 + 5) 3600000
                 (Manager.store
                    (Session.initialize Examples.host Examples.t0 4242 Examples.s1)
                    Examples.exited)) <> [].
Proof.
  split.
  - exact (proj1 (cleanup_removes_exactly_expired (Examples.t0 + 5) 3600000
                    ManagerFacts.reachable_exited)).
  - vm_compute. discriminate.
Defined.

(** C6 does not hold as stated: a session whose shell has exited is removed
    although its last activity is within [maxAge]. *)
Lemma cleanup_recent_inactive_counterexample :
  AList.get "s1" (sessions Examples.exited) = Some Examples.s1
  /\ isActive Examples.s1 = false
  /\ (Examples.t0 + 5 - lastActivity Examples.s1 <=? 3600000) = true
  /\ AList.get "s1"
       (sessions (Manager.cleanupInactiveSessions (Examples.t0 + 5) 3600000
                    Examples.exited)) = None.
Proof. vm_compute. repeat split. Qed.

(** C7. For every manager the server can be in and every id present in its
    map, [createSession] with that id throws "Terminal session '<id>' already
    exists" and leaves the manager (the map, the sessions in it, the id
    counter) as it was. *)
Theorem createSession_duplicate_fails (h : Host) (now : Z) (o : Options)
    (i : string) (m : TerminalManager) :
  Manager.reachable m ->
  AList.has i (sessions m) = true ->
  o_id o = Some i ->
  Manager.createSession h now o m = (m, Throw (Manager.alreadyExists i)).
Proof.
  intros Hr Hhas Ho. destruct (ManagerFacts.reachable_wf Hr) as [_ He].
  unfold Manager.createSession. rewrite Ho.
  destruct i as [|c i'].
  - exfalso. apply He. now apply AListFacts.has_in_keys.
  - rewrite Hhas. destruct m; reflexivity.
Qed.

Lemma createSession_duplicate_fails_witness :
  Manager.createSession Examples.host (Examples.t0 + 1)
    (mkOptions (Some "s1") (Some "/other") None None []) Examples.exited
  = (Examples.exited, Throw (Manager.alreadyExists "s1")).
Proof.
  exact (@createSession_duplicate_fails Examples.host (Examples.t0 + 1)
           (mkOptions (Some "s1") (Some "/other") None None []) "s1"
           Examples.exited ManagerFacts.reachable_exited eq_refl eq_refl).
Defined.

(* ================================================================== *)
(** * The request handlers *)

Section TryCatch.
Variables S A : Type.
Variable body : M S A.
Variable handler : JsError -> A.

Lemma tryCatch_state (s : S) : fst (tryCatch body handler s) = fst (body s).
Proof. unfold tryCatch. now destruct (body s) as [s' [a|e| |u]]. Qed.

Lemma tryCatch_no_throw (s : S) (e : JsError) :
  snd (tryCatch body handler s) <> Throw e.
Proof. unfold tryCatch. destruct (body s) as [s' [a|e'| |u]]; discriminate. Qed.

Lemma tryCatch_catches (s : S) (e : JsError) :
  snd (body s) = Throw e ->
  tryCatch body handler s = (fst (body s), Normal (handler e)).
Proof.
  unfold tryCatch. destruct (body s) as [s' [a|e'| |u]]; simpl; try discriminate.
  now intros [= ->].
Qed.

Lemma tryCatch_normal (s : S) (a : A) :
  snd (body s) = Normal a -> tryCatch body handler s = body s.
Proof.
  unfold tryCatch. destruct (body s) as [s' [a'|e'| |u]]; simpl; try discriminate.
  reflexivity.
Qed.
End TryCatch.

Module SingleFacts.
Import SingleServer.

Lemma run_state h (tr : list Event) (r : Running) : fst (run h r tr) = fst r.
Proof.
  revert r. induction tr as [|e tr IH]; intros r; [reflexivity|].
  apply (IH (deliver h r e)).
Qed.

(** [executeCommandInShell] starts or feeds the shell and has no other
    effect on the module's variables. *)
Lemma executeCommandInShell_frame h now newPid st cmd :
  let st' := fst (executeCommandInShell h now newPid st cmd) in
  currentWorkingDirectory st' = currentWorkingDirectory st
  /\ shellEnvironment st' = shellEnvironment st
  /\ execCalls st' = execCalls st.
Proof.
  unfold executeCommandInShell. destruct (needsInit st); simpl; [now repeat split|].
  destruct (shellProcess st); simpl; now repeat split.
Qed.

(** The line reaches the shell's standard input. *)
Lemma executeCommandInShell_writes h now newPid st cmd :
  exists p,
    shellProcess (fst (executeCommandInShell h now newPid st cmd)) = Some p
    /\ last (stdinLog p) "" =
         Session.commandLine h (showOpt cmd) (markerAt now) (errorMarkerAt now).
Proof.
  unfold executeCommandInShell, needsInit.
  destruct (shellProcess st) as [p|] eqn:Hp; simpl.
  - destruct (killed p); simpl.
    + eexists. split; [reflexivity|]. simpl. apply last_last.
    + rewrite Hp. simpl. eexists. split; [reflexivity|]. simpl. apply last_last.
  - eexists. split; [reflexivity|]. simpl. apply last_last.
Qed.

(** With a flag that is not [true] the handler runs the persistent shell. *)
Lemma execute_command_persistent h w cmd t flag st :
  notTrue flag = true ->
  fst (execute_command h w (Some (mkArgs cmd t flag)) st) =
    fst (executeCommandInShell h (now w) (newPid w) st cmd).
Proof.
  intros Hf. unfold execute_command, bind, property, ret, gets; simpl.
  rewrite Hf. unfold persistentBranch, executeCommandInShell; simpl.
  now destruct (awaitCall h _ (events w)).
Qed.

(** With the flag [true] it updates the tracked directory and calls
    [exec] there. *)
Lemma execute_command_exec h w c t st :
  fst (execute_command h w (Some (mkArgs (Some c) t (Some true))) st) =
    let cwd := Tracker.updateWorkingDirectory h (currentWorkingDirectory st) c in
    mkShell (shellProcess st) cwd (shellEnvironment st)
      (execCalls st ++ [mkExecCall c cwd]).
Proof.
  unfold execute_command, bind, property, ret, gets; simpl.
  unfold execBranch, bind, modify, ret; simpl.
  now destruct (x_error (execResult w)) as [[code msg]|].
Qed.

End SingleFacts.

(** C8.  In the single-shell server the test is
    [args.use_persistent_shell !== true]: a request with the flag [true] is
    served by the one-shot [exec] in the tracked directory and leaves the
    persistent shell alone, and a request with the flag [false], like one
    without the flag, goes to the persistent shell and calls no [exec]. *)
Theorem use_persistent_shell_inverted (h : Host) (w : SingleServer.World)
    (c : string) (t : option Z) (st : SingleServer.Shell) :
  let serve flag :=
    fst (SingleServer.handler h w
           (SingleServer.mkRequest "execute_command"
              (Some (SingleServer.mkArgs (Some c) t flag))) st) in
  let viaShell :=
    fst (SingleServer.executeCommandInShell h (SingleServer.now w)
           (SingleServer.newPid w) st (Some c)) in
  let cwd :=
    Tracker.updateWorkingDirectory h (SingleServer.currentWorkingDirectory st) c in
  serve (Some true) =
    SingleServer.mkShell (SingleServer.shellProcess st) cwd
      (SingleServer.shellEnvironment st)
      (SingleServer.execCalls st ++ [SingleServer.mkExecCall c cwd])
  /\ serve (Some false) = viaShell
  /\ serve None = viaShell
  /\ SingleServer.execCalls viaShell = SingleServer.execCalls st
  /\ (exists p,
         SingleServer.shellProcess viaShell = Some p
         /\ last (stdinLog p) "" =
              Session.commandLine h c (SingleServer.markerAt (SingleServer.now w))
                (SingleServer.errorMarkerAt (SingleServer.now w))).
Proof.
  intros serve viaShell cwd. subst serve. unfold SingleServer.handler.
  rewrite !tryCatch_state. unfold SingleServer.dispatch. simpl.
  repeat apply conj.
  - apply SingleFacts.execute_command_exec.
  - now apply SingleFacts.execute_command_persistent.
  - now apply SingleFacts.execute_command_persistent.
  - apply SingleFacts.executeCommandInShell_frame.
  - apply (SingleFacts.executeCommandInShell_writes h (SingleServer.now w)
             (SingleServer.newPid w) st (Some c)).
Qed.

(** C10.  In the single-shell server a command that goes through the
    persistent shell leaves the tracked working directory as it was,
    whatever the command and whatever the shell sends back: neither
    [executeCommandInShell] nor its callbacks assign it.  The handler calls
    the directory tracker in the [exec] branch only, where the tracked
    directory becomes what the tracker computes and [exec] runs there. *)
Theorem persistent_shell_keeps_directory (h : Host) (w : SingleServer.World)
    (cmd : option string) (t : option Z) (st : SingleServer.Shell) :
  (forall now newPid tr,
      SingleServer.currentWorkingDirectory
        (fst (SingleServer.run h
                (SingleServer.executeCommandInShell h now newPid st cmd) tr)) =
        SingleServer.currentWorkingDirectory st)
  /\ (forall flag,
         SingleServer.notTrue flag = true ->
         let st' :=
           fst (SingleServer.handler h w
                  (SingleServer.mkRequest "execute_command"
                     (Some (SingleServer.mkArgs cmd t flag))) st) in
         SingleServer.currentWorkingDirectory st' = SingleServer.currentWorkingDirectory st
         /\ SingleServer.execCalls st' = SingleServer.execCalls st)
  /\ (forall c,
         cmd = Some c ->
         let st' :=
           fst (SingleServer.handler h w
                  (SingleServer.mkRequest "execute_command"
                     (Some (SingleServer.mkArgs cmd t (Some true)))) st) in
         let cwd :=
           Tracker.updateWorkingDirectory h (SingleServer.currentWorkingDirectory st) c in
         SingleServer.currentWorkingDirectory st' = cwd
         /\ SingleServer.execCalls st' =
              (SingleServer.execCalls st ++ [SingleServer.mkExecCall c cwd])%list
         /\ SingleServer.shellProcess st' = SingleServer.shellProcess st).
Proof.
  repeat apply conj.
  - intros now newPid tr. rewrite SingleFacts.run_state.
    apply SingleFacts.executeCommandInShell_frame.
  - intros flag Hf st'. subst st'. unfold SingleServer.handler.
    rewrite tryCatch_state. unfold SingleServer.dispatch. simpl.
    rewrite SingleFacts.execute_command_persistent by assumption.
    split; apply SingleFacts.executeCommandInShell_frame.
  - intros c -> st' cwd. subst st'. unfold SingleServer.handler.
    rewrite tryCatch_state. unfold SingleServer.dispatch. simpl.
    rewrite SingleFacts.execute_command_exec. simpl. repeat split.
Qed.

Lemma persistent_shell_keeps_directory_witness :
  SingleServer.currentWorkingDirectory
    (fst (SingleServer.handler Examples.host
            (SingleServer.mkWorld Examples.t0 4242 [] (SingleServer.mkExecResult None "" ""))
            (SingleServer.mkRequest "execute_command"
               (Some (SingleServer.mkArgs (Some "cd /tmp") None None)))
            (SingleServer.boot Examples.host))) = "/srv".
Proof.
  exact (proj1 (proj1 (proj2 (persistent_shell_keeps_directory Examples.host
                  (SingleServer.mkWorld Examples.t0 4242 []
                     (SingleServer.mkExecResult None "" ""))
                  (Some "cd /tmp") None (SingleServer.boot Examples.host)))
                  None eq_refl)).
Defined.

Module DispatchFacts.

Lemma multi_unknown h w req :
  MultiServer.known (MultiServer.name req) = false ->
  MultiServer.dispatch h w req = throw (MultiServer.unknownTool (MultiServer.name req)).
Proof.
  unfold MultiServer.known, MultiServer.dispatch. simpl. intros Hk.
  repeat (apply orb_false_iff in Hk; destruct Hk as [-> Hk]). reflexivity.
Qed.

Lemma single_unknown h w req :
  SingleServer.known (SingleServer.name req) = false ->
  SingleServer.dispatch h w req =
    throw (SingleServer.unknownTool (SingleServer.name req)).
Proof.
  unfold SingleServer.known, SingleServer.dispatch. simpl. intros Hk.
  repeat (apply orb_false_iff in Hk; destruct Hk as [-> Hk]). reflexivity.
Qed.

(** A promise of [executeCommand] that exists is resolved, never rejected:
    the executor has no call of [reject]. *)
Lemma await_not_throw h (tr : list SessionEvent) (r : Session.Running) (e : JsError) :
  snd (Session.await h r tr) <> Throw e.
Proof.
  revert r. induction tr as [|ev tr IH]; intros r; simpl;
    destruct (Completion.thrown (snd r)); try discriminate;
    destruct (Completion.resolved (snd r)); try discriminate.
  apply IH.
Qed.

Lemma awaitCall_not_throw h (c : Completion.Call) (tr : list Event) (e : JsError) :
  awaitCall h c tr <> Throw e.
Proof.
  unfold awaitCall. destruct (Completion.thrown _); [discriminate|].
  destruct (Completion.resolved _); discriminate.
Qed.

(** [await session.executeCommand(command)] throws only for a command that
    is [undefined]. *)
Lemma runCommand_throw h now newPid s cmd tr m e :
  snd (MultiServer.runCommand h now newPid s cmd tr m) = Throw e ->
  cmd = None /\ e = readUndefined "match".
Proof.
  unfold MultiServer.runCommand.
  destruct (Session.executeCommand h now newPid s cmd) as [s' rc] eqn:He.
  destruct rc as [c|e1| |u1]; simpl; try discriminate.
  - destruct (Session.await h (s', c) tr) as [r result] eqn:Ha.
    pose proof (@await_not_throw h tr (s', c) e) as Hn. rewrite Ha in Hn. simpl in Hn.
    destruct result; simpl; intros H; try discriminate.
    injection H as ->. now elim Hn.
  - intros [= <-]. unfold Session.executeCommand in He.
    destruct cmd; inversion He. now split.
Qed.

(** The errors the [switch] of [terminal_mcp_new.js] throws. *)
Lemma multi_throws h w req m e :
  snd (MultiServer.dispatch h w req m) = Throw e ->
  e = MultiServer.unknownTool (MultiServer.name req)
  \/ (exists i, e = Manager.alreadyExists i)
  \/ (exists i, e = Manager.notFound i)
  \/ (exists prop, e = readUndefined prop).
Proof.
  unfold MultiServer.dispatch.
  destruct (String.eqb (MultiServer.name req) "create_terminal").
  { unfold MultiServer.create_terminal, bind, modify, ret.
    destruct (Manager.createSession h (MultiServer.now1 w) _ m) as [m1 [s1| e1| |u1]] eqn:Hc;
      simpl; try discriminate.
    - destruct (MultiServer.runCommand h _ _ _ _ _ _) as [m2 [[s2 o2]| e2| |u2]] eqn:Hr;
        simpl; try discriminate.
      intros _. apply (f_equal snd) in Hr. simpl in Hr.
      apply runCommand_throw in Hr. destruct Hr as [Habs _]. discriminate.
    - intros [= <-]. unfold Manager.createSession in Hc.
      destruct (match o_id _ with Some (String c s) => _ | _ => _ end) as [i next].
      destruct (AList.has i (sessions m)); inversion Hc. right. left. now exists i. }
  destruct (String.eqb (MultiServer.name req) "execute_command").
  { unfold MultiServer.execute_command, bind, property, ret, throw.
    destruct (MultiServer.arguments req) as [a|]; simpl.
    - unfold Manager.getSession.
      destruct (MultiServer.terminal_id a) as [i|]; simpl.
      + destruct (AList.get i (sessions m)) as [s0|]; simpl.
        * destruct (MultiServer.runCommand h _ _ _ _ _ m) as [m1 [[s1 o1]| e1| |u1]] eqn:Hr1;
            simpl; try discriminate.
          -- destruct (MultiServer.runCommand h _ _ _ _ _ m1) as [m2 [[s2 o2]| e2| |u2]] eqn:Hr2;
               simpl; try discriminate.
             intros _. apply (f_equal snd) in Hr2. simpl in Hr2.
             apply runCommand_throw in Hr2. destruct Hr2 as [Habs _]. discriminate.
          -- intros [= <-]. apply (f_equal snd) in Hr1. simpl in Hr1.
             apply runCommand_throw in Hr1. destruct Hr1 as [_ ->].
             right. right. right. now exists "match".
        * intros [= <-]. right. right. left. now exists (Some i).
      + intros [= <-]. right. right. left. now exists None.
    - intros [= <-]. right. right. right. now exists "terminal_id". }
  destruct (String.eqb (MultiServer.name req) "list_terminals").
  { unfold MultiServer.list_terminals, bind, gets, ret.
    destruct (Manager.listSessions m); discriminate. }
  destruct (String.eqb (MultiServer.name req) "close_terminal").
  { unfold MultiServer.close_terminal, bind, property, ret, throw.
    destruct (MultiServer.arguments req) as [a|]; simpl.
    - unfold Manager.closeSession. destruct (MultiServer.terminal_id a) as [i|]; simpl;
        [destruct (AList.has i (sessions m))|]; discriminate.
    - intros [= <-]. right. right. right. now exists "terminal_id". }
  destruct (String.eqb (MultiServer.name req) "close_all_terminals").
  { discriminate. }
  destruct (String.eqb (MultiServer.name req) "get_terminal_status").
  { unfold MultiServer.get_terminal_status, bind, property, ret, throw.
    destruct (MultiServer.arguments req) as [a|]; simpl.
    - unfold Manager.getSession. destruct (MultiServer.terminal_id a) as [i|]; simpl.
      + destruct (AList.get i (sessions m)); simpl; [discriminate|].
        intros [= <-]. right. right. left. now exists (Some i).
      + intros [= <-]. right. right. left. now exists None.
    - intros [= <-]. right. right. right. now exists "terminal_id". }
  intros [= <-]. now left.
Qed.

(** The errors the [switch] of the single-shell server throws. *)
Lemma single_throws h w req st e :
  snd (SingleServer.dispatch h w req st) = Throw e ->
  e = SingleServer.unknownTool (SingleServer.name req)
  \/ (exists prop, e = readUndefined prop).
Proof.
  unfold SingleServer.dispatch.
  destruct (String.eqb (SingleServer.name req) "execute_command").
  { unfold SingleServer.execute_command, bind, property, ret, throw, gets.
    destruct (SingleServer.arguments req) as [a|]; simpl.
    - destruct (SingleServer.notTrue (SingleServer.use_persistent_shell a)).
      + unfold SingleServer.persistentBranch.
        destruct (SingleServer.executeCommandInShell h _ _ st _) as [st1 c].
        pose proof (@awaitCall_not_throw h c (SingleServer.events w) e) as Hn.
        destruct (awaitCall h c (SingleServer.events w)); simpl; intros H;
          try discriminate. injection H as ->. now elim Hn.
      + unfold SingleServer.execBranch.
        destruct (SingleServer.command a) as [c|]; simpl.
        * unfold bind, modify, ret.
          destruct (SingleServer.x_error (SingleServer.execResult w)) as [[code msg]|];
            discriminate.
        * unfold throw. intros [= <-]. right. now exists "match".
    - intros [= <-]. right. now exists "use_persistent_shell". }
  destruct (String.eqb (SingleServer.name req) "reset_shell").
  { discriminate. }
  intros [= <-]. now left.
Qed.

End DispatchFacts.

(** C9, as the code has it.  In [terminal_mcp_new.js] and in the
    single-shell server every error that the handler's [switch] throws while
    it serves a request is caught by the handler and becomes the response
    with the text "Error: <message>" and [isError: true]; the handler itself
    never throws.  The errors of the [switch] are those of an unknown tool
    name, of a terminal id that is not in the map, of a duplicate id, and of
    absent arguments or an absent command.  In [terminal_mcp.js] the handler
    has no [try]: for a tool name other than [execute_command] it throws
    "Unknown tool" to its caller. *)
Theorem handler_errors_become_responses :
  (forall h w req m,
      (forall e, snd (MultiServer.handler h w req m) <> Throw e)
      /\ (forall e,
             snd (MultiServer.dispatch h w req m) = Throw e ->
             MultiServer.handler h w req m =
               (fst (MultiServer.dispatch h w req m), Normal (errorResponse e))
             /\ (e = MultiServer.unknownTool (MultiServer.name req)
                 \/ (exists i, e = Manager.alreadyExists i)
                 \/ (exists i, e = Manager.notFound i)
                 \/ (exists prop, e = readUndefined prop)))
      /\ (MultiServer.known (MultiServer.name req) = false ->
          MultiServer.handler h w req m =
            (m, Normal (mkResponse ("Error: Unknown tool: " ++ MultiServer.name req) true))))
  /\ (forall h w i t o m,
         AList.get i (sessions m) = None ->
         MultiServer.handler h w
           (MultiServer.mkRequest "get_terminal_status"
              (Some (MultiServer.mkArgs (Some i) None t o))) m =
           (m, Normal (mkResponse ("Error: Terminal session '" ++ i ++ "' not found") true)))
  /\ (forall h w i tid cmd t o m,
         o_id o = Some i -> i <> "" ->
         AList.has i (sessions m) = true ->
         MultiServer.handler h w
           (MultiServer.mkRequest "create_terminal"
              (Some (MultiServer.mkArgs tid cmd t o))) m =
           (m, Normal (mkResponse ("Error: Terminal session '" ++ i ++ "' already exists")
                         true)))
  /\ (forall h w m,
         MultiServer.handler h w (MultiServer.mkRequest "execute_command" None) m =
           (m, Normal (errorResponse (readUndefined "terminal_id"))))
  /\ (forall h w req st,
         (forall e, snd (SingleServer.handler h w req st) <> Throw e)
         /\ (forall e,
                snd (SingleServer.dispatch h w req st) = Throw e ->
                SingleServer.handler h w req st =
                  (fst (SingleServer.dispatch h w req st), Normal (errorResponse e))
                /\ (e = SingleServer.unknownTool (SingleServer.name req)
                    \/ (exists prop, e = readUndefined prop)))
         /\ (SingleServer.known (SingleServer.name req) = false ->
             SingleServer.handler h w req st =
               (st, Normal (mkResponse ("Error: Unknown tool: " ++ SingleServer.name req)
                              true))))
  /\ (forall w req st,
         String.eqb (LegacyServer.name req) "execute_command" = false ->
         LegacyServer.handler w req st = (st, Throw (Error "Unknown tool"))).
Proof.
  repeat apply conj.
  - intros h w req m. repeat apply conj.
    + intros e. apply tryCatch_no_throw.
    + intros e He. split; [now apply tryCatch_catches | now apply DispatchFacts.multi_throws in He].
    + intros Hk. unfold MultiServer.handler.
      rewrite (DispatchFacts.multi_unknown h w req Hk). reflexivity.
  - intros h w i t o m Hg. unfold MultiServer.handler, tryCatch, MultiServer.dispatch.
    simpl. unfold MultiServer.get_terminal_status, bind, property, ret. simpl.
    rewrite Hg. reflexivity.
  - intros h w i tid cmd t o m Ho Hne Hhas.
    unfold MultiServer.handler, tryCatch, MultiServer.dispatch. simpl.
    unfold MultiServer.create_terminal, bind, Manager.createSession. simpl.
    rewrite Ho. destruct i as [|c i']; [contradiction|]. rewrite Hhas.
    destruct m; reflexivity.
  - intros h w m. reflexivity.
  - intros h w req st. repeat apply conj.
    + intros e. apply tryCatch_no_throw.
    + intros e He. split; [now apply tryCatch_catches | now apply DispatchFacts.single_throws in He].
    + intros Hk. unfold SingleServer.handler.
      rewrite (DispatchFacts.single_unknown h w req Hk). reflexivity.
  - intros w req st Hn. unfold LegacyServer.handler. rewrite Hn. reflexivity.
Qed.

Lemma handler_errors_become_responses_witness :
  MultiServer.known "open_terminal" = false
  /\ MultiServer.handler Examples.host
       (MultiServer.mkWorld Examples.t0 Examples.t0 4242 4243 [] [])
       (MultiServer.mkRequest "open_terminal" None) Examples.exited =
       (Examples.exited, Normal (mkResponse "Error: Unknown tool: open_terminal" true)).
Proof.
  split; [reflexivity|].
  exact (proj2 (proj2 (proj1 handler_errors_become_responses Examples.host
                         (MultiServer.mkWorld Examples.t0 Examples.t0 4242 4243 [] [])
                         (MultiServer.mkRequest "open_terminal" None) Examples.exited))
           eq_refl).
Defined.

(** C9 does not hold of the first server: an unknown tool name makes its
    handler throw instead of answering. *)
Lemma legacy_handler_counterexample :
  LegacyServer.handler (LegacyServer.mkWorld Examples.t0 4242 [])
    (LegacyServer.mkRequest "reset_shell" None) None =
    (None, Throw (Error "Unknown tool")).
Proof. reflexivity. Qed.

(* ================================================================== *)
(** * Further properties of the session registry *)

Module RegistryFacts.
Import Manager.

Section Maps.
Variable V : Type.
Implicit Types (l : list (string * V)) (k i : string) (v : V).

Lemma get_snoc k i v l :
  AList.get k (l ++ [(i, v)]) =
    match AList.get k l with
    | Some x => Some x
    | None => if String.eqb k i then Some v else None
    end.
Proof.
  induction l as [|[k' v'] l IH]; simpl; [reflexivity|].
  destruct (String.eqb k k'); [reflexivity | apply IH].
Qed.

Lemma get_delete k i l :
  NoDup (AList.keys l) ->
  AList.get k (AList.delete i l) = if String.eqb k i then None else AList.get k l.
Proof.
  intros Hnd. rewrite AListFacts.delete_filter by assumption.
  rewrite AListFacts.get_filter by assumption. simpl.
  destruct (AList.get k l) as [v|]; [|now destruct (String.eqb k i)].
  now destruct (String.eqb k i).
Qed.

Lemma get_set k i v l :
  AList.get k (AList.set i v l) = if String.eqb k i then Some v else AList.get k l.
Proof.
  induction l as [|[k' v'] l IH]; simpl.
  - reflexivity.
  - destruct (String.eqb_spec i k') as [->|Hne]; simpl.
    + now destruct (String.eqb k k').
    + destruct (String.eqb_spec k k') as [->|Hne2].
      * destruct (String.eqb_spec k' i) as [->|_]; [contradiction | reflexivity].
      * apply IH.
Qed.

Lemma in_delete k v i l : In (k, v) (AList.delete i l) -> In (k, v) l.
Proof.
  induction l as [|[k' v'] l IH]; simpl; [tauto|].
  destruct (String.eqb i k'); simpl; [tauto|].
  intros [Heq|Hin]; [now left | right; now apply IH].
Qed.

Lemma in_set k v i w l : In (k, v) (AList.set i w l) -> (k, v) = (i, w) \/ In (k, v) l.
Proof.
  induction l as [|[k' v'] l IH]; simpl.
  - intros [Heq|[]]. left. now symmetry.
  - destruct (String.eqb i k'); simpl.
    + intros [Heq|Hin]; [left; now symmetry | right; now right].
    + intros [Heq|Hin]; [right; now left|].
      destruct (IH Hin) as [Heq|Hin']; [now left | right; now right].
Qed.

Lemma filter_twice (f g : string * V -> bool) l :
  (forall x, g x = true -> f x = true) ->
  filter g (filter f l) = filter g l.
Proof.
  intros Hfg. induction l as [|x l IH]; simpl; [reflexivity|].
  destruct (f x) eqn:Hf; simpl.
  - now rewrite IH.
  - destruct (g x) eqn:Hg; [|assumption].
    rewrite (Hfg x Hg) in Hf. discriminate.
Qed.

End Maps.

Lemma reachable_keyed m : reachable m -> keyed m.
Proof.
  induction 1 as [|h now o m Hr IH|i m Hr IH|m Hr IH|now maxAge m Hr IH|s m Hr IH Hhas];
    intros k s'.
  - simpl. tauto.
  - unfold createSession.
    destruct (match o_id o with
              | Some (String c s) => (String c s, nextId m)
              | _ => ("terminal_" ++ JS.showN (nextId m), (nextId m + 1)%N)
              end) as [i next].
    destruct (AList.has i (sessions m)); simpl; [apply IH|].
    intros Hin. apply in_app_or in Hin. destruct Hin as [Hin|[[= <- <-]|[]]].
    + now apply IH.
    + reflexivity.
  - unfold closeSession. destruct i as [i|]; [|apply IH].
    destruct (AList.has i (sessions m)); simpl; [|apply IH].
    intros Hin. apply in_delete in Hin. now apply IH.
  - simpl. tauto.
  - rewrite ManagerFacts.cleanup_sessions by now apply ManagerFacts.reachable_wf.
    intros Hin. apply filter_In in Hin. now apply IH.
  - unfold store. simpl. intros Hin. apply in_set in Hin.
    destruct Hin as [[= -> ->]|Hin]; [reflexivity | now apply IH].
Qed.

End RegistryFacts.

(** X1. In every manager the server can reach, the ids in the map are
    distinct and non-empty, and [getSession(id)] answers with a session whose
    own [id] field is that id. *)
Theorem registry_ids_consistent (m : TerminalManager) :
  Manager.reachable m ->
  NoDup (AList.keys (sessions m))
  /\ (forall k s,
         Manager.getSession (Some k) m = (m, Normal s) -> id s = k /\ k <> "").
Proof.
  intros Hr. destruct (ManagerFacts.reachable_wf Hr) as [Hnd He].
  split; [assumption|]. intros k s. unfold Manager.getSession.
  destruct (AList.get k (sessions m)) as [s'|] eqn:Hg; [|discriminate].
  intros [= <-]. apply AListFacts.get_some_in in Hg. split.
  - now apply (RegistryFacts.reachable_keyed Hr).
  - intros ->. apply He. apply (in_map fst) in Hg. exact Hg.
Qed.

Lemma registry_ids_consistent_witness :
  id Examples.s1 = "s1" /\ "s1" <> "".
Proof.
  exact (proj2 (registry_ids_consistent ManagerFacts.reachable_exited)
           "s1" Examples.s1 eq_refl).
Defined.

(** X2. [createSession] with an id that is not in the map adds the session
    at the end of the map and returns it: it is inactive, has no process,
    [getSession] finds it under its id, every other id resolves as before, the
    listing grows by its status at the end, and the id counter is not used. *)
Theorem createSession_then_getSession (h : Host) (now : Z) (o : Options)
    (i : string) (m : TerminalManager) :
  o_id o = Some i -> i <> "" ->
  AList.has i (sessions m) = false ->
  let s := Session.create h now i o in
  let m' := fst (Manager.createSession h now o m) in
  snd (Manager.createSession h now o m) = Normal s
  /\ Manager.getSession (Some i) m' = (m', Normal s)
  /\ (forall k, k <> i -> AList.get k (sessions m') = AList.get k (sessions m))
  /\ Manager.listSessions m' = (Manager.listSessions m ++ [Session.getStatus s])%list
  /\ nextId m' = nextId m
  /\ id s = i /\ isActive s = false /\ process s = None.
Proof.
  intros Ho Hne Hhas s m'. subst s m'. unfold Manager.createSession.
  rewrite Ho. destruct i as [|c i']; [contradiction|]. rewrite Hhas. simpl.
  assert (Hnone : AList.get (String c i') (sessions m) = None).
  { unfold AList.has in Hhas. now destruct (AList.get (String c i') (sessions m)). }
  repeat apply conj; try reflexivity.
  - unfold Manager.getSession. simpl.
    rewrite RegistryFacts.get_snoc, Hnone, String.eqb_refl. reflexivity.
  - intros k Hk. rewrite RegistryFacts.get_snoc.
    destruct (AList.get k (sessions m)); [reflexivity|].
    destruct (String.eqb_spec k (String c i')); [contradiction | reflexivity].
  - unfold Manager.listSessions. simpl. now rewrite map_app.
Qed.

Lemma createSession_then_getSession_witness :
  AList.get "s1" (sessions Examples.created)
  = Some (Session.create Examples.host Examples.t0 "s1"
            (mkOptions (Some "s1") (Some "/tmp") None None [])).
Proof.
  pose proof (@createSession_then_getSession Examples.host Examples.t0
                (mkOptions (Some "s1") (Some "/tmp") None None []) "s1" Manager.empty
                eq_refl ltac:(discriminate) eq_refl) as H.
  destruct H as [_ [H _]]. unfold Manager.getSession in H.
  change (fst (Manager.createSession Examples.host Examples.t0
                 (mkOptions (Some "s1") (Some "/tmp") None None []) Manager.empty))
    with Examples.created in H.
  destruct (AList.get "s1" (sessions Examples.created)) as [s|]; [|discriminate H].
  injection H as H. now rewrite H.
Defined.

(** X3. Without an id (or with the empty id) [createSession] takes the id
    [terminal_<nextId>] and advances the counter, also when that id is
    already in the map: the call then throws, the map stays as it is, and the
    counter has moved on all the same, so that the next call tries the next
    number. *)
Theorem createSession_generated_id (h : Host) (now : Z) (o : Options)
    (m : TerminalManager) :
  JS.orElse (o_id o) "" = "" ->
  let i := "terminal_" ++ JS.showN (nextId m) in
  let m' := fst (Manager.createSession h now o m) in
  nextId m' = (nextId m + 1)%N
  /\ (AList.has i (sessions m) = true ->
      sessions m' = sessions m
      /\ snd (Manager.createSession h now o m) = Throw (Manager.alreadyExists i))
  /\ (AList.has i (sessions m) = false ->
      sessions m' = (sessions m ++ [(i, Session.create h now i o)])%list
      /\ snd (Manager.createSession h now o m) = Normal (Session.create h now i o)).
Proof.
  intros Ho i m'. subst i m'. unfold Manager.createSession.
  assert (Hid : match o_id o with
                | Some (String c s) => (String c s, nextId m)
                | _ => ("terminal_" ++ JS.showN (nextId m), (nextId m + 1)%N)
                end = ("terminal_" ++ JS.showN (nextId m), (nextId m + 1)%N)).
  { destruct (o_id o) as [[|c s]|]; simpl in Ho; try reflexivity. discriminate. }
  rewrite Hid.
  destruct (AList.has ("terminal_" ++ JS.showN (nextId m)) (sessions m)); simpl.
  - repeat split; intros; discriminate.
  - repeat split; intros; discriminate.
Qed.

Lemma createSession_generated_id_witness :
  let taken :=
    fst (Manager.createSession Examples.host Examples.t0
           (mkOptions (Some "terminal_1") None None None []) Manager.empty) in
  let failed := Manager.createSession Examples.host Examples.t0 noOptions taken in
  snd failed = Throw (Manager.alreadyExists "terminal_1")
  /\ nextId (fst failed) = 2%N
  /\ AList.keys (sessions (fst (Manager.createSession Examples.host Examples.t0
                                  noOptions (fst failed))))
     = ["terminal_1"; "terminal_2"].
Proof.
  intros taken failed.
  pose proof (@createSession_generated_id Examples.host Examples.t0 noOptions taken
                eq_refl) as H.
  destruct H as [Hn [Hdup _]]. repeat apply conj.
  - exact (proj2 (Hdup eq_refl)).
  - exact Hn.
  - reflexivity.
Defined.

(** X4. [closeSession(id)] answers [false] and changes nothing when the id
    is not in the map (or is [undefined]); when it is, it answers [true], the
    id is gone ([getSession] then throws "not found"), every other session
    and the id counter are as before. *)
Theorem closeSession_removes_one (m : TerminalManager) (i : string) :
  Manager.reachable m ->
  Manager.closeSession None m = (m, Normal false)
  /\ (AList.has i (sessions m) = false ->
      Manager.closeSession (Some i) m = (m, Normal false))
  /\ (AList.has i (sessions m) = true ->
      let m' := fst (Manager.closeSession (Some i) m) in
      snd (Manager.closeSession (Some i) m) = Normal true
      /\ Manager.getSession (Some i) m' = (m', Throw (Manager.notFound (Some i)))
      /\ (forall k, k <> i -> AList.get k (sessions m') = AList.get k (sessions m))
      /\ nextId m' = nextId m).
Proof.
  intros Hr. destruct (ManagerFacts.reachable_wf Hr) as [Hnd _].
  repeat apply conj.
  - reflexivity.
  - intros Hhas. unfold Manager.closeSession. now rewrite Hhas.
  - intros Hhas m'. subst m'. unfold Manager.closeSession. rewrite Hhas. simpl.
    repeat apply conj; try reflexivity.
    + unfold Manager.getSession. simpl.
      rewrite RegistryFacts.get_delete by assumption.
      now rewrite String.eqb_refl.
    + intros k Hk. rewrite RegistryFacts.get_delete by assumption.
      destruct (String.eqb_spec k i); [contradiction | reflexivity].
Qed.

Lemma closeSession_removes_one_witness :
  Manager.closeSession (Some "s1") Examples.exited
  = (mkManager [] 1, Normal true)
  /\ Manager.closeSession (Some "s2") Examples.exited = (Examples.exited, Normal false).
Proof.
  pose proof (@closeSession_removes_one Examples.exited "s2"
                ManagerFacts.reachable_exited) as H.
  split; [reflexivity|]. exact (proj1 (proj2 H) eq_refl).
Defined.

(** X5. Sweeps compose: a sweep at a later time with the same [maxAge] after
    an earlier sweep leaves what the later sweep alone leaves; in particular
    a sweep repeated at the same time removes nothing more.  Whatever a sweep
    leaves is active. *)
Theorem cleanup_sweeps_compose (now1 now2 maxAge : Z) (m : TerminalManager) :
  Manager.reachable m ->
  now1 <= now2 ->
  Manager.cleanupInactiveSessions now2 maxAge
    (Manager.cleanupInactiveSessions now1 maxAge m)
  = Manager.cleanupInactiveSessions now2 maxAge m
  /\ (forall k s,
         AList.get k (sessions (Manager.cleanupInactiveSessions now1 maxAge m)) = Some s ->
         isActive s = true /\ now1 - lastActivity s <= maxAge).
Proof.
  intros Hr Hle. pose proof (ManagerFacts.reachable_wf Hr) as Hwf.
  pose proof (ManagerFacts.cleanup_wf now1 maxAge Hwf) as Hwf1.
  pose proof (ManagerFacts.cleanup_sessions now1 maxAge Hwf) as H1.
  split.
  - pose proof (ManagerFacts.cleanup_sessions now2 maxAge Hwf1) as H12.
    pose proof (ManagerFacts.cleanup_sessions now2 maxAge Hwf) as H2.
    assert (Hs : sessions (Manager.cleanupInactiveSessions now2 maxAge
                             (Manager.cleanupInactiveSessions now1 maxAge m))
                 = sessions (Manager.cleanupInactiveSessions now2 maxAge m)).
    { rewrite H12, H1, H2. apply RegistryFacts.filter_twice.
      intros [k s]. unfold Manager.expired. simpl.
      destruct (isActive s); simpl; [|discriminate].
      destruct (Z.ltb_spec maxAge (now2 - lastActivity s)); [discriminate|].
      intros _. destruct (Z.ltb_spec maxAge (now1 - lastActivity s)); [lia | reflexivity]. }
    unfold Manager.cleanupInactiveSessions in *. simpl in *. now rewrite Hs.
  - intros k s. rewrite H1. rewrite AListFacts.get_filter by apply Hwf.
    destruct (AList.get k (sessions m)) as [s'|]; [|discriminate]. simpl.
    unfold Manager.expired. destruct (isActive s') eqn:Ha; simpl; [|discriminate].
    destruct (Z.ltb_spec maxAge (now1 - lastActivity s')); simpl; [discriminate|].
    intros [= <-]. now split.
Qed.

Lemma cleanup_sweeps_compose_witness :
  Manager.cleanupInactiveSessions (Examples.t0 + 9) 5
    (Manager.cleanupInactiveSessions (Examples.t0 + 2) 5
       (Manager.store (Session.initialize Examples.host Examples.t0 4242 Examples.s1)
          Examples.exited))
  = mkManager [] 1.
Proof.
  refine (eq_trans
            (proj1 (@cleanup_sweeps_compose (Examples.t0 + 2) (Examples.t0 + 9) 5
                      (Manager.store
                         (Session.initialize Examples.host Examples.t0 4242 Examples.s1)
                         Examples.exited)
                      (@Manager.reach_store
                         (Session.initialize Examples.host Examples.t0 4242 Examples.s1)
                         Examples.exited ManagerFacts.reachable_exited eq_refl)
                      ltac:(vm_compute; discriminate)))
            _).
  vm_compute. reflexivity.
Defined.

(* ================================================================== *)
(** * Further properties of a terminal session *)

Module SessionFacts.

Lemma spread_get (k : string) (extra base : list (string * string)) :
  AList.get k (Session.spread base extra) = lastBinding k extra (AList.get k base).
Proof.
  unfold Session.spread. revert base.
  induction extra as [|[k' v] extra IH]; intros base; simpl; [reflexivity|].
  rewrite IH. now rewrite RegistryFacts.get_set.
Qed.

Lemma lastBinding_absent (k : string) (extra : list (string * string)) (d : option string) :
  ~ In k (AList.keys extra) -> lastBinding k extra d = d.
Proof.
  revert d. induction extra as [|[k' v] extra IH]; intros d Hn; simpl; [reflexivity|].
  simpl in Hn. rewrite IH by tauto.
  destruct (String.eqb_spec k k') as [->|_]; [|reflexivity]. exfalso. apply Hn. now left.
Qed.

Lemma lastBinding_last (k v : string) (extra : list (string * string)) (d : option string) :
  lastBinding k (extra ++ [(k, v)]) d = Some v.
Proof.
  revert d. induction extra as [|[k' v'] extra IH]; intros d; simpl.
  - now rewrite String.eqb_refl.
  - apply IH.
Qed.

(** After [executeCommand] the session is active. *)
Lemma executeCommand_active h now newPid s cmd :
  isActive (fst (Session.executeCommand h now newPid s cmd)) = true
  /\ lastActivity (fst (Session.executeCommand h now newPid s cmd)) = now
  /\ id (fst (Session.executeCommand h now newPid s cmd)) = id s.
Proof.
  unfold Session.executeCommand, Session.needsInit, Session.initialize.
  destruct s as [i [[n k log]|] wd env act la sh sa]; simpl;
    destruct act; try destruct k; destruct cmd; simpl; now repeat split.
Qed.

End SessionFacts.

(** X6. The environment of a new session is [process.env] overridden by
    [options.env]: a variable has the value its last binding in [options.env]
    gives it, and the value of [process.env] when [options.env] does not
    bind it. *)
Theorem session_environment_overrides (h : Host) (now : Z) (i : string) (o : Options)
    (k : string) :
  let env := environment (Session.create h now i o) in
  AList.get k env = lastBinding k (o_env o) (AList.get k (process_env h))
  /\ (~ In k (AList.keys (o_env o)) -> AList.get k env = AList.get k (process_env h))
  /\ (forall extra v, o_env o = (extra ++ [(k, v)])%list -> AList.get k env = Some v).
Proof.
  intros env. subst env. simpl. rewrite SessionFacts.spread_get.
  repeat apply conj.
  - reflexivity.
  - intros Hn. now apply SessionFacts.lastBinding_absent.
  - intros extra v ->. apply SessionFacts.lastBinding_last.
Qed.

Lemma session_environment_overrides_witness :
  AList.get "PATH"
    (environment
       (Session.create (mkHost false "/home/u" "/srv" [("PATH", "/bin"); ("LANG", "C")]
                          (fun _ => "T") (fun _ => None))
          0 "s" (mkOptions None None None None [("PATH", "/opt"); ("PATH", "/usr")])))
  = Some "/usr".
Proof.
  exact (proj2 (proj2 (session_environment_overrides
                  (mkHost false "/home/u" "/srv" [("PATH", "/bin"); ("LANG", "C")]
                     (fun _ => "T") (fun _ => None))
                  0 "s" (mkOptions None None None None [("PATH", "/opt"); ("PATH", "/usr")])
                  "PATH"))
           [("PATH", "/opt")] "/usr" eq_refl).
Defined.

(** X7. [executeCommand] leaves the session active with [lastActivity] at
    the time of the call, and keeps its id, environment and shell; the
    tracked directory is what the directory tracker computes.  A session that
    is inactive, has no process or a killed one gets a new shell, which
    receives the set-up lines and then the command line; otherwise the
    command line is the one line added to the running shell's input. *)
Theorem executeCommand_session_effects (h : Host) (now : Z) (newPid : N)
    (s : TerminalSession) (cmd : option string) :
  let s' := fst (Session.executeCommand h now newPid s cmd) in
  let line := Session.commandLine h (showOpt cmd) (Session.markerAt (id s) now)
                (Session.errorMarkerAt (id s) now) in
  id s' = id s /\ environment s' = environment s
  /\ shell s' = shell s /\ shellArgs s' = shellArgs s
  /\ isActive s' = true /\ lastActivity s' = now
  /\ workingDirectory s' =
       match cmd with
       | Some c => Tracker.updateWorkingDirectory h (workingDirectory s) c
       | None => workingDirectory s
       end
  /\ (Session.needsInit s = true ->
      process s' = Some (mkProc newPid false (setupLines h ++ [line])))
  /\ (Session.needsInit s = false ->
      exists p, process s = Some p /\ killed p = false
                /\ process s' = Some (mkProc (pid p) false (stdinLog p ++ [line]))).
Proof.
  intros s' line. subst s' line.
  unfold Session.executeCommand, setupLines.
  destruct (Session.needsInit s) eqn:Hn.
  - unfold Session.initialize.
    destruct (process s); destruct (win32 h); destruct cmd; simpl;
      repeat split; intros; try discriminate; reflexivity.
  - unfold Session.needsInit in Hn. apply orb_false_iff in Hn.
    destruct Hn as [Ha Hp]. apply negb_false_iff in Ha.
    destruct (process s) as [p|] eqn:Hproc; [|discriminate].
    destruct cmd; simpl; rewrite ?Hproc; simpl;
      repeat split; intros; try discriminate; try assumption;
      (exists p; destruct p; simpl in *; subst; now repeat split).
Qed.

(** X8. A session that has just run a command is not swept: once
    [executeCommand], called at time [t], has updated the session object in
    the map, a sweep at a time no more than [maxAge] after [t] leaves the
    session in the map as the command left it. *)
Theorem executed_session_survives_sweep (h : Host) (t now maxAge : Z) (newPid : N)
    (cmd : option string) (m : TerminalManager) (k : string) (s : TerminalSession) :
  Manager.reachable m ->
  AList.get k (sessions m) = Some s ->
  now - t <= maxAge ->
  let s' := fst (Session.executeCommand h t newPid s cmd) in
  AList.get k
    (sessions (Manager.cleanupInactiveSessions now maxAge (Manager.store s' m)))
  = Some s'.
Proof.
  intros Hr Hg Hage s'.
  destruct (SessionFacts.executeCommand_active h t newPid s cmd) as [Ha [Hl Hi]].
  fold s' in Ha, Hl, Hi.
  assert (Hk : id s = k).
  { apply (RegistryFacts.reachable_keyed Hr). now apply AListFacts.get_some_in. }
  assert (Hhas : AList.has (id s') (sessions m) = true).
  { unfold AList.has. now rewrite Hi, Hk, Hg. }
  pose proof (ManagerFacts.reachable_wf (Manager.reach_store s' Hr Hhas)) as Hwf.
  rewrite ManagerFacts.cleanup_sessions by assumption.
  rewrite AListFacts.get_filter by apply Hwf.
  unfold Manager.store. simpl. rewrite RegistryFacts.get_set.
  rewrite Hi, Hk, String.eqb_refl. simpl. unfold Manager.expired.
  rewrite Ha, Hl. simpl.
  destruct (Z.ltb_spec maxAge (now - t)); [lia | reflexivity].
Qed.

Lemma executed_session_survives_sweep_witness :
  AList.get "s1"
    (sessions
       (Manager.cleanupInactiveSessions (Examples.t0 + 3600000) 3600000
          (Manager.store
             (fst (Session.executeCommand Examples.host Examples.t0 7 Examples.s1
                     (Some "ls")))
             Examples.exited)))
  = Some (fst (Session.executeCommand Examples.host Examples.t0 7 Examples.s1 (Some "ls"))).
Proof.
  exact (@executed_session_survives_sweep Examples.host Examples.t0
           (Examples.t0 + 3600000) 3600000 7 (Some "ls") Examples.exited "s1" Examples.s1
           ManagerFacts.reachable_exited eq_refl ltac:(vm_compute; discriminate)).
Defined.

(* ================================================================== *)
(** * Further properties of the directory tracker *)

Module TrackerFacts2.

Lemma isAbsolute_inv (p : string) :
  Path.isAbsolute p = true -> exists r, p = String "/" r.
Proof.
  destruct p as [|c r]; simpl; [discriminate|].
  destruct c as [[] [] [] [] [] [] [] []]; simpl; try discriminate.
  intros _. now exists r.
Qed.

Lemma dirname_absolute (p : string) :
  Path.isAbsolute p = true -> Path.isAbsolute (Path.dirname p) = true.
Proof.
  intros Hp. destruct (isAbsolute_inv p Hp) as [r ->].
  unfold Path.dirname. simpl.
  destruct (Path.dropWhile (fun c => negb (Path.isSlash c))
              (Path.dropWhile Path.isSlash (rev (list_ascii_of_string r))))
    as [|x l]; [reflexivity|].
  simpl. destruct (List.length l); reflexivity.
Qed.

Lemma normalize_absolute (r : string) :
  Path.isAbsolute (Path.normalize (String "/" r)) = true.
Proof.
  unfold Path.normalize. simpl.
  destruct (Path.normalizeString (String "/" r) false); [reflexivity|].
  destruct (JS.endsWith (String "/" r) "/"); reflexivity.
Qed.

Lemma join_absolute (a b : string) :
  Path.isAbsolute a = true -> Path.isAbsolute (Path.join a b) = true.
Proof.
  intros Ha. destruct (isAbsolute_inv a Ha) as [r ->].
  unfold Path.join. simpl.
  destruct (String.eqb b ""); simpl; apply normalize_absolute.
Qed.

Lemma resolve_absolute (cwd a b : string) :
  Path.isAbsolute a = true -> Path.isAbsolute (Path.resolve cwd a b) = true.
Proof.
  intros Ha. destruct (isAbsolute_inv a Ha) as [r ->].
  unfold Path.resolve. simpl.
  destruct (String.eqb b ""); simpl; [reflexivity|].
  destruct (Path.isAbsolute b); reflexivity.
Qed.

Lemma dropSpaces_split (s : string) :
  exists lead,
    s = lead ++ Tracker.dropSpaces s /\ allSpaces lead = true
    /\ startsBlank (Tracker.dropSpaces s) = false.
Proof.
  induction s as [|c s [lead [Heq [Hl Hs]]]]; simpl.
  - exists "". now repeat split.
  - destruct (JS.isWhiteSpace c) eqn:Hc.
    + exists (String c lead). simpl. rewrite Hc, Hl. repeat split; [|assumption].
      now rewrite <- Heq.
    + exists "". simpl. now repeat split.
Qed.

Lemma dropSpaces_app (ws s : string) :
  allSpaces ws = true -> Tracker.dropSpaces (ws ++ s) = Tracker.dropSpaces s.
Proof.
  induction ws as [|c ws IH]; simpl; [reflexivity|].
  intros H. apply andb_true_iff in H. destruct H as [Hc Hws].
  rewrite Hc. now apply IH.
Qed.

Lemma dropSpaces_fixed (s : string) :
  startsBlank s = false -> Tracker.dropSpaces s = s.
Proof. destruct s as [|c s]; simpl; [reflexivity|]. now intros ->. Qed.

Lemma length_append (a b : string) :
  String.length (a ++ b) = (String.length a + String.length b)%nat.
Proof. induction a as [|c a IH]; simpl; [reflexivity | now rewrite IH]. Qed.

(** The two letters the pattern asks for. *)
Lemma cdMatch_letters (command : string) :
  Tracker.cdMatch command =
    match Tracker.dropSpaces command with
    | String c (String d rest) =>
        if Ascii.eqb c "c" && Ascii.eqb d "d" then
          let arg := Tracker.dropSpaces rest in
          if (String.length arg <? String.length rest)%nat
             && negb (Tracker.anyChar JS.isLineTerminator arg)
          then Some arg else None
        else None
    | _ => None
    end.
Proof.
  unfold Tracker.cdMatch. destruct (Tracker.dropSpaces command) as [|c [|d rest]].
  - reflexivity.
  - destruct c as [[] [] [] [] [] [] [] []]; reflexivity.
  - destruct c as [[] [] [] [] [] [] [] []]; try reflexivity.
    destruct d as [[] [] [] [] [] [] [] []]; reflexivity.
Qed.

End TrackerFacts2.

(** X9. When the tracked directory and the home directory are absolute, the
    tracked directory is absolute after every command: no [cd], of whatever
    form, makes it relative. *)
Theorem tracker_keeps_absolute (h : Host) (wd command : string) :
  Path.isAbsolute wd = true ->
  Path.isAbsolute (homedir h) = true ->
  Path.isAbsolute (Tracker.updateWorkingDirectory h wd command) = true.
Proof.
  intros Hwd Hhome. unfold Tracker.updateWorkingDirectory.
  destruct (Tracker.cdMatch command) as [g|]; [|assumption].
  set (t := if Tracker.isQuoted (JS.trim g) then JS.slice_1_m1 (JS.trim g) else JS.trim g).
  destruct (Path.isAbsolute t) eqn:Ht; simpl; [assumption|].
  destruct (String.eqb t ".."); [now apply TrackerFacts2.dirname_absolute|].
  destruct (String.eqb t "~"); [assumption|].
  destruct (JS.startsWith t "~/"); [now apply TrackerFacts2.join_absolute|].
  now apply TrackerFacts2.resolve_absolute.
Qed.

Lemma tracker_keeps_absolute_witness :
  Path.isAbsolute
    (Tracker.updateWorkingDirectory Examples.host "/tmp/a" "cd ../../../x/./y") = true.
Proof.
  exact (tracker_keeps_absolute Examples.host "/tmp/a" "cd ../../../x/./y"
           eq_refl eq_refl).
Defined.

(** X10. What counts as a [cd] command: the command matches, with argument
    [g], exactly when it is white space, then the letters cd, then white
    space at least once, then [g], where [g] does not begin with white space
    and holds no line break.  So white space before [cd] is skipped, [cd]
    alone or glued to a word does not match, and everything after the
    separating white space, to the end of the command, is the argument. *)
Theorem cdMatch_characterised (command g : string) :
  Tracker.cdMatch command = Some g <->
  exists lead ws,
    command = lead ++ "cd" ++ ws ++ g
    /\ allSpaces lead = true /\ allSpaces ws = true /\ ws <> ""
    /\ startsBlank g = false /\ Tracker.anyChar JS.isLineTerminator g = false.
Proof.
  rewrite TrackerFacts2.cdMatch_letters. split.
  - destruct (TrackerFacts2.dropSpaces_split command) as [lead [Heq [Hl _]]].
    destruct (Tracker.dropSpaces command) as [|c [|d rest]]; try discriminate.
    destruct (Ascii.eqb_spec c "c") as [->|]; [|discriminate].
    destruct (Ascii.eqb_spec d "d") as [->|]; [|discriminate].
    simpl. destruct (TrackerFacts2.dropSpaces_split rest) as [ws [Hr [Hws Hg]]].
    destruct (Nat.ltb_spec (String.length (Tracker.dropSpaces rest)) (String.length rest))
      as [Hlt|]; [|discriminate].
    destruct (Tracker.anyChar JS.isLineTerminator (Tracker.dropSpaces rest)) eqn:Hlt2;
      [discriminate|].
    simpl. intros [= <-]. exists lead, ws. repeat split; try assumption.
    + rewrite Heq at 1. simpl. now rewrite <- Hr.
    + intros ->. simpl in Hr. rewrite <- Hr in Hlt. lia.
  - intros [lead [ws [-> [Hl [Hws [Hne [Hg Hlt]]]]]]].
    rewrite TrackerFacts2.dropSpaces_app by assumption. simpl.
    rewrite TrackerFacts2.dropSpaces_app by assumption.
    rewrite TrackerFacts2.dropSpaces_fixed by assumption.
    rewrite Hlt, TrackerFacts2.length_append. simpl.
    destruct ws as [|c ws]; [contradiction|]. simpl.
    destruct (Nat.ltb_spec (String.length g) (S (String.length ws + String.length g)));
      [reflexivity | lia].
Qed.

(* ================================================================== *)
(** * Further properties of command completion *)

Module CompletionFacts2.
Import Completion.

(** A completed call whose listeners are attached keeps recording. *)
Lemma run_after_timeout h (tr : list Event) (c : Call) :
  completed c = true -> onDataOn c = true -> onErrorDataOn c = true ->
  run h c tr =
    mkCall (marker c) (errorMarker c) (c_stdout c ++ stdoutOf tr)
      (c_stderr c ++ stderrOf tr) true
      (match tr with [] => timeoutId c | _ => timeoutId c && noTimer tr end)
      true true (resolved c) (thrown c).
Proof.
  revert c. induction tr as [|e tr IH]; intros c Hd H1 H2.
  - destruct c; simpl in *; subst. now rewrite !append_nil_r.
  - destruct c as [m em so se done timer l1 l2 res thr]. simpl in *. subst.
    change (run h ?c0 (e :: tr)) with (run h (deliver h c0 e) tr).
    destruct e as [d|d|]; unfold deliver; simpl.
    + unfold onData; simpl.
      assert (Hc1 : (if JS.includes d m
                     then mkCall m em (so ++ d) se true timer true true res thr
                     else mkCall m em (so ++ d) se true timer true true res thr)
                    = mkCall m em (so ++ d) se true timer true true res thr)
        by now destruct (JS.includes d m).
      rewrite Hc1. rewrite IH by reflexivity. simpl. rewrite append_assoc.
      destruct tr; simpl; [now rewrite andb_true_r | reflexivity].
    + unfold onErrorData; simpl. rewrite IH by reflexivity. simpl.
      rewrite append_assoc.
      destruct tr; simpl; [now rewrite andb_true_r | reflexivity].
    + destruct timer; simpl; rewrite IH by reflexivity; simpl;
        destruct tr; reflexivity.
Qed.

(** After a chunk with the marker has reached an open call, nothing
    changes the call. *)
Lemma run_after_marker h (tr : list Event) (c : Call) (d : string) :
  completed c = false -> onDataOn c = true ->
  JS.includes d (marker c) = true ->
  run h (deliver h c (StdoutData d)) tr = deliver h c (StdoutData d).
Proof.
  intros Hd Hl Hi. destruct c as [m em so se done timer l1 l2 res thr].
  simpl in *. subst. unfold deliver, onData. simpl. rewrite Hi.
  destruct (RegExp.create (regexp h) m) as [re|];
    [destruct (RegExp.create (regexp h) em) as [reErr|]|];
    now rewrite CompletionFacts.run_inert.
Qed.

End CompletionFacts2.

(** X11. What a resolved call still does, in
    [TerminalSession.executeCommand] and [executeCommandInShell].  After the
    marker has resolved it, its listeners are detached and its timer is
    cleared: no later event changes anything.  After the deadline has
    resolved it, its listeners stay attached: every later chunk, a marker
    included, is still appended to the call's buffers, and [resolve] is not
    called again. *)
Theorem resolved_call_listeners (h : Host) (c : Completion.Call) (tr : list Event) :
  Completion.completed c = false ->
  Completion.onDataOn c = true ->
  Completion.onErrorDataOn c = true ->
  Completion.timeoutId c = true ->
  (forall d,
      JS.includes d (Completion.marker c) = true ->
      Completion.run h (Completion.deliver h c (StdoutData d)) tr
      = Completion.deliver h c (StdoutData d))
  /\ (let late := Completion.run h (Completion.deliver h c TimerFired) tr in
      Completion.c_stdout late = Completion.c_stdout c ++ Completion.stdoutOf tr
      /\ Completion.c_stderr late = Completion.c_stderr c ++ Completion.stderrOf tr
      /\ Completion.onDataOn late = true /\ Completion.onErrorDataOn late = true
      /\ Completion.resolved late
         = (Completion.resolved c ++ [Completion.timeoutOutcome c])%list).
Proof.
  intros Hd H1 H2 Ht. split.
  - intros d Hi. now apply CompletionFacts2.run_after_marker.
  - destruct c as [m em so se done timer l1 l2 res thr]. simpl in *. subst.
    unfold Completion.deliver. simpl.
    rewrite CompletionFacts2.run_after_timeout by reflexivity.
    simpl. now repeat split.
Qed.

Lemma resolved_call_listeners_witness :
  Completion.c_stdout
    (Completion.run Examples.host (Completion.deliver Examples.host Examples.call0 TimerFired)
       [StdoutData "late"; StdoutData Examples.marker])
  = "late" ++ Examples.marker.
Proof.
  exact (proj1 (proj2 (resolved_call_listeners Examples.host Examples.call0
                         [StdoutData "late"; StdoutData Examples.marker]
                         eq_refl eq_refl eq_refl eq_refl))).
Defined.

Module LegacyFacts2.
Import Legacy.

(** [cleanup()] runs on both ways out: a completed call does not listen. *)
Lemma deliver_deaf (c : Call) (e : Event) :
  (completed c = true -> listening c = false) ->
  (completed (deliver c e) = true -> listening (deliver c e) = false).
Proof.
  destruct c as [m ch ech done timer chk stop lis res]. simpl. intros H.
  destruct e as [d|d| | |]; simpl.
  - destruct lis; simpl; assumption.
  - destruct lis; simpl; assumption.
  - destruct timer; simpl; [|assumption].
    unfold onTimeout; simpl. destruct done; simpl; [assumption | reflexivity].
  - destruct chk; simpl; [|assumption].
    unfold onTick; simpl. destruct (JS.includes (concat ch) m); simpl; [|assumption].
    destruct done; simpl; [assumption | reflexivity].
  - destruct stop; simpl; assumption.
Qed.

Lemma run_deaf (tr : list Event) (c : Call) :
  (completed c = true -> listening c = false) ->
  (completed (run c tr) = true -> listening (run c tr) = false).
Proof.
  revert c. induction tr as [|e tr IH]; intros c Hc; simpl; [assumption|].
  apply IH. now apply deliver_deaf.
Qed.

Lemma run_closed (tr : list Event) (c : Call) :
  completed c = true -> listening c = false ->
  chunks (run c tr) = chunks c /\ errorChunks (run c tr) = errorChunks c
  /\ resolved (run c tr) = resolved c.
Proof.
  revert c. induction tr as [|e tr IH]; intros c Hd Hl; simpl; [now repeat split|].
  destruct c as [m ch ech done timer chk stop lis res]. simpl in *. subst.
  destruct e as [d|d| | |]; simpl.
  - apply (IH (mkCall m ch ech true timer chk stop false res)); reflexivity.
  - apply (IH (mkCall m ch ech true timer chk stop false res)); reflexivity.
  - destruct timer; simpl.
    + apply (IH (mkCall m ch ech true false chk stop false res)); reflexivity.
    + apply (IH (mkCall m ch ech true false chk stop false res)); reflexivity.
  - destruct chk; simpl.
    + unfold onTick; simpl. destruct (JS.includes (concat ch) m); simpl.
      * apply (IH (mkCall m ch ech true timer false stop false res)); reflexivity.
      * apply (IH (mkCall m ch ech true timer true stop false res)); reflexivity.
    + apply (IH (mkCall m ch ech true timer false stop false res)); reflexivity.
  - destruct stop; simpl.
    + apply (IH (mkCall m ch ech true timer false false false res)); reflexivity.
    + apply (IH (mkCall m ch ech true timer chk false false res)); reflexivity.
Qed.

End LegacyFacts2.

(** X12. In the first server both ways out of a call run [cleanup()]: once
    the call is resolved, by the marker or by the deadline, no later chunk is
    recorded and nothing is resolved again, whatever events follow. *)
Theorem legacy_resolved_call_is_closed (m : string) (tr1 tr2 : list Legacy.Event) :
  let c := Legacy.run (Legacy.start m) tr1 in
  Legacy.completed c = true ->
  Legacy.chunks (Legacy.run c tr2) = Legacy.chunks c
  /\ Legacy.errorChunks (Legacy.run c tr2) = Legacy.errorChunks c
  /\ Legacy.resolved (Legacy.run c tr2) = Legacy.resolved c.
Proof.
  intros c Hd. apply LegacyFacts2.run_closed; [assumption|].
  apply (LegacyFacts2.run_deaf tr1 (Legacy.start m)); [discriminate | assumption].
Qed.

Lemma legacy_resolved_call_is_closed_witness :
  Legacy.chunks
    (Legacy.run (Legacy.start Examples.marker)
       ([Legacy.StdoutData "partial"; Legacy.TimeoutFired]
        ++ [Legacy.StdoutData Examples.marker; Legacy.IntervalTick]))
  = ["partial"].
Proof.
  rewrite LegacyFacts.poll_run_app.
  exact (proj1 (legacy_resolved_call_is_closed Examples.marker
                  [Legacy.StdoutData "partial"; Legacy.TimeoutFired]
                  [Legacy.StdoutData Examples.marker; Legacy.IntervalTick] eq_refl)).
Defined.

(* ================================================================== *)
(** * The markers *)

Module MarkerFacts.

Lemma append_inv_head (a x y : string) : a ++ x = a ++ y -> x = y.
Proof.
  induction a as [|c a IH]; simpl; [trivial|]. intros [= H]. now apply IH.
Qed.

Lemma list_of_append (a b : string) :
  list_ascii_of_string (a ++ b) = (list_ascii_of_string a ++ list_ascii_of_string b)%list.
Proof. induction a as [|c a IH]; simpl; [reflexivity | now rewrite IH]. Qed.

Lemma append_inv_tail (x y s : string) : x ++ s = y ++ s -> x = y.
Proof.
  intros H. apply (f_equal list_ascii_of_string) in H.
  rewrite !list_of_append in H. apply app_inv_tail in H.
  apply (f_equal string_of_list_ascii) in H.
  now rewrite !string_of_list_ascii_of_string in H.
Qed.

Lemma showZ_inj (a b : Z) : JS.showZ a = JS.showZ b -> a = b.
Proof.
  unfold JS.showZ. intros H. apply DecimalZ.to_int_inj.
  apply (f_equal NilEmpty.int_of_string) in H.
  rewrite !NilEmpty.isi in H. now injection H.
Qed.

Lemma showN_inj (a b : N) : JS.showN a = JS.showN b -> a = b.
Proof.
  unfold JS.showN. intros H. apply DecimalN.Unsigned.to_uint_inj.
  apply (f_equal NilEmpty.uint_of_string) in H.
  rewrite !NilEmpty.usu in H. now injection H.
Qed.

End MarkerFacts.

(** X13. Two commands of one session get the same completion marker exactly
    when they start in the same millisecond, in all three servers; and a
    completion marker is never an error marker. *)
Theorem markers_differ_by_time :
  (forall i t1 t2, Session.markerAt i t1 = Session.markerAt i t2 <-> t1 = t2)
  /\ (forall t1 t2, SingleServer.markerAt t1 = SingleServer.markerAt t2 <-> t1 = t2)
  /\ (forall t1 t2, Legacy.markerAt t1 = Legacy.markerAt t2 <-> t1 = t2)
  /\ (forall i t i' t',
         String.eqb (Session.markerAt i t) (Session.errorMarkerAt i' t') = false)
  /\ (forall t t',
         String.eqb (SingleServer.markerAt t) (SingleServer.errorMarkerAt t') = false).
Proof.
  repeat apply conj.
  - intros i t1 t2. split; [|now intros ->]. unfold Session.markerAt. intros H.
    apply MarkerFacts.append_inv_head in H. apply MarkerFacts.append_inv_head in H.
    apply (MarkerFacts.append_inv_head "_") in H.
    apply MarkerFacts.append_inv_tail in H. now apply MarkerFacts.showZ_inj.
  - intros t1 t2. split; [|now intros ->]. unfold SingleServer.markerAt. intros H.
    apply MarkerFacts.append_inv_head in H.
    apply MarkerFacts.append_inv_tail in H. now apply MarkerFacts.showZ_inj.
  - intros t1 t2. split; [|now intros ->]. unfold Legacy.markerAt. intros H.
    apply MarkerFacts.append_inv_head in H.
    apply MarkerFacts.append_inv_tail in H. now apply MarkerFacts.showZ_inj.
  - intros i t i' t'. reflexivity.
  - intros t t'. reflexivity.
Qed.

(** X14. While every id in the map is one that [createSession] generated
    from a smaller value of the counter (no caller chose an id), a call
    without an id cannot fail: it creates the session [terminal_<nextId>],
    and the same holds of the manager it leaves. *)
Theorem generated_ids_never_collide (h : Host) (now : Z) (o : Options)
    (m : TerminalManager) :
  generatedBelow m ->
  JS.orElse (o_id o) "" = "" ->
  let i := "terminal_" ++ JS.showN (nextId m) in
  Manager.createSession h now o m
  = (mkManager (sessions m ++ [(i, Session.create h now i o)]) (nextId m + 1),
     Normal (Session.create h now i o))
  /\ generatedBelow (fst (Manager.createSession h now o m)).
Proof.
  intros Hg Ho i. subst i.
  assert (Hfresh : AList.has ("terminal_" ++ JS.showN (nextId m)) (sessions m) = false).
  { apply not_true_is_false. intros Hhas. apply AListFacts.has_in_keys in Hhas.
    destruct (Hg _ Hhas) as [k [Hlt Heq]].
    apply MarkerFacts.append_inv_head in Heq. apply MarkerFacts.showN_inj in Heq. lia. }
  assert (Hc : Manager.createSession h now o m
               = (mkManager
                    (sessions m ++
                       [("terminal_" ++ JS.showN (nextId m),
                         Session.create h now ("terminal_" ++ JS.showN (nextId m)) o)])
                    (nextId m + 1),
                  Normal (Session.create h now ("terminal_" ++ JS.showN (nextId m)) o))).
  { unfold Manager.createSession.
    destruct (o_id o) as [[|c s]|]; simpl in Ho; try discriminate;
      rewrite Hfresh; reflexivity. }
  split; [exact Hc|]. rewrite Hc. simpl. intros key Hin. simpl in Hin.
  rewrite AListFacts.keys_app in Hin. apply in_app_or in Hin.
  destruct Hin as [Hin|[<-|[]]].
  - destruct (Hg _ Hin) as [k [Hlt Heq]]. exists k. split; [simpl; lia | assumption].
  - exists (nextId m). split; [simpl; lia | reflexivity].
Qed.

Lemma generated_ids_never_collide_witness :
  AList.keys
    (sessions
       (fst (Manager.createSession Examples.host Examples.t0 noOptions
               (fst (Manager.createSession Examples.host Examples.t0 noOptions
                       Manager.empty)))))
  = ["terminal_1"; "terminal_2"].
Proof.
  pose proof (@generated_ids_never_collide Examples.host Examples.t0 noOptions
                Manager.empty ltac:(intros key []) eq_refl) as [H1 Hg].
  pose proof (@generated_ids_never_collide Examples.host Examples.t0 noOptions
                _ Hg eq_refl) as [H2 _].
  rewrite H2. reflexivity.
Defined.

(* ================================================================== *)
(** * Further properties of the request handlers *)

Module HandlerFacts.

(** The command line is the last line the shell has received. *)
Lemma executeCommand_writes h now newPid s cmd :
  exists p,
    process (fst (Session.executeCommand h now newPid s cmd)) = Some p
    /\ last (stdinLog p) "" =
         Session.commandLine h (showOpt cmd) (Session.markerAt (id s) now)
           (Session.errorMarkerAt (id s) now).
Proof.
  unfold Session.executeCommand, Session.needsInit, Session.initialize.
  destruct s as [i [[n k log]|] wd env act la sh sa]; simpl;
    destruct act; try destruct k; destruct cmd; simpl;
    eexists; (split; [reflexivity|]); simpl; apply last_last.
Qed.

(** With a command, the promise is created and the tracker has run. *)
Lemma executeCommand_some h now newPid s c :
  (exists call, snd (Session.executeCommand h now newPid s (Some c)) = Normal call)
  /\ workingDirectory (fst (Session.executeCommand h now newPid s (Some c)))
     = Tracker.updateWorkingDirectory h (workingDirectory s) c.
Proof.
  unfold Session.executeCommand, Session.needsInit, Session.initialize.
  destruct s as [i [[n k log]|] wd env act la sh sa]; simpl;
    destruct act; try destruct k; simpl; (split; [eexists|]; reflexivity).
Qed.

Lemma set_snoc (V : Type) (i : string) (v w : V) (l : list (string * V)) :
  AList.has i l = false ->
  AList.set i w (l ++ [(i, v)]) = (l ++ [(i, w)])%list.
Proof.
  unfold AList.has. induction l as [|[k x] l IH]; simpl.
  - now rewrite String.eqb_refl.
  - destruct (String.eqb i k); [discriminate|]. intros H. now rewrite IH.
Qed.

(** While a command is awaited the session changes by the child's
    ['error'] and ['exit'] listeners only: they clear [isActive]. *)
Lemma await_session h (tr : list SessionEvent) (r : Session.Running) :
  (fst (fst (Session.await h r tr)) = fst r
   \/ fst (fst (Session.await h r tr)) = Session.processExited (fst r))
  /\ (childStays tr = true -> fst (fst (Session.await h r tr)) = fst r).
Proof.
  revert r. induction tr as [|e tr IH]; intros [s c]; simpl.
  - destruct (Completion.thrown c); [now split; [left|]|].
    destruct (Completion.resolved c); now split; [left|].
  - destruct (Completion.thrown c); [now split; [left|]|].
    destruct (Completion.resolved c); [|now split; [left|]].
    destruct e as [e'| |]; simpl.
    + apply (IH (s, Completion.deliver h c e')).
    + destruct (IH (Session.processExited s, c)) as [[H|H] _]; simpl in H;
        (split; [right; exact H | discriminate]).
    + destruct (IH (Session.processExited s, c)) as [[H|H] _]; simpl in H;
        (split; [right; exact H | discriminate]).
Qed.

(** [await session.executeCommand(c)] for a command that is there: the
    session in the map is the one the wait leaves, and the value is what the
    wait gives. *)
Lemma runCommand_some h now newPid s c tr m :
  exists s1 call,
    Session.executeCommand h now newPid s (Some c) = (s1, Normal call)
    /\ MultiServer.runCommand h now newPid s (Some c) tr m =
         (Manager.store (fst (fst (Session.await h (s1, call) tr))) m,
          match snd (Session.await h (s1, call) tr) with
          | Normal o => Normal (fst (fst (Session.await h (s1, call) tr)), o)
          | Throw e => Throw e
          | Pending => Pending
          | Uncaught e => Uncaught e
          end).
Proof.
  destruct (executeCommand_some h now newPid s c) as [[call Hc] _].
  destruct (Session.executeCommand h now newPid s (Some c)) as [s1 rc] eqn:He.
  simpl in Hc. subst rc. exists s1, call. split; [reflexivity|].
  unfold MultiServer.runCommand. rewrite He.
  destruct (Session.await h (s1, call) tr) as [[s3 c3] [o|e| |u]]; reflexivity.
Qed.

(** What [executeCommand] and the wait after it leave of a session. *)
Lemma command_session h now newPid s c tr :
  exists s1 call,
    Session.executeCommand h now newPid s (Some c) = (s1, Normal call)
    /\ (let s3 := fst (fst (Session.await h (s1, call) tr)) in
        id s3 = id s
        /\ workingDirectory s3 = Tracker.updateWorkingDirectory h (workingDirectory s) c
        /\ (childStays tr = true -> isActive s3 = true)).
Proof.
  destruct (executeCommand_some h now newPid s c) as [[call Hc] Hwd].
  destruct (SessionFacts.executeCommand_active h now newPid s (Some c)) as [Ha [_ Hi]].
  destruct (Session.executeCommand h now newPid s (Some c)) as [s1 rc] eqn:He.
  simpl in Hc, Hwd, Ha, Hi. subst rc. exists s1, call. split; [reflexivity|].
  destruct (await_session h tr (s1, call)) as [Hs3 Hstay]. simpl in Hs3, Hstay.
  intros s3. fold s3 in Hs3, Hstay. repeat split.
  - destruct Hs3 as [-> | ->]; exact Hi.
  - destruct Hs3 as [-> | ->]; exact Hwd.
  - intros Hc. rewrite (Hstay Hc). exact Ha.
Qed.

End HandlerFacts.

(** X15. A request without a command.  In [terminal_mcp_new.js] the text
    [undefined] has already been written to the shell, followed by the echo
    of the marker, when [command.match] throws; the answer is the error
    response for that [TypeError], and the session keeps the changes made up
    to there.  In the single-shell server the persistent branch writes the
    same line and throws nothing, and the [exec] branch answers with the
    error response and changes nothing. *)
Theorem missing_command_reaches_shell (h : Host) (t : option Z) :
  (forall w i o m s,
      AList.get i (sessions m) = Some s ->
      let s' := fst (Session.executeCommand h (MultiServer.now1 w)
                       (MultiServer.newPid w) s None) in
      MultiServer.handler h w
        (MultiServer.mkRequest "execute_command"
           (Some (MultiServer.mkArgs (Some i) None t o))) m
      = (Manager.store s' m, Normal (errorResponse (readUndefined "match")))
      /\ exists p,
           process s' = Some p
           /\ last (stdinLog p) "" =
                Session.commandLine h "undefined"
                  (Session.markerAt (id s) (MultiServer.now1 w))
                  (Session.errorMarkerAt (id s) (MultiServer.now1 w)))
  /\ (forall w st,
         SingleServer.handler h w
           (SingleServer.mkRequest "execute_command"
              (Some (SingleServer.mkArgs None t (Some true)))) st
         = (st, Normal (errorResponse (readUndefined "match"))))
  /\ (forall w st flag,
         SingleServer.notTrue flag = true ->
         exists p,
           SingleServer.shellProcess
             (fst (SingleServer.handler h w
                     (SingleServer.mkRequest "execute_command"
                        (Some (SingleServer.mkArgs None t flag))) st)) = Some p
           /\ last (stdinLog p) "" =
                Session.commandLine h "undefined"
                  (SingleServer.markerAt (SingleServer.now w))
                  (SingleServer.errorMarkerAt (SingleServer.now w))).
Proof.
  repeat apply conj.
  - intros w i o m s Hg s'. split.
    + unfold MultiServer.handler, tryCatch, MultiServer.dispatch. simpl.
      unfold MultiServer.execute_command, bind, property, ret, Manager.getSession.
      simpl. rewrite Hg. unfold MultiServer.runCommand. subst s'.
      destruct (Session.executeCommand h (MultiServer.now1 w) (MultiServer.newPid w) s None)
        as [s2 rc] eqn:He.
      unfold Session.executeCommand in He. injection He as <- <-. reflexivity.
    + apply (HandlerFacts.executeCommand_writes h (MultiServer.now1 w)
               (MultiServer.newPid w) s None).
  - intros w st. reflexivity.
  - intros w st flag Hf. unfold SingleServer.handler. rewrite tryCatch_state.
    unfold SingleServer.dispatch. simpl.
    rewrite SingleFacts.execute_command_persistent by assumption.
    apply (SingleFacts.executeCommandInShell_writes h (SingleServer.now w)
             (SingleServer.newPid w) st None).
Qed.

Lemma missing_command_reaches_shell_witness :
  snd (MultiServer.handler Examples.host
         (MultiServer.mkWorld Examples.t0 Examples.t0 7 8 [] [])
         (MultiServer.mkRequest "execute_command"
            (Some (MultiServer.mkArgs (Some "s1") None None noOptions)))
         Examples.exited)
  = Normal (mkResponse "Error: Cannot read properties of undefined (reading 'match')" true).
Proof.
  pose proof (proj1 (proj1 (missing_command_reaches_shell Examples.host None)
                       (MultiServer.mkWorld Examples.t0 Examples.t0 7 8 [] [])
                       "s1" noOptions Examples.exited Examples.s1 eq_refl)) as H.
  rewrite H. reflexivity.
Defined.

(** X16. The handlers of [terminal_mcp_new.js] that look at one terminal.
    [list_terminals] and [get_terminal_status] leave the manager as it is.
    [close_terminal] on an id that is not in the map answers "not found"
    with [isError: true] and changes nothing; on an id in the map it answers
    "closed successfully", removes that session only, and a following
    [get_terminal_status] for the id answers with the error "not found". *)
Theorem close_then_status (h : Host) (w : MultiServer.World) (t : option Z)
    (o : Options) (i : string) (m : TerminalManager) :
  Manager.reachable m ->
  let close :=
    MultiServer.mkRequest "close_terminal" (Some (MultiServer.mkArgs (Some i) None t o)) in
  let status :=
    MultiServer.mkRequest "get_terminal_status"
      (Some (MultiServer.mkArgs (Some i) None t o)) in
  (forall args,
      exists r,
        MultiServer.handler h w (MultiServer.mkRequest "list_terminals" args) m
        = (m, Normal r) /\ isError r = false)
  /\ (forall args,
         fst (MultiServer.handler h w
                (MultiServer.mkRequest "get_terminal_status" args) m) = m)
  /\ (AList.has i (sessions m) = false ->
      MultiServer.handler h w close m
      = (m, Normal (mkResponse ("Terminal session '" ++ i ++ "' not found") true)))
  /\ (AList.has i (sessions m) = true ->
      let m' := mkManager (AList.delete i (sessions m)) (nextId m) in
      MultiServer.handler h w close m
      = (m', Normal (mkResponse ("Terminal session '" ++ i ++ "' closed successfully")
                       false))
      /\ MultiServer.handler h w status m'
         = (m', Normal (mkResponse ("Error: Terminal session '" ++ i ++ "' not found")
                          true))
      /\ (forall k, k <> i -> AList.get k (sessions m') = AList.get k (sessions m))).
Proof.
  intros Hr close status. subst close status.
  destruct (ManagerFacts.reachable_wf Hr) as [Hnd _].
  repeat apply conj.
  - intros args. unfold MultiServer.handler, tryCatch, MultiServer.dispatch. simpl.
    unfold MultiServer.list_terminals, bind, gets, ret.
    destruct (Manager.listSessions m); eexists; split; reflexivity.
  - intros args. unfold MultiServer.handler. rewrite tryCatch_state.
    unfold MultiServer.dispatch. simpl.
    unfold MultiServer.get_terminal_status, bind, property, ret, throw.
    destruct args as [a|]; [|reflexivity]. unfold Manager.getSession.
    destruct (MultiServer.terminal_id a) as [k|]; [|reflexivity].
    destruct (AList.get k (sessions m)); reflexivity.
  - intros Hhas. unfold MultiServer.handler, tryCatch, MultiServer.dispatch. simpl.
    unfold MultiServer.close_terminal, bind, property, ret, Manager.closeSession.
    simpl. rewrite Hhas. reflexivity.
  - intros Hhas m'. repeat apply conj.
    + unfold MultiServer.handler, tryCatch, MultiServer.dispatch. simpl.
      unfold MultiServer.close_terminal, bind, property, ret, Manager.closeSession.
      simpl. rewrite Hhas. reflexivity.
    + unfold MultiServer.handler, tryCatch, MultiServer.dispatch. simpl.
      unfold MultiServer.get_terminal_status, bind, property, ret, Manager.getSession.
      simpl. rewrite RegistryFacts.get_delete by assumption.
      rewrite String.eqb_refl. reflexivity.
    + intros k Hk. simpl. rewrite RegistryFacts.get_delete by assumption.
      destruct (String.eqb_spec k i); [contradiction | reflexivity].
Qed.

Lemma close_then_status_witness :
  MultiServer.handler Examples.host (MultiServer.mkWorld Examples.t0 Examples.t0 7 8 [] [])
    (MultiServer.mkRequest "close_terminal"
       (Some (MultiServer.mkArgs (Some "s1") None None noOptions))) Examples.exited
  = (mkManager [] 1,
     Normal (mkResponse "Terminal session 's1' closed successfully" false)).
Proof.
  exact (proj1 (proj2 (proj2 (proj2
           (@close_then_status Examples.host
              (MultiServer.mkWorld Examples.t0 Examples.t0 7 8 [] []) None noOptions "s1"
              Examples.exited ManagerFacts.reachable_exited))) eq_refl)).
Defined.

(** X17. [create_terminal] with an id that is not in the map registers the
    session and starts its shell before it answers.  Whatever reaches the
    session while [pwd] is awaited, the map holds the session at its end,
    with the spawned process, whose input is the set-up lines followed by the
    [pwd] line, and with the working directory of the options.  The session
    is as [executeCommand] left it, active, when neither the ['error'] nor
    the ['exit'] event of the child is among the events; otherwise it
    differs at most in [isActive], which is cleared when such an event is
    the first to arrive.  Once the [pwd] call is resolved, by the marker or
    by the deadline alike, the answer reports the session with
    [isError: false]; while it is not, the handler waits; and when an
    exception has left the listener, there is no answer. *)
Theorem create_terminal_starts_shell (h : Host) (w : MultiServer.World)
    (tid cmd : option string) (t : option Z) (o : Options) (i : string)
    (m : TerminalManager) :
  o_id o = Some i -> i <> "" ->
  AList.has i (sessions m) = false ->
  let req :=
    MultiServer.mkRequest "create_terminal" (Some (MultiServer.mkArgs tid cmd t o)) in
  let s0 := Session.create h (MultiServer.now1 w) i o in
  let marker := Session.markerAt i (MultiServer.now1 w) in
  let errorMarker := Session.errorMarkerAt i (MultiServer.now1 w) in
  let line := Session.commandLine h "pwd" marker errorMarker in
  let s2 :=
    mkSession i (Some (mkProc (MultiServer.newPid w) false (setupLines h ++ [line])))
      (workingDirectory s0) (environment s0) true (MultiServer.now1 w)
      (shell s0) (shellArgs s0) in
  let after :=
    Session.await h (s2, Completion.start marker errorMarker) (MultiServer.events1 w) in
  let s3 := fst (fst after) in
  fst (MultiServer.handler h w req m) = mkManager (sessions m ++ [(i, s3)]) (nextId m)
  /\ (s3 = s2 \/ s3 = Session.processExited s2)
  /\ (childStays (MultiServer.events1 w) = true -> s3 = s2)
  /\ (forall tr,
         MultiServer.events1 w = ProcessExit :: tr
         \/ MultiServer.events1 w = ProcessError :: tr ->
         s3 = Session.processExited s2)
  /\ (forall out,
         snd after = Normal out ->
         snd (MultiServer.handler h w req m)
         = Normal
             (mkResponse
                ("Terminal session '" ++ i ++ "' created successfully" ++ JS.nl
                 ++ "Working Directory: " ++ workingDirectory s0 ++ JS.nl
                 ++ "Shell: " ++ shell s0 ++ JS.nl
                 ++ "PID: " ++ JS.showN (MultiServer.newPid w) ++ JS.nl
                 ++ "PWD: " ++ JS.trim (stdout out))
                false))
  /\ (snd after = Pending -> snd (MultiServer.handler h w req m) = Pending)
  /\ (forall e, snd after = Uncaught e ->
                snd (MultiServer.handler h w req m) = Uncaught e).
Proof.
  intros Ho Hne Hhas req s0 marker errorMarker line s2 after s3.
  destruct (HandlerFacts.await_session h (MultiServer.events1 w)
              (s2, Completion.start marker errorMarker)) as [Hs3 Hstay].
  fold after in Hs3, Hstay. fold s3 in Hs3, Hstay. simpl in Hs3, Hstay.
  assert (Hid : id s3 = i) by (destruct Hs3 as [-> | ->]; reflexivity).
  assert (Hpid : process s3 = process s2) by (destruct Hs3 as [-> | ->]; reflexivity).
  assert (Hwd : workingDirectory s3 = workingDirectory s0)
    by (destruct Hs3 as [-> | ->]; reflexivity).
  assert (Hsh : shell s3 = shell s0) by (destruct Hs3 as [-> | ->]; reflexivity).
  assert (He : Session.executeCommand h (MultiServer.now1 w) (MultiServer.newPid w)
                 (Session.initialize h (MultiServer.now1 w) (MultiServer.newPid w) s0)
                 (Some "pwd")
               = (s2, Normal (Completion.start marker errorMarker))).
  { subst s2 line marker errorMarker s0.
    unfold Session.executeCommand, Session.needsInit, Session.initialize, setupLines,
      Session.commandLine. simpl. destruct (win32 h); reflexivity. }
  assert (Hrun :
    MultiServer.handler h w req m =
      (mkManager (sessions m ++ [(i, s3)]) (nextId m),
       match snd after with
       | Normal out =>
           Normal
             (mkResponse
                ("Terminal session '" ++ i ++ "' created successfully" ++ JS.nl
                 ++ "Working Directory: " ++ workingDirectory s0 ++ JS.nl
                 ++ "Shell: " ++ shell s0 ++ JS.nl
                 ++ "PID: " ++ JS.showN (MultiServer.newPid w) ++ JS.nl
                 ++ "PWD: " ++ JS.trim (stdout out))
                false)
       | Throw e => Normal (errorResponse e)
       | Pending => Pending
       | Uncaught e => Uncaught e
       end)).
  { unfold MultiServer.handler, tryCatch, MultiServer.dispatch. subst req. simpl.
    unfold MultiServer.create_terminal, bind, modify, ret, Manager.createSession.
    simpl. rewrite Ho. destruct i as [|ch i']; [contradiction|]. rewrite Hhas.
    fold s0. unfold MultiServer.runCommand. rewrite He.
    fold after. destruct after as [[s3' c3] result] eqn:Ha. simpl in s3. subst s3.
    unfold Manager.store. simpl. rewrite Hid.
    rewrite !HandlerFacts.set_snoc by assumption.
    destruct result; simpl; rewrite ?Hid, ?Hwd, ?Hsh, ?Hpid; reflexivity. }
  rewrite Hrun. simpl. repeat apply conj.
  - reflexivity.
  - exact Hs3.
  - exact Hstay.
  - intros tr Hev. subst s3 after.
    destruct (HandlerFacts.await_session h tr
                (Session.processExited s2, Completion.start marker errorMarker))
      as [Hgone _].
    destruct Hev as [-> | ->]; simpl; destruct Hgone as [Hg | Hg]; exact Hg.
  - intros out ->. reflexivity.
  - intros ->. reflexivity.
  - intros e ->. reflexivity.
Qed.

Lemma create_terminal_starts_shell_witness :
  snd (MultiServer.handler Examples.host
         (MultiServer.mkWorld Examples.t0 Examples.t0 7 8 [ProcessExit; ToCall TimerFired] [])
         (MultiServer.mkRequest "create_terminal"
            (Some (MultiServer.mkArgs None None None
                     (mkOptions (Some "s2") (Some "/tmp") None None []))))
         Examples.exited)
  = Normal
      (mkResponse
         ("Terminal session 's2' created successfully" ++ JS.nl
          ++ "Working Directory: /tmp" ++ JS.nl
          ++ "Shell: /bin/bash" ++ JS.nl
          ++ "PID: 7" ++ JS.nl
          ++ "PWD: ")
         false).
Proof.
  exact (proj1 (proj2 (proj2 (proj2 (proj2
           (@create_terminal_starts_shell Examples.host
              (MultiServer.mkWorld Examples.t0 Examples.t0 7 8
                 [ProcessExit; ToCall TimerFired] [])
              None None None (mkOptions (Some "s2") (Some "/tmp") None None []) "s2"
              Examples.exited eq_refl ltac:(discriminate) eq_refl)))))
           (mkOutcome false "" (JS.nl ++ "Command timed out") (-1)
              (Some "Command timed out"))
           eq_refl).
Defined.

(** X18. [reset_shell] forgets the shell and puts the tracked directory and
    the environment back to those of the server process; the next command
    that goes to the persistent shell starts a new shell, which receives the
    set-up lines and then the command line, and the tracked directory is
    still the one of the server process. *)
Theorem reset_shell_then_execute (h : Host) (w w' : SingleServer.World)
    (args : option SingleServer.Args) (cmd : option string) (t : option Z)
    (flag : option bool) (st : SingleServer.Shell) :
  SingleServer.notTrue flag = true ->
  let st1 := SingleServer.mkShell None (process_cwd h) (process_env h)
               (SingleServer.execCalls st) in
  let line := Session.commandLine h (showOpt cmd)
                (SingleServer.markerAt (SingleServer.now w'))
                (SingleServer.errorMarkerAt (SingleServer.now w')) in
  SingleServer.handler h w (SingleServer.mkRequest "reset_shell" args) st
  = (st1, Normal (mkResponse "Shell session reset successfully" false))
  /\ fst (SingleServer.handler h w'
            (SingleServer.mkRequest "execute_command"
               (Some (SingleServer.mkArgs cmd t flag))) st1)
     = SingleServer.mkShell
         (Some (mkProc (SingleServer.newPid w') false (setupLines h ++ [line])))
         (process_cwd h) (process_env h) (SingleServer.execCalls st).
Proof.
  intros Hf st1 line. split; [reflexivity|].
  unfold SingleServer.handler. rewrite tryCatch_state.
  unfold SingleServer.dispatch. simpl.
  rewrite SingleFacts.execute_command_persistent by assumption.
  subst st1 line. unfold SingleServer.executeCommandInShell, setupLines. simpl.
  destruct (win32 h); reflexivity.
Qed.

Lemma reset_shell_then_execute_witness :
  SingleServer.currentWorkingDirectory
    (fst (SingleServer.handler Examples.host
            (SingleServer.mkWorld Examples.t0 9 [] (SingleServer.mkExecResult None "" ""))
            (SingleServer.mkRequest "execute_command"
               (Some (SingleServer.mkArgs (Some "ls") None None)))
            (SingleServer.mkShell None "/srv" [] [])))
  = "/srv".
Proof.
  exact (f_equal SingleServer.currentWorkingDirectory
           (proj2 (@reset_shell_then_execute Examples.host
                     (SingleServer.mkWorld Examples.t0 9 [] (SingleServer.mkExecResult None "" ""))
                     (SingleServer.mkWorld Examples.t0 9 [] (SingleServer.mkExecResult None "" ""))
                     None (Some "ls") None None (SingleServer.boot Examples.host) eq_refl))).
Defined.

(** X19. What the first server answers.  When the deadline resolves a call
    that is open after the events [tr], the answer's text is the standard
    output accumulated so far and [isError] is [true]: neither the standard
    error nor the "Command timed out" notice is in the answer.  When a poll
    finds the marker, the text is the cleaned standard output and [isError]
    is [false].  Either way the shell has received the command followed by
    the echo of the marker. *)
Theorem legacy_handler_answers (w : LegacyServer.World) (cmd : option string)
    (t : option Z) (st : LegacyServer.Shell) (tr tr2 : list Legacy.Event) :
  let req := LegacyServer.mkRequest "execute_command" (Some (LegacyServer.mkArgs cmd t)) in
  let c := Legacy.run (Legacy.start (Legacy.markerAt (LegacyServer.now w))) tr in
  Legacy.completed c = false ->
  (LegacyServer.events w = (tr ++ Legacy.TimeoutFired :: tr2)%list ->
   snd (LegacyServer.handler w req st)
   = Normal (mkResponse (Legacy.concat (Legacy.chunks c)) true))
  /\ (LegacyServer.events w = (tr ++ Legacy.IntervalTick :: tr2)%list ->
      Legacy.checkOutput c = true ->
      JS.includes (Legacy.concat (Legacy.chunks c)) (Legacy.marker c) = true ->
      snd (LegacyServer.handler w req st)
      = Normal (mkResponse
                  (JS.trim (JS.replaceFirst (Legacy.concat (Legacy.chunks c))
                              (Legacy.marker c)))
                  false))
  /\ (exists p,
         fst (LegacyServer.handler w req st) = Some p
         /\ last (stdinLog p) ""
            = showOpt cmd ++ " && echo " ++ Legacy.markerAt (LegacyServer.now w)
              ++ JS.cr ++ JS.nl).
Proof.
  intros req c Hd.
  pose proof (LegacyFacts.poll_first_wins
                (LegacyFacts.poll_settled_start (Legacy.markerAt (LegacyServer.now w)))
                tr Hd) as [Hmark Htime].
  fold c in Hmark, Htime.
  assert (Hh : LegacyServer.handler w req st
               = (fst (LegacyServer.executeCommand w st cmd),
                  match LegacyServer.await
                          (Legacy.start (Legacy.markerAt (LegacyServer.now w)))
                          (LegacyServer.events w) with
                  | Normal result =>
                      Normal (mkResponse (stdout result) (negb (success result)))
                  | Throw e => Throw e
                  | Pending => Pending
                  | Uncaught e => Uncaught e
                  end)).
  { subst req. unfold LegacyServer.handler, bind, property, ret. simpl.
    now destruct (LegacyServer.await _ (LegacyServer.events w)). }
  rewrite Hh. simpl. repeat apply conj.
  - intros He. unfold LegacyServer.await. rewrite He, Htime. reflexivity.
  - intros He Hc Hi. unfold LegacyServer.await. rewrite He, (Hmark tr2 Hc Hi). reflexivity.
  - destruct st as [[n k log]|]; simpl; [destruct k; simpl|];
      eexists; (split; [reflexivity|]); simpl;
      first [apply last_last | reflexivity].
Qed.

Lemma legacy_handler_answers_witness :
  snd (LegacyServer.handler
         (LegacyServer.mkWorld Examples.t0 7
            ([Legacy.StdoutData "partial"; Legacy.StderrData "oops"; Legacy.IntervalTick]
             ++ Legacy.TimeoutFired :: [Legacy.StopCheckFired]))
         (LegacyServer.mkRequest "execute_command"
            (Some (LegacyServer.mkArgs (Some "dir") None)))
         None)
  = Normal (mkResponse "partial" true).
Proof.
  exact (proj1 (@legacy_handler_answers
                  (LegacyServer.mkWorld Examples.t0 7
                     ([Legacy.StdoutData "partial"; Legacy.StderrData "oops";
                       Legacy.IntervalTick]
                      ++ Legacy.TimeoutFired :: [Legacy.StopCheckFired]))
                  (Some "dir") None None
                  [Legacy.StdoutData "partial"; Legacy.StderrData "oops"; Legacy.IntervalTick]
                  [Legacy.StopCheckFired] eq_refl)
           eq_refl).
Defined.

(** X20. In [terminal_mcp_new.js] the tracked directory moves when the
    command is issued, not when it has succeeded: after [execute_command]
    for a session in the map, the map holds the session under its id and the
    tracked directory is what the tracker computes from the command,
    whatever reaches the session meanwhile and whether or not the calls are
    resolved.  The session is active when neither the ['error'] nor the
    ['exit'] event of the child arrives while the handler waits. *)
Theorem execute_command_tracks_at_once (h : Host) (w : MultiServer.World)
    (t : option Z) (o : Options) (i c : string) (m : TerminalManager)
    (s : TerminalSession) :
  Manager.reachable m ->
  AList.get i (sessions m) = Some s ->
  exists s',
    AList.get i
      (sessions
         (fst (MultiServer.handler h w
                 (MultiServer.mkRequest "execute_command"
                    (Some (MultiServer.mkArgs (Some i) (Some c) t o))) m)))
    = Some s'
    /\ workingDirectory s' = Tracker.updateWorkingDirectory h (workingDirectory s) c
    /\ id s' = i
    /\ (childStays (MultiServer.events1 w) = true ->
        childStays (MultiServer.events2 w) = true -> isActive s' = true).
Proof.
  intros Hr Hg.
  assert (Hi : id s = i).
  { apply (RegistryFacts.reachable_keyed Hr). now apply AListFacts.get_some_in. }
  unfold MultiServer.handler. rewrite tryCatch_state.
  unfold MultiServer.dispatch. simpl.
  unfold MultiServer.execute_command, bind, property, ret, Manager.getSession.
  simpl. rewrite Hg.
  destruct (HandlerFacts.runCommand_some h (MultiServer.now1 w) (MultiServer.newPid w)
              s c (MultiServer.events1 w) m) as [s1 [c1 [He1 Hrun1]]].
  destruct (HandlerFacts.command_session h (MultiServer.now1 w) (MultiServer.newPid w)
              s c (MultiServer.events1 w)) as [s1' [c1' [He1' Hs1]]].
  rewrite He1 in He1'. injection He1' as <- <-.
  rewrite Hrun1. clear Hrun1.
  set (s3 := fst (fst (Session.await h (s1, c1) (MultiServer.events1 w)))) in *.
  destruct Hs1 as [Hi3 [Hwd3 Ha3]].
  assert (Hget3 : AList.get i (sessions (Manager.store s3 m)) = Some s3).
  { simpl. rewrite RegistryFacts.get_set, Hi3, Hi, String.eqb_refl. reflexivity. }
  destruct (snd (Session.await h (s1, c1) (MultiServer.events1 w))) as [out|e| |u];
    simpl.
  - destruct (HandlerFacts.runCommand_some h (MultiServer.now2 w) (MultiServer.newPid2 w)
                s3 "pwd" (MultiServer.events2 w) (Manager.store s3 m))
      as [s4 [c2 [He2 Hrun2]]].
    destruct (HandlerFacts.command_session h (MultiServer.now2 w) (MultiServer.newPid2 w)
                s3 "pwd" (MultiServer.events2 w)) as [s4' [c2' [He2' Hs2]]].
    rewrite He2 in He2'. injection He2' as <- <-.
    rewrite Hrun2. clear Hrun2.
    set (s5 := fst (fst (Session.await h (s4, c2) (MultiServer.events2 w)))) in *.
    destruct Hs2 as [Hi5 [Hwd5 Ha5]].
    exists s5. repeat split.
    + destruct (snd (Session.await h (s4, c2) (MultiServer.events2 w))); simpl;
        rewrite RegistryFacts.get_set, Hi5, Hi3, Hi, String.eqb_refl; reflexivity.
    + rewrite Hwd5. exact Hwd3.
    + congruence.
    + intros _ H2. now apply Ha5.
  - exists s3. repeat split; try assumption; [congruence | intros H1 _; now apply Ha3].
  - exists s3. repeat split; try assumption; [congruence | intros H1 _; now apply Ha3].
  - exists s3. repeat split; try assumption; [congruence | intros H1 _; now apply Ha3].
Qed.

Lemma execute_command_tracks_at_once_witness :
  exists s',
    AList.get "s1"
      (sessions
         (fst (MultiServer.handler Examples.host
                 (MultiServer.mkWorld Examples.t0 Examples.t0 7 8
                    [ToCall (StderrData "bash: cd: nowhere: No such file or directory");
                     ToCall TimerFired] [])
                 (MultiServer.mkRequest "execute_command"
                    (Some (MultiServer.mkArgs (Some "s1") (Some "cd nowhere") None
                             noOptions)))
                 Examples.exited)))
    = Some s'
    /\ workingDirectory s' = "/tmp/nowhere" /\ id s' = "s1"
    /\ (childStays [ToCall (StderrData "bash: cd: nowhere: No such file or directory");
                    ToCall TimerFired] = true ->
        childStays [] = true -> isActive s' = true).
Proof.
  exact (@execute_command_tracks_at_once Examples.host
           (MultiServer.mkWorld Examples.t0 Examples.t0 7 8
              [ToCall (StderrData "bash: cd: nowhere: No such file or directory");
               ToCall TimerFired] [])
           None noOptions
           "s1" "cd nowhere" Examples.exited Examples.s1
           ManagerFacts.reachable_exited eq_refl).
Defined.

Module DirnameFacts.

Lemma dropWhile_suffix (f : ascii -> bool) (l : list ascii) :
  exists pre, l = (pre ++ Path.dropWhile f l)%list.
Proof.
  induction l as [|c l [pre IH]]; simpl.
  - now exists [].
  - destruct (f c).
    + exists (c :: pre). simpl. now rewrite <- IH.
    + now exists [].
Qed.

Lemma dropWhile_head (f : ascii -> bool) (l : list ascii) (x : ascii) (l' : list ascii) :
  Path.dropWhile f l = x :: l' -> f x = false.
Proof.
  induction l as [|c l IH]; simpl; [discriminate|].
  destruct (f c) eqn:Hc; [assumption|]. now intros [= <- _].
Qed.

Lemma dropWhile_length (f : ascii -> bool) (l : list ascii) :
  (List.length (Path.dropWhile f l) <= List.length l)%nat.
Proof.
  induction l as [|c l IH]; simpl; [lia|]. destruct (f c); simpl; lia.
Qed.

(** Going back over the last segment takes at least one character. *)
Lemma before_shorter (l : list ascii) (x : ascii) (l' : list ascii) :
  Path.dropWhile (fun c => negb (Path.isSlash c)) (Path.dropWhile Path.isSlash l) = x :: l' ->
  (S (List.length (x :: l')) <= List.length l)%nat /\ Path.isSlash x = true.
Proof.
  intros H. split.
  - pose proof (dropWhile_length Path.isSlash l) as H1.
    destruct (Path.dropWhile Path.isSlash l) as [|y d] eqn:Hd; [discriminate|].
    apply dropWhile_head in Hd. simpl in H. rewrite Hd in H. simpl in H.
    pose proof (dropWhile_length (fun c => negb (Path.isSlash c)) d) as H2.
    rewrite H in H2. simpl in *. lia.
  - apply dropWhile_head in H. now apply negb_false_iff in H.
Qed.

Lemma length_list_of_string (s : string) :
  List.length (list_ascii_of_string s) = String.length s.
Proof. induction s as [|c s IH]; simpl; [reflexivity | now rewrite IH]. Qed.

Lemma substring_length (n : nat) (s : string) :
  (String.length (String.substring 0 n s) <= n)%nat.
Proof.
  revert s. induction n as [|n IH]; intros [|c s]; simpl; try lia.
  specialize (IH s). lia.
Qed.

Lemma substring_prefix (n : nat) (s : string) :
  String.prefix (String.substring 0 n s) s = true.
Proof.
  revert s. induction n as [|n IH]; intros [|c s]; simpl; try reflexivity.
  destruct (ascii_dec c c); [apply IH | contradiction].
Qed.

Lemma isSlash_inv (c : ascii) : Path.isSlash c = true -> c = "/"%char.
Proof. unfold Path.isSlash. intros H. now apply Ascii.eqb_eq in H. Qed.

Lemma dirname_of_absolute (r : string) :
  let p := String "/" r in
  JS.startsWith p (Path.dirname p) = true
  /\ (r <> "" -> (String.length (Path.dirname p) < String.length p)%nat).
Proof.
  intros p. subst p. unfold Path.dirname, JS.startsWith. simpl.
  destruct (Path.dropWhile (fun c => negb (Path.isSlash c))
              (Path.dropWhile Path.isSlash (rev (list_ascii_of_string r))))
    as [|x l] eqn:Hb.
  - simpl. split; [now destruct r|]. destruct r; [contradiction | simpl; lia].
  - destruct (before_shorter _ Hb) as [Hlen Hx].
    rewrite length_rev, length_list_of_string in Hlen. simpl in Hlen.
    simpl. destruct (List.length l) as [|n] eqn:Hl; simpl.
    + split; [|intros _; lia].
      apply length_zero_iff_nil in Hl. subst l.
      destruct (dropWhile_suffix (fun c => negb (Path.isSlash c))
                  (Path.dropWhile Path.isSlash (rev (list_ascii_of_string r))))
        as [pre2 H2].
      destruct (dropWhile_suffix Path.isSlash (rev (list_ascii_of_string r)))
        as [pre1 H1].
      rewrite Hb in H2. rewrite H2 in H1.
      apply (f_equal (@rev ascii)) in H1. rewrite rev_involutive in H1.
      rewrite !rev_app_distr in H1. simpl in H1.
      apply isSlash_inv in Hx. subst x.
      destruct r as [|c r]; [discriminate|]. simpl in H1. injection H1 as -> _.
      simpl. destruct (ascii_dec "/" "/") as [_|Hn]; [now destruct r | now contradiction Hn].
    + split.
      * destruct r as [|c r]; simpl; [reflexivity|].
        destruct (ascii_dec c c); [|contradiction]. apply substring_prefix.
      * intros _. pose proof (substring_length (S n) r). lia.
Qed.

End DirnameFacts.

(** X21. [cd ..] moves the tracked directory to an ancestor: from an
    absolute directory the new one is absolute, is a prefix of the old one
    and, unless the old one is the root, is strictly shorter; from the root
    it is the root.  So repeated [cd ..] ends at the root and stays there. *)
Theorem cd_dotdot_goes_up (h : Host) (wd : string) :
  Path.isAbsolute wd = true ->
  let wd' := Tracker.updateWorkingDirectory h wd "cd .." in
  wd' = Path.dirname wd
  /\ Path.isAbsolute wd' = true
  /\ JS.startsWith wd wd' = true
  /\ (wd = "/" -> wd' = "/")
  /\ (wd <> "/" -> (String.length wd' < String.length wd)%nat).
Proof.
  intros Ha wd'. subst wd'.
  change (Tracker.updateWorkingDirectory h wd "cd ..") with (Path.dirname wd).
  destruct (TrackerFacts2.isAbsolute_inv wd Ha) as [r ->].
  destruct (DirnameFacts.dirname_of_absolute r) as [Hp Hl].
  repeat apply conj.
  - reflexivity.
  - now apply TrackerFacts2.dirname_absolute.
  - exact Hp.
  - intros [= ->]. reflexivity.
  - intros Hne. apply Hl. intros ->. now apply Hne.
Qed.

Lemma cd_dotdot_goes_up_witness :
  Tracker.updateWorkingDirectory Examples.host "/tmp/sub/" "cd .." = "/tmp".
Proof.
  exact (proj1 (cd_dotdot_goes_up Examples.host "/tmp/sub/" eq_refl)).
Defined.

(** X22. [close_all_terminals] answers with the number of sessions there
    were and leaves the map empty: [list_terminals] then reports no session
    and every [get_terminal_status] fails.  The id counter is kept: the next
    id that [createSession] generates is [terminal_] followed by the value
    the counter had before. *)
Theorem close_all_empties_registry (h : Host) (w : MultiServer.World)
    (args : option MultiServer.Args) (m : TerminalManager) :
  let m' := mkManager [] (nextId m) in
  MultiServer.handler h w (MultiServer.mkRequest "close_all_terminals" args) m
  = (m', Normal (mkResponse
                   ("Closed " ++ JS.showN (N.of_nat (List.length (sessions m)))
                    ++ " terminal session(s)") false))
  /\ (forall args',
         MultiServer.handler h w (MultiServer.mkRequest "list_terminals" args') m'
         = (m', Normal (mkResponse "No active terminal sessions" false)))
  /\ (forall i t o,
         MultiServer.handler h w
           (MultiServer.mkRequest "get_terminal_status"
              (Some (MultiServer.mkArgs (Some i) None t o))) m'
         = (m', Normal (mkResponse ("Error: Terminal session '" ++ i ++ "' not found")
                          true)))
  /\ (forall o now,
         JS.orElse (o_id o) "" = "" ->
         snd (Manager.createSession h now o m')
         = Normal (Session.create h now ("terminal_" ++ JS.showN (nextId m)) o)).
Proof.
  intros m'. repeat apply conj.
  - reflexivity.
  - intros args'. reflexivity.
  - intros i t o. reflexivity.
  - intros o now Ho. unfold Manager.createSession.
    destruct (o_id o) as [[|c s]|]; simpl in Ho; try discriminate; reflexivity.
Qed.

(* ================================================================== *)
(** * Normal form and quoting in the directory tracker *)

Module ResolveFacts.

Lemma segments_no_slash (p : string) :
  Forall (fun seg => Tracker.anyChar Path.isSlash seg = false) (Path.segments p).
Proof.
  induction p as [|c p IH]; simpl.
  - constructor; [reflexivity | constructor].
  - destruct (Ascii.eqb c "/") eqn:Hc.
    + constructor; [reflexivity | assumption].
    + destruct (Path.segments p) as [|seg l]; simpl.
      * constructor; [|constructor]. simpl. unfold Path.isSlash. now rewrite Hc.
      * inversion IH; subst. constructor; [|assumption].
        simpl. unfold Path.isSlash at 1. now rewrite Hc.
Qed.

Lemma normalizeSegment_clean (acc : list string) (seg : string) :
  Forall (fun s => cleanSegment s = true) acc ->
  Tracker.anyChar Path.isSlash seg = false ->
  Forall (fun s => cleanSegment s = true) (Path.normalizeSegment false acc seg).
Proof.
  intros Hacc Hseg. unfold Path.normalizeSegment.
  destruct (String.eqb seg "") eqn:H1; simpl; [assumption|].
  destruct (String.eqb seg ".") eqn:H2; simpl; [assumption|].
  destruct (String.eqb seg "..") eqn:H3.
  - destruct acc as [|top rest]; [constructor|].
    inversion Hacc; subst. destruct (String.eqb top ".."); assumption.
  - constructor; [|assumption]. unfold cleanSegment. now rewrite H1, H2, H3, Hseg.
Qed.

Lemma fold_clean (segs acc : list string) :
  Forall (fun s => cleanSegment s = true) acc ->
  Forall (fun seg => Tracker.anyChar Path.isSlash seg = false) segs ->
  Forall (fun s => cleanSegment s = true)
    (fold_left (Path.normalizeSegment false) segs acc).
Proof.
  revert acc. induction segs as [|seg segs IH]; intros acc Hacc Hsegs; simpl.
  - assumption.
  - inversion Hsegs; subst. apply IH; [|assumption].
    now apply normalizeSegment_clean.
Qed.

Lemma resolve_normal (cwd a b : string) :
  Path.isAbsolute a = true ->
  exists l,
    Path.resolve cwd a b = "/" ++ Path.joinSegments l
    /\ Forall (fun s => cleanSegment s = true) l.
Proof.
  intros Ha. destruct (TrackerFacts2.isAbsolute_inv a Ha) as [r ->].
  unfold Path.resolve. simpl.
  assert (Hn : forall p,
             Forall (fun s => cleanSegment s = true)
               (rev (fold_left (Path.normalizeSegment false) (Path.segments p) []))).
  { intros p. apply Forall_rev. apply fold_clean; [constructor | apply segments_no_slash]. }
  destruct (String.eqb b ""); simpl.
  - eexists. split; [reflexivity | apply Hn].
  - destruct (Path.isAbsolute b); simpl; eexists; (split; [reflexivity | apply Hn]).
Qed.

End ResolveFacts.

(** X23. A relative [cd] leaves the tracked directory in normal form: when
    the tracked directory is absolute and the argument of a matching command
    is neither absolute nor [..], [~] or a path under [~/], the new tracked
    directory is a slash followed by segments joined by slashes, none of
    which is empty, [.] or [..]. *)
Theorem relative_cd_is_normalised (h : Host) (wd command g : string) :
  Path.isAbsolute wd = true ->
  Tracker.cdMatch command = Some g ->
  let t := if Tracker.isQuoted (JS.trim g) then JS.slice_1_m1 (JS.trim g) else JS.trim g in
  Path.isAbsolute t = false ->
  String.eqb t ".." = false -> String.eqb t "~" = false ->
  JS.startsWith t "~/" = false ->
  exists l,
    Tracker.updateWorkingDirectory h wd command = "/" ++ Path.joinSegments l
    /\ Forall (fun s => cleanSegment s = true) l.
Proof.
  intros Hwd Hm t Ht H1 H2 H3. unfold Tracker.updateWorkingDirectory.
  rewrite Hm. fold t. rewrite Ht, H1, H2, H3. simpl.
  now apply ResolveFacts.resolve_normal.
Qed.

Lemma relative_cd_is_normalised_witness :
  exists l,
    Tracker.updateWorkingDirectory Examples.host "/tmp//a/" "cd ./b/../../c//d/."
    = "/" ++ Path.joinSegments l
    /\ Forall (fun s => cleanSegment s = true) l.
Proof.
  exact (@relative_cd_is_normalised Examples.host "/tmp//a/" "cd ./b/../../c//d/."
           "./b/../../c//d/." eq_refl eq_refl eq_refl eq_refl eq_refl eq_refl).
Defined.

Module QuoteFacts.

Lemma trimEnd_snoc (s : string) (c : ascii) :
  JS.isWhiteSpace c = false ->
  JS.trimEnd (s ++ String c "") = s ++ String c "".
Proof.
  intros Hc. induction s as [|a s IH]; simpl.
  - now rewrite Hc.
  - rewrite IH. now destruct s.
Qed.

Lemma trimEnd_length (s : string) : (String.length (JS.trimEnd s) <= String.length s)%nat.
Proof.
  induction s as [|a s IH]; simpl; [lia|].
  destruct (JS.trimEnd s); simpl in *; [destruct (JS.isWhiteSpace a); simpl; lia | lia].
Qed.

Lemma trimStart_length (s : string) :
  (String.length (JS.trimStart s) <= String.length s)%nat.
Proof.
  induction s as [|a s IH]; simpl; [lia|]. destruct (JS.isWhiteSpace a); simpl; lia.
Qed.

Lemma trim_fixed_not_blank (t : string) : JS.trim t = t -> startsBlank t = false.
Proof.
  destruct t as [|a t]; [reflexivity|]. simpl. intros H.
  destruct (JS.isWhiteSpace a) eqn:Ha; [|reflexivity].
  apply (f_equal String.length) in H. unfold JS.trim in H. simpl in H. rewrite Ha in H.
  pose proof (trimEnd_length (JS.trimStart t)). pose proof (trimStart_length t). lia.
Qed.

Lemma anyChar_app (f : ascii -> bool) (a b : string) :
  Tracker.anyChar f (a ++ b) = Tracker.anyChar f a || Tracker.anyChar f b.
Proof.
  induction a as [|c a IH]; simpl; [reflexivity|]. now rewrite IH, orb_assoc.
Qed.

Lemma drop_app (a b : string) : JS.drop (String.length a) (a ++ b) = b.
Proof. induction a as [|c a IH]; simpl; [now destruct b | assumption]. Qed.

Lemma substring_app (a b : string) : String.substring 0 (String.length a) (a ++ b) = a.
Proof.
  induction a as [|c a IH]; simpl; [now destruct b | now rewrite IH].
Qed.

Lemma prefix_nil (s : string) : String.prefix "" s = true.
Proof. now destruct s. Qed.

(** [cd] followed by one blank and an argument that starts with no blank
    and holds no line break matches with that argument. *)
Lemma cdMatch_plain (x : string) :
  startsBlank x = false -> Tracker.anyChar JS.isLineTerminator x = false ->
  Tracker.cdMatch ("cd " ++ x) = Some x.
Proof.
  intros Hb Hl. rewrite TrackerFacts2.cdMatch_letters. simpl.
  change (Tracker.dropSpaces (String " " x)) with (Tracker.dropSpaces x).
  rewrite TrackerFacts2.dropSpaces_fixed by assumption. rewrite Hl. simpl.
  destruct (Nat.ltb_spec (String.length x) (S (String.length x))); [reflexivity | lia].
Qed.

(** A name between two quote characters [q] is trimmed to itself, counts as
    quoted, and [slice(1, -1)] gives the name back. *)
Lemma quoted_unwraps (qc : ascii) (t : string) :
  JS.isWhiteSpace qc = false ->
  let q := String qc "" in
  JS.trim (q ++ t ++ q) = q ++ t ++ q
  /\ JS.startsWith (q ++ t ++ q) q = true
  /\ JS.endsWith (q ++ t ++ q) q = true
  /\ JS.slice_1_m1 (q ++ t ++ q) = t.
Proof.
  intros Hq q. subst q. repeat apply conj.
  - unfold JS.trim. simpl. rewrite Hq.
    change (String qc (t ++ String qc "")) with ((String qc t) ++ String qc "").
    now apply trimEnd_snoc.
  - unfold JS.startsWith. simpl.
    destruct (ascii_dec qc qc); [apply prefix_nil | contradiction].
  - unfold JS.endsWith. simpl. rewrite TrackerFacts2.length_append. simpl.
    replace (String.length t + 1 - 0)%nat with (S (String.length t)) by lia.
    simpl. rewrite drop_app. rewrite String.eqb_refl.
    destruct (String.length t + 1)%nat eqn:E; [lia | reflexivity].
  - unfold JS.slice_1_m1. simpl. rewrite TrackerFacts2.length_append. simpl.
    replace (String.length t + 1 - 1)%nat with (String.length t) by lia.
    apply substring_app.
Qed.

End QuoteFacts.

(** X24. One pair of matching quotes around the directory makes no
    difference: for a name that is its own trimmed form, holds no line
    break and is not itself wrapped in quotes, [cd "name"] and [cd 'name']
    move the tracked directory exactly as [cd name] does. *)
Theorem quoted_cd_same_as_bare (h : Host) (wd t : string) :
  JS.trim t = t ->
  Tracker.anyChar JS.isLineTerminator t = false ->
  Tracker.isQuoted t = false ->
  Tracker.updateWorkingDirectory h wd ("cd " ++ JS.dquote ++ t ++ JS.dquote)
  = Tracker.updateWorkingDirectory h wd ("cd " ++ t)
  /\ Tracker.updateWorkingDirectory h wd ("cd " ++ JS.squote ++ t ++ JS.squote)
     = Tracker.updateWorkingDirectory h wd ("cd " ++ t).
Proof.
  intros Ht Hl Hq.
  pose proof (@QuoteFacts.trim_fixed_not_blank t Ht) as Hb.
  assert (Hbare : Tracker.updateWorkingDirectory h wd ("cd " ++ t)
                  = (let targetDir := t in
                     if negb (Path.isAbsolute targetDir) then
                       if String.eqb targetDir ".." then Path.dirname wd
                       else if String.eqb targetDir "~" then homedir h
                       else if JS.startsWith targetDir "~/"
                            then Path.join (homedir h) (JS.slice_2 targetDir)
                            else Path.resolve (process_cwd h) wd targetDir
                     else targetDir)).
  { unfold Tracker.updateWorkingDirectory.
    rewrite (@QuoteFacts.cdMatch_plain t Hb Hl), Ht, Hq. reflexivity. }
  assert (Hquoted : forall qc,
             JS.isWhiteSpace qc = false -> JS.isLineTerminator qc = false ->
             (qc = ascii_of_nat 34 \/ qc = "'"%char) ->
             Tracker.updateWorkingDirectory h wd
               ("cd " ++ String qc "" ++ t ++ String qc "")
             = Tracker.updateWorkingDirectory h wd ("cd " ++ t)).
  { intros qc Hw Hlt Hwhich. rewrite Hbare.
    destruct (@QuoteFacts.quoted_unwraps qc t Hw) as [Htrim [Hs [He Hslice]]].
    unfold Tracker.updateWorkingDirectory.
    rewrite (@QuoteFacts.cdMatch_plain (String qc "" ++ t ++ String qc "")).
    - rewrite Htrim.
      assert (Hisq : Tracker.isQuoted (String qc "" ++ t ++ String qc "") = true).
      { unfold Tracker.isQuoted. destruct Hwhich as [-> | ->].
        - change JS.dquote with (String (ascii_of_nat 34) "").
          rewrite Hs, He. reflexivity.
        - change JS.squote with (String "'" "").
          rewrite Hs, He. apply orb_true_r. }
      rewrite Hisq, Hslice. reflexivity.
    - simpl. exact Hw.
    - simpl. rewrite Hlt. simpl. rewrite QuoteFacts.anyChar_app, Hl. simpl.
      now rewrite Hlt. }
  split.
  - apply (Hquoted (ascii_of_nat 34)); [reflexivity | reflexivity | now left].
  - apply (Hquoted "'"%char); [reflexivity | reflexivity | now right].
Qed.

Lemma quoted_cd_same_as_bare_witness :
  Tracker.updateWorkingDirectory Examples.host "/tmp"
    ("cd " ++ JS.squote ++ "my dir/../x" ++ JS.squote) = "/tmp/x".
Proof.
  exact (eq_trans
           (proj2 (@quoted_cd_same_as_bare Examples.host "/tmp" "my dir/../x"
                     eq_refl eq_refl eq_refl))
           eq_refl).
Defined.
